(** * Figlewski option-hedging notebooks: a shallow embedding

    The two notebooks (the draft [unnamed/part_000] and [presentation.ipynb])
    simulate 250 price paths of 25 days, price European calls on them with
    [bscall], and measure the daily excess return of the delta hedge.

    Numbers.  Every number of the notebooks is an IEEE binary64 value.  It is
    modelled by [num]: an exact real, or one of the three special values
    [+inf], [-inf], [nan], with the IEEE rules for the special values (a
    division by zero yields an infinity or [nan], [inf - inf] is [nan], ...).
    Rounding error, overflow, underflow and the sign of zero are not
    modelled: the arithmetic of finite values is the arithmetic of [R].
    Two effects of binary64 decide claims about strict order or exact
    equality, and are modelled beside the exact arithmetic: the normal
    distribution function returns exactly 1.0 and 0.0 at its two ends
    ([norm_cdf_sat], [bscall_sat]), and the reductions [np.mean] and
    [np.std] round after every addition ([np_mean_b64], [np_std_b64], on
    the kernel's binary64 numbers).

    Effects.  [np.random.normal] reads a global generator: the generator is
    a stream of draws threaded through the code.  Operations that raise in
    Python ([math.log] outside its domain, an index out of range) return
    [Raise]; numpy's own functions never raise on floats, they return
    [inf]/[nan].

    Sizes.  The literal shapes of the notebooks (4 strikes, 250 assets, 25
    days, 5 volatilities) are parameters of the loops; the notebooks' values
    are [N_STRIKES], [N_ASSETS], [N_DAYS], [N_VOLS].  The variables the
    cells read ([ar], [rfr], [div], [strikes], [volatilities], [K]) are
    parameters too, with the notebooks' values under the same names.

    Names.  [exp], [log] and [sqrt] are the functions of Python's [math]
    module, as the draft notebook imports them; [presentation.ipynb] asks
    [math] for [abs] as well, a name the module does not have, and is read
    with the same three functions bound. *)

From Stdlib Require Import Reals Lra Lia ZArith.
From Corelib Require PrimFloat.
From stdpp Require Import base list strings.

Open Scope R_scope.

(** ** Numbers *)

Inductive num : Type :=
| Fin (x : R)
| PInf
| NInf
| NaN.

Declare Scope num_scope.
Delimit Scope num_scope with num.
Bind Scope num_scope with num.

(** [inf * y] for a finite [y], [pos] telling the sign of the infinity;
    also [y / 0], read as [y * inf]. *)
Definition inf_scaled (pos : bool) (y : R) : num :=
  if Rlt_dec 0 y then (if pos then PInf else NInf)
  else if Rlt_dec y 0 then (if pos then NInf else PInf)
  else NaN.

Definition fneg (a : num) : num :=
  match a with
  | Fin x => Fin (- x)
  | PInf => NInf
  | NInf => PInf
  | NaN => NaN
  end.

Definition fadd (a b : num) : num :=
  match a, b with
  | NaN, _ | _, NaN => NaN
  | Fin x, Fin y => Fin (x + y)
  | PInf, NInf | NInf, PInf => NaN
  | PInf, _ | _, PInf => PInf
  | NInf, _ | _, NInf => NInf
  end.

Definition fsub (a b : num) : num := fadd a (fneg b).

Definition fmul (a b : num) : num :=
  match a, b with
  | NaN, _ | _, NaN => NaN
  | Fin x, Fin y => Fin (x * y)
  | PInf, Fin y | Fin y, PInf => inf_scaled true y
  | NInf, Fin y | Fin y, NInf => inf_scaled false y
  | PInf, PInf | NInf, NInf => PInf
  | PInf, NInf | NInf, PInf => NInf
  end.

(** numpy's true division: no exception, [x / 0] is [+-inf] or [nan]. *)
Definition fdiv (a b : num) : num :=
  match a, b with
  | NaN, _ | _, NaN => NaN
  | Fin x, Fin y => if Req_dec_T y 0 then inf_scaled true x else Fin (x / y)
  | Fin _, (PInf | NInf) => Fin 0
  | PInf, Fin y => if Rlt_dec y 0 then NInf else PInf
  | NInf, Fin y => if Rlt_dec y 0 then PInf else NInf
  | (PInf | NInf), (PInf | NInf) => NaN
  end.

Infix "+" := fadd : num_scope.
Infix "-" := fsub : num_scope.
Infix "*" := fmul : num_scope.
Infix "/" := fdiv : num_scope.
Notation "- a" := (fneg a) : num_scope.

(** [x ** 2] *)
Definition fpow2 (a : num) : num := (a * a)%num.

Definition fabs (a : num) : num :=
  match a with
  | Fin x => Fin (Rabs x)
  | PInf | NInf => PInf
  | NaN => NaN
  end.

(** Python's [a > b] on floats: false as soon as one side is [nan]. *)
Definition fgtb (a b : num) : bool :=
  match a, b with
  | Fin x, Fin y => if Rlt_dec y x then true else false
  | PInf, (Fin _ | NInf) => true
  | Fin _, NInf => true
  | _, _ => false
  end.

(** [np.exp], [np.log], [np.sqrt]: total, with IEEE results outside the
    domain. *)
Definition np_exp (a : num) : num :=
  match a with
  | Fin x => Fin (exp x)
  | PInf => PInf
  | NInf => Fin 0
  | NaN => NaN
  end.

Definition np_log (a : num) : num :=
  match a with
  | Fin x => if Rlt_dec 0 x then Fin (ln x)
             else if Rlt_dec x 0 then NaN else NInf
  | PInf => PInf
  | NInf | NaN => NaN
  end.

Definition np_sqrt (a : num) : num :=
  match a with
  | Fin x => if Rlt_dec x 0 then NaN else Fin (sqrt x)
  | PInf => PInf
  | NInf | NaN => NaN
  end.

(** ** Exceptions *)

Inductive exn : Type := ValueError | IndexError | ZeroDivisionError.

Inductive res (A : Type) : Type :=
| Ok (a : A)
| Raise (e : exn).
Arguments Ok {A} a.
Arguments Raise {A} e.

#[global] Instance res_ret : MRet res := fun A a => Ok a.
#[global] Instance res_bind : MBind res := fun A B f m =>
  match m with Ok a => f a | Raise e => Raise e end.

(** [math.exp], [math.log], [math.sqrt]: Python's own functions raise
    [ValueError] outside the domain ([OverflowError] needs overflow, which
    exact arithmetic does not have). *)
Definition math_exp (a : num) : res num := Ok (np_exp a).

Definition math_log (a : num) : res num :=
  match a with
  | Fin x => if Rlt_dec 0 x then Ok (Fin (ln x)) else Raise ValueError
  | PInf => Ok PInf
  | NInf => Raise ValueError
  | NaN => Ok NaN
  end.

Definition math_sqrt (a : num) : res num :=
  match a with
  | Fin x => if Rlt_dec x 0 then Raise ValueError else Ok (Fin (sqrt x))
  | PInf => Ok PInf
  | NInf => Raise ValueError
  | NaN => Ok NaN
  end.

(** Python's [/] on its own floats and ints: [ZeroDivisionError] on a zero
    divisor. *)
Definition py_div (a b : num) : res num :=
  match b with
  | Fin y => if Req_dec_T y 0 then Raise ZeroDivisionError else Ok (a / b)%num
  | _ => Ok (a / b)%num
  end.

(** [ndarray.round()]: to the nearest integer, a tie to the even one. *)
Definition rint (x : R) : Z :=
  let f := Int_part x in
  if Rlt_dec (frac_part x) (1 / 2) then f
  else if Rlt_dec (1 / 2) (frac_part x) then (f + 1)%Z
  else if Z.even f then f else (f + 1)%Z.

Definition fround (a : num) : num :=
  match a with
  | Fin x => Fin (IZR (rint x))
  | _ => a
  end.

(** ** Arrays *)

#[global] Instance num_inhabited : Inhabited num := populate NaN.


(** [l[i]] and [l[i] = x] with Python's [IndexError] out of range (the
    notebooks only use indices from 0 upwards, and [-1] for the last
    column). *)
Definition getitem {A} (l : list A) (i : nat) : res A :=
  match l !! i with
  | Some x => Ok x
  | None => Raise IndexError
  end.

Definition setitem {A} (l : list A) (i : nat) (x : A) : res (list A) :=
  if decide (i < length l)%nat then Ok (<[i := x]> l) else Raise IndexError.

(** [range(a, b)] *)
Definition range (a b : nat) : list nat := seq a (b - a).

(** [for i in l: s = body i s], stopping at the first exception. *)
Fixpoint for_ {I S} (l : list I) (body : I -> S -> res S) (s : S) : res S :=
  match l with
  | [] => Ok s
  | i :: l' => s' ← body i s; for_ l' body s'
  end.

(** Multi-dimensional indexing [M[i][j]...]: a key is the tuple of
    indices, read and written through the rows. *)
Definition get_in {S K V} (getS : S -> K -> res V)
    (M : list S) (ik : nat * K) : res V :=
  r ← getitem M ik.1; getS r ik.2.

Definition set_in {S K V} (setS : S -> K -> V -> res S)
    (M : list S) (ik : nat * K) (x : V) : res (list S) :=
  r ← getitem M ik.1; r' ← setS r ik.2 x; setitem M ik.1 r'.

Definition get2 {V} : list (list V) -> nat * nat -> res V := get_in getitem.
Definition set2 {V} : list (list V) -> nat * nat -> V -> res (list (list V)) :=
  set_in setitem.
Definition get3 {V} : list (list (list V)) -> nat * (nat * nat) -> res V :=
  get_in get2.
Definition set3 {V} :
    list (list (list V)) -> nat * (nat * nat) -> V -> res (list (list (list V))) :=
  set_in set2.
Definition get4 {V} :
    list (list (list (list V))) -> nat * (nat * (nat * nat)) -> res V :=
  get_in get3.
Definition set4 {V} :
    list (list (list (list V))) -> nat * (nat * (nat * nat)) -> V ->
    res (list (list (list (list V)))) :=
  set_in set3.

(** Shapes. *)
Definition shape1 {V} (n : nat) (l : list V) : Prop := length l = n.
Definition shape2 {V} (n m : nat) (M : list (list V)) : Prop :=
  length M = n /\ Forall (shape1 m) M.
Definition shape3 {V} (n m p : nat) (M : list (list (list V))) : Prop :=
  length M = n /\ Forall (shape2 m p) M.
Definition shape4 {V} (n m p q : nat) (M : list (list (list (list V)))) : Prop :=
  length M = n /\ Forall (shape3 m p q) M.

(** [M[:, c]] of a 2-d array and [a * b] elementwise. *)
Definition column {V} (M : list (list V)) (c : nat) : res (list V) :=
  mapM (fun row => getitem row c) M.

Definition last_column {V} (M : list (list V)) : res (list V) :=
  mapM (fun row => match last row with
                   | Some x => Ok x
                   | None => Raise IndexError
                   end) M.

(** [final_prices = assets[:,-1]] *)
Definition final_prices (assets : list (list num)) : res (list num) :=
  last_column assets.

Definition arr_mul (a b : list num) : list num := zip_with fmul a b.

(** ** numpy reductions *)

(** [np.sum]: the order of the additions does not matter for [fadd]
    (lemmas [fadd_comm], [fadd_assoc]). *)
Definition np_sum (l : list num) : num := foldr fadd (Fin 0) l.

(** [np.mean]: the sum over the count, [0/0 = nan] on an empty array. *)
Definition np_mean (l : list num) : num :=
  (np_sum l / Fin (INR (length l)))%num.

(** [np.std]: [sqrt(mean(abs(x - x.mean())**2))]. *)
Definition np_std (l : list num) : num :=
  let m := np_mean l in
  np_sqrt (np_mean (map (fun x => fpow2 (fabs (x - m))) l)).

(** *** The reductions in binary64 *)

(** numpy adds a contiguous array of doubles pairwise: fewer than 8
    numbers one after the other; up to 128 numbers in 8 running sums
    [r[0..7]] that are added as a tree, the numbers left over after the
    last block of 8 one after the other; more than 128 numbers as the sum
    of the two halves, the first of a length that is a multiple of 8.
    [np.mean] divides the sum by the count, and [np.std] is the square
    root of the mean of [(x - mean) * (x - mean)]. *)
Section Binary64.
Import PrimFloat.
#[local] Open Scope float_scope.

Fixpoint float_of_nat (n : nat) : float :=
  match n with
  | O => 0
  | S k => float_of_nat k + 1
  end.

Fixpoint add_blocks (blocks : nat) (r rest : list float)
    : list float * list float :=
  match blocks with
  | O => (r, rest)
  | S b => add_blocks b (zip_with PrimFloat.add r (take 8 rest)) (drop 8 rest)
  end.

Definition tree8 (r : list float) : float :=
  match r with
  | [r0; r1; r2; r3; r4; r5; r6; r7] =>
      ((r0 + r1) + (r2 + r3)) + ((r4 + r5) + (r6 + r7))
  | _ => 0
  end.

Definition pairwise_block (a : list float) : float :=
  let n := length a in
  if (n <? 8)%nat then foldl PrimFloat.add 0 a
  else let '(r, rest) := add_blocks (n / 8 - 1) (take 8 a) (drop 8 a) in
       foldl PrimFloat.add (tree8 r) rest.

Fixpoint pairwise_sum (fuel : nat) (a : list float) : float :=
  let n := length a in
  match fuel with
  | O => pairwise_block a
  | S fuel' =>
      if (n <=? 128)%nat then pairwise_block a
      else let n2 := (n / 2 - (n / 2) mod 8)%nat in
           pairwise_sum fuel' (take n2 a) + pairwise_sum fuel' (drop n2 a)
  end.

Definition np_sum_b64 (a : list float) : float := pairwise_sum (length a) a.

Definition np_mean_b64 (a : list float) : float :=
  np_sum_b64 a / float_of_nat (length a).

Definition np_std_b64 (a : list float) : float :=
  let m := np_mean_b64 a in
  sqrt (np_mean_b64 (map (fun x => (x - m) * (x - m)) a)).
End Binary64.

(** ** The standard normal distribution ([scipy.stats.norm.cdf]) *)

Definition norm_pdf (x : R) : R := exp (- (x * x) / 2) / sqrt (2 * PI).

Lemma norm_pdf_continuity (x : R) : continuity_pt norm_pdf x.
Proof.
  apply derivable_continuous_pt.
  unfold norm_pdf. reg.
Qed.

Lemma norm_pdf_integrable (a b : R) : Riemann_integrable norm_pdf a b.
Proof.
  destruct (Rle_dec a b) as [Hab | Hab].
  - apply continuity_implies_RiemannInt;
      [exact Hab | intros; apply norm_pdf_continuity].
  - apply RiemannInt_P1, continuity_implies_RiemannInt;
      [lra | intros; apply norm_pdf_continuity].
Qed.

(** [Phi(x) = 1/2 + int_0^x pdf]. *)
Definition norm_cdf_R (x : R) : R :=
  1 / 2 + RiemannInt (norm_pdf_integrable 0 x).

Definition norm_cdf (a : num) : num :=
  match a with
  | Fin x => Fin (norm_cdf_R x)
  | PInf => Fin 1
  | NInf => Fin 0
  | NaN => NaN
  end.



(** ** The pricer *)

(** [presentation.ipynb], [bscall]: the call price and the delta.  The
    arithmetic is numpy's ([np.log], [np.sqrt], [np.exp] and the division by
    the array scalar [vol*np.sqrt(T)]): nothing raises, a division by zero
    yields an infinity or [nan]. *)
Definition bscall (price strike rfr vol div T : num) : num * num :=
  let N := norm_cdf in
  let d1 := ((np_log (price / strike) + (rfr - div + fpow2 vol / Fin 2) * T)
             / (vol * np_sqrt T))%num in
  let d2 := (d1 - vol * np_sqrt T)%num in
  let call := (price * np_exp (- div * T) * N d1
               - strike * np_exp (- rfr * T) * N d2)%num in
  let delta := N d1 in
  (call, delta).

(** The draft notebook's [bscall]: the same price, without the delta. *)
Definition bscall_draft (price strike rfr vol div T : num) : num :=
  let N := norm_cdf in
  let d1 := ((np_log (price / strike) + (rfr - div + fpow2 vol / Fin 2) * T)
             / (vol * np_sqrt T))%num in
  let d2 := (d1 - vol * np_sqrt T)%num in
  (price * np_exp (- div * T) * N d1
   - strike * np_exp (- rfr * T) * N d2)%num.



(** The formula over the reals, for finite arguments. *)
Definition bs_d1 (S K r q T v : R) : R :=
  (ln (S / K) + (r - q + v * v / 2) * T) / (v * sqrt T).

Definition bs_d2 (S K r q T v : R) : R := bs_d1 S K r q T v - v * sqrt T.

Definition bs_call (S K r q T v : R) : R :=
  S * exp (- q * T) * norm_cdf_R (bs_d1 S K r q T v)
  - K * exp (- r * T) * norm_cdf_R (bs_d2 S K r q T v).


(** ** The notebooks' constants *)

Definition N_STRIKES : nat := 4.
Definition N_ASSETS : nat := 250.
Definition N_DAYS : nat := 25.
Definition N_VOLS : nat := 5.

Definition ar : num := Fin (15 / 100).
Definition rfr : num := Fin (5 / 100).
Definition div : num := Fin 0.
Definition strikes : list num := [Fin 97; Fin 100; Fin 103; Fin 105].
Definition volatilities : list num :=
  [Fin (10 / 100); Fin (13 / 100); Fin (15 / 100); Fin (17 / 100); Fin (20 / 100)].
Definition K : list num :=
  [Fin (2 / 100); Fin (5 / 100); Fin (10 / 100); Fin (25 / 100); Fin 1].

(** [R = log(1+ar)/260] and [v = ar/sqrt(260)], with [math.log],
    [math.sqrt] and Python's division; [ar] is the variable the cell sets
    to 0.15, the annual drift and the annual volatility at once. *)
Definition R_daily (ar : num) : res num :=
  l ← math_log (Fin 1 + ar); py_div l (Fin 260).

Definition v_daily (ar : num) : res num :=
  s ← math_sqrt (Fin 260); py_div ar s.

(** [sqrt(260/24)], the annualisation factor of the dispersions. *)
Definition annualize : res num :=
  q ← py_div (Fin 260) (Fin 24); math_sqrt q.

(** ** The random generator *)

(** The global generator of [np.random]: the stream of the standard normal
    draws still to come. *)
Definition rng : Type := nat -> R.

(** [np.random.normal(0,1)] *)
Definition np_random_normal (g : rng) : num * rng :=
  (Fin (g 0%nat), fun n => g (S n)).

(** A Python variable that holds an array at first and a scalar later
    ([dr] in the path generator). *)
Inductive pyval : Type :=
| Arr (l : list num)
| Scal (x : num).

Section Notebook.

(** What [np.empty] finds in memory. *)
Variable junk : nat -> num.

Definition np_empty (n : nat) : list num := map junk (seq 0 n).
Definition np_empty2 (n m : nat) : list (list num) := replicate n (np_empty m).
Definition np_empty3 (n m p : nat) : list (list (list num)) :=
  replicate n (np_empty2 m p).
Definition np_empty4 (n m p q : nat) : list (list (list (list num))) :=
  replicate n (np_empty3 m p q).

(** *** The path generator *)

(** [M[i] = v] for a row of [m] cells: a scalar is broadcast, an array
    must have the row's shape. *)
Definition assign_row (M : list (list num)) (i m : nat) (v : pyval)
    : res (list (list num)) :=
  match v with
  | Scal x => setitem M i (replicate m x)
  | Arr l => if decide (length l = m) then setitem M i l else Raise ValueError
  end.

(** The body of [for t in range(1,25)]:
    [price[t]=price[t-1]*exp(R+v*np.random.normal(0,1))] and
    [dr=log(price[t]/price[t-1])], which rebinds [dr]. *)
Definition day_step (R v : num) (t : nat) (s : list num * pyval * rng)
    : res (list num * pyval * rng) :=
  let '(price, _, g) := s in
  p1 ← getitem price (t - 1);
  let '(z, g) := np_random_normal g in
  e ← math_exp (R + v * z);
  price ← setitem price t (p1 * e)%num;
  pt ← getitem price t;
  pt1 ← getitem price (t - 1);
  dr ← math_log (pt / pt1);
  mret (price, Scal dr, g).

(** The body of [for i in range(250)]. *)
Definition asset_step (n_days : nat) (R v : num) (i : nat)
    (s : list (list num) * list (list num) * rng)
    : res (list (list num) * list (list num) * rng) :=
  let '(assets, daily_returns, g) := s in
  price ← setitem (np_empty n_days) 0 (Fin 100);
  dr ← setitem (np_empty n_days) 0 (Fin 0);
  '(price, dr, g) ← for_ (range 1 n_days) (day_step R v) (price, Arr dr, g);
  assets ← setitem assets i price;
  daily_returns ← assign_row daily_returns i n_days dr;
  mret (assets, daily_returns, g).

(** The generator cell: [(assets, daily_returns)] and the generator left. *)
Definition simulate (ar : num) (n_assets n_days : nat) (g : rng)
    : res (list (list num) * list (list num) * rng) :=
  R ← R_daily ar;
  v ← v_daily ar;
  for_ (range 0 n_assets) (asset_step n_days R v)
    (np_empty2 n_assets n_days, np_empty2 n_assets n_days, g).

(** [vol[i]=np.std(daily_returns[i])] for every asset, then the
    annualised mean and deviation of [vol]. *)
Definition realized_vol (n_assets : nat) (daily_returns : list (list num))
    : res (list num) :=
  for_ (range 0 n_assets)
    (fun i vol => row ← getitem daily_returns i; setitem vol i (np_std row))
    (np_empty n_assets).

Definition volatility_summary (n_assets : nat)
    (daily_returns : list (list num)) : res (list num * num * num) :=
  vol ← realized_vol n_assets daily_returns;
  a ← annualize;
  let mean_annualized_volatility := (np_mean vol * a)%num in
  a' ← annualize;
  let stdev_annualized_volatility := (np_std vol * a')%num in
  mret (vol, mean_annualized_volatility, stdev_annualized_volatility).

(** *** The option grid *)

(** [presentation.ipynb], cell 58: for every volatility, strike, asset
    and day, [T=(25-j)] and
    [option_prices[v][k][i][j], call_deltas[v][k][i][j]
       = bscall(price, strikes[k], rfr, volatilities[v], div, T/260)]. *)
Definition grid_cell (n_days : nat) (assets : list (list num))
    (strikes volatilities : list num) (rfr div : num)
    (key : nat * (nat * (nat * nat)))
    (s : list (list (list (list num))) * list (list (list (list num))))
    : res (list (list (list (list num))) * list (list (list (list num)))) :=
  let '(v, (k, (i, j))) := key in
  let '(option_prices, call_deltas) := s in
  let T := Fin (IZR (Z.of_nat n_days - Z.of_nat j)) in
  price ← get2 assets (i, j);
  strike ← getitem strikes k;
  vol ← getitem volatilities v;
  tte ← py_div T (Fin 260);
  let '(c, d) := bscall price strike rfr vol div tte in
  option_prices ← set4 option_prices key c;
  call_deltas ← set4 call_deltas key d;
  mret (option_prices, call_deltas).

Definition option_grid (n_vols n_strikes n_assets n_days : nat)
    (assets : list (list num)) (strikes volatilities : list num)
    (rfr div : num)
    : res (list (list (list (list num))) * list (list (list (list num)))) :=
  for_ (range 0 n_vols) (fun v s =>
    for_ (range 0 n_strikes) (fun k s =>
      for_ (range 0 n_assets) (fun i s =>
        for_ (range 0 n_days) (fun j s =>
          grid_cell n_days assets strikes volatilities rfr div
            (v, (k, (i, j))) s) s) s) s)
    (np_empty4 n_vols n_strikes n_assets n_days,
     np_empty4 n_vols n_strikes n_assets n_days).

(** *** The hedge simulator *)

(** [d_excess_return[:,:,0]=0] *)
Definition set_column0 (n_days : nat) (D : list (list (list num))) (x : num)
    : res (list (list (list num))) :=
  if decide (0 < n_days)%nat then Ok (map (map (<[0%nat := x]>)) D)
  else Raise IndexError.

(** The innermost statement of [excess_return]. *)
Definition excess_cell (option_prices call_deltas : list (list (list num)))
    (assets : list (list num)) (rfr : num) (key : nat * (nat * nat))
    (D : list (list (list num))) : res (list (list (list num))) :=
  let '(i, (j, k)) := key in
  ct ← get3 option_prices (i, (j, k));
  ct1 ← get3 option_prices (i, (j, k - 1)%nat);
  h ← get3 call_deltas (i, (j, k - 1)%nat);
  pt ← get2 assets (j, k);
  pt1 ← get2 assets (j, (k - 1)%nat);
  dr ← py_div rfr (Fin 260);
  set3 D key ((ct - ct1) - h * (pt - pt1) - dr * (ct1 - h * pt1))%num.

(** The local array [d_excess_return] of [excess_return] after its
    loops. *)
Definition d_excess_return (n_strikes n_assets n_days : nat)
    (option_prices call_deltas : list (list (list num)))
    (assets : list (list num)) (rfr : num) : res (list (list (list num))) :=
  D ← set_column0 n_days (np_empty3 n_strikes n_assets n_days) (Fin 0);
  for_ (range 0 n_strikes) (fun i D =>
    for_ (range 0 n_assets) (fun j D =>
      for_ (range 1 n_days) (fun k D =>
        excess_cell option_prices call_deltas assets rfr (i, (j, k)) D) D) D) D.

(** [excess_return(option_prices, call_deltas, assets, rfr)]: the sum of
    the daily values of every strike and asset. *)
Definition excess_return (n_strikes n_assets n_days : nat)
    (option_prices call_deltas : list (list (list num)))
    (assets : list (list num)) (rfr : num) : res (list (list num)) :=
  D ← d_excess_return n_strikes n_assets n_days option_prices call_deltas
        assets rfr;
  for_ (range 0 n_strikes) (fun i e_r =>
    for_ (range 0 n_assets) (fun j e_r =>
      row ← get2 D (i, j); set2 e_r (i, j) (np_sum row)) e_r)
    (np_empty2 n_strikes n_assets).

(** [K[i] * (call_deltas / K[i]).round()], on one delta and on the
    array of one volatility. *)
Definition lot_round (lot d : num) : num := (lot * fround (d / lot))%num.

Definition r_deltas (lot : num) (call_deltas : list (list (list num)))
    : list (list (list num)) :=
  map (map (map (lot_round lot))) call_deltas.

(** [presentation.ipynb], cell 59: rows 0..4 of [excess_returns] hedge
    with the deltas of each volatility as they are, rows 5..9 hedge the
    options of [volatilities[2]] with its deltas rounded to the lot
    [K[i]]. *)
Definition excess_returns_cell (n_strikes n_assets n_days : nat)
    (option_prices call_deltas : list (list (list (list num))))
    (assets : list (list num)) (rfr : num) (K : list num)
    : res (list (list (list num))) :=
  E ← for_ (range 0 5) (fun i E =>
         op ← getitem option_prices i;
         cd ← getitem call_deltas i;
         e ← excess_return n_strikes n_assets n_days op cd assets rfr;
         setitem E i e) (np_empty3 10 n_strikes n_assets);
  for_ (range 0 5) (fun i E =>
    lot ← getitem K i;
    let rounded := map (r_deltas lot) call_deltas in
    op ← getitem option_prices 2;
    rd ← getitem rounded 2;
    e ← excess_return n_strikes n_assets n_days op rd assets rfr;
    setitem E (i + 5) e) E.

(** [er_std[i][j]=excess_returns[i][j].std()] *)
Definition er_std (n m : nat) (excess_returns : list (list (list num)))
    : res (list (list num)) :=
  for_ (range 0 n) (fun i s =>
    for_ (range 0 m) (fun j s =>
      row ← get2 excess_returns (i, j); set2 s (i, j) (np_std row)) s)
    (np_empty2 n m).

(** *** The in-the-money summary *)

Definition itm_cell (final_prices strikes : list num) (key : nat * nat)
    (inTheMoney : list (list (list num))) : res (list (list (list num))) :=
  let '(i, p) := key in
  fp ← getitem final_prices p;
  strike ← getitem strikes i;
  if fgtb fp strike then
    M ← set3 inTheMoney (i, (p, 0%nat)) (Fin 1);
    fp ← getitem final_prices p;
    strike ← getitem strikes i;
    set3 M (i, (p, 1%nat)) (fp - strike)%num
  else
    M ← set3 inTheMoney (i, (p, 0%nat)) (Fin 0);
    set3 M (i, (p, 1%nat)) (Fin 0).

Definition inTheMoney (n_strikes n_assets : nat)
    (final_prices strikes : list num) : res (list (list (list num))) :=
  for_ (range 0 n_strikes) (fun i M =>
    for_ (range 0 n_assets) (fun p M =>
      itm_cell final_prices strikes (i, p) M) M)
    (np_empty3 n_strikes n_assets 2).

(** [avg_ITM], [stdev_ITM], [num_ITM] of one strike's rows. *)
Definition avg_ITM (rows : list (list num)) : res num :=
  c1 ← column rows 1; c0 ← column rows 0; mret (np_mean (arr_mul c1 c0)).

Definition stdev_ITM (rows : list (list num)) : res num :=
  c0 ← column rows 0; c1 ← column rows 1; mret (np_std (arr_mul c0 c1)).

Definition num_ITM (rows : list (list num)) : res num :=
  c0 ← column rows 0; mret (np_sum c0).

End Notebook.

(** * Proofs *)

#[global] Arguments py_div : simpl never.
#[global] Arguments fadd : simpl never.
#[global] Arguments fsub : simpl never.
#[global] Arguments fmul : simpl never.
#[global] Arguments fdiv : simpl never.
#[global] Arguments math_log : simpl never.
#[global] Arguments math_sqrt : simpl never.
#[global] Arguments math_exp : simpl never.

(** ** Exceptions and loops *)

Lemma bind_Ok {A B} (f : A -> res B) (a : A) : (Ok a ≫= f) = f a.
Proof. reflexivity. Qed.

Lemma bind_Ok_inv {A B} (f : A -> res B) (m : res A) (b : B) :
  (m ≫= f) = Ok b -> exists a, m = Ok a /\ f a = Ok b.
Proof. destruct m as [a | e]; [eauto | discriminate]. Qed.

Lemma getitem_Ok {A} (l : list A) (i : nat) (x : A) :
  getitem l i = Ok x <-> l !! i = Some x.
Proof.
  unfold getitem. destruct (l !! i); split; intros H; congruence.
Qed.

Lemma getitem_total {A} `{!Inhabited A} (l : list A) (i : nat) :
  (i < length l)%nat -> getitem l i = Ok (l !!! i).
Proof.
  intros Hlt. apply getitem_Ok, list_lookup_lookup_total_lt, Hlt.
Qed.

Lemma setitem_Ok {A} (l : list A) (i : nat) (x : A) :
  (i < length l)%nat -> setitem l i x = Ok (<[i := x]> l).
Proof. intros H. unfold setitem. rewrite decide_True; done. Qed.

Lemma setitem_inv {A} (l l' : list A) (i : nat) (x : A) :
  setitem l i x = Ok l' -> (i < length l)%nat /\ l' = <[i := x]> l.
Proof.
  unfold setitem. case_decide; intros Heq; [split; congruence | discriminate].
Qed.

Lemma elem_of_range (a b i : nat) : i ∈ range a b <-> (a <= i < b)%nat.
Proof. unfold range. rewrite elem_of_seq. lia. Qed.

Lemma for_app {I S} (l1 l2 : list I) (body : I -> S -> res S) (s : S) :
  for_ (l1 ++ l2) body s = (for_ l1 body s ≫= for_ l2 body).
Proof.
  revert s. induction l1 as [| i l1 IH]; intros s; simpl; [reflexivity |].
  destruct (body i s) as [s' | e]; simpl; [apply IH | reflexivity].
Qed.

Lemma for_fmap {I J S} (f : I -> J) (l : list I) (body : J -> S -> res S) (s : S) :
  for_ (f <$> l) body s = for_ l (fun i => body (f i)) s.
Proof.
  revert s. induction l as [| i l IH]; intros s; simpl; [reflexivity |].
  destruct (body (f i) s) as [s' | e]; simpl; [apply IH | reflexivity].
Qed.

(** Nested loops run over the product of their ranges. *)
Lemma for_nest {I J S} (l1 : list I) (l2 : list J)
    (body : I * J -> S -> res S) (s : S) :
  for_ l1 (fun i s => for_ l2 (fun j s => body (i, j) s) s) s
  = for_ (cprod l1 l2) body s.
Proof.
  revert s. induction l1 as [| i l1 IH]; intros s; [reflexivity |].
  change (cprod (i :: l1) l2) with (((i ,.) <$> l2) ++ cprod l1 l2).
  rewrite for_app, for_fmap. simpl.
  destruct (for_ l2 _ s) as [s' | e]; simpl; [apply IH | reflexivity].
Qed.

Lemma for_ext {I S} (l : list I) (body body' : I -> S -> res S) (s : S) :
  (forall i s, i ∈ l -> body i s = body' i s) ->
  for_ l body s = for_ l body' s.
Proof.
  revert s. induction l as [| i l IH]; intros s H; simpl; [reflexivity |].
  rewrite (H i s) by apply list_elem_of_here.
  destruct (body' i s) as [s' | e]; simpl; [| reflexivity].
  apply IH. intros j s0 Hj. apply H. apply list_elem_of_further, Hj.
Qed.

(** The invariant rule of [for i in range(a, b)]. *)
Lemma for_range_inv {S} (Inv : nat -> S -> Prop) (body : nat -> S -> res S)
    (a b : nat) (s : S) :
  (a <= b)%nat ->
  Inv a s ->
  (forall i s, (a <= i < b)%nat -> Inv i s ->
               exists s', body i s = Ok s' /\ Inv (Datatypes.S i) s') ->
  exists s', for_ (range a b) body s = Ok s' /\ Inv b s'.
Proof.
  intros Hab H0 Hstep. unfold range.
  remember (b - a)%nat as n eqn:Hn.
  revert a s Hab H0 Hstep Hn. induction n as [| n IH]; intros a s Hab H0 Hstep Hn.
  - exists s. split; [reflexivity |]. replace b with a by lia. exact H0.
  - simpl. destruct (Hstep a s ltac:(lia) H0) as (s1 & -> & H1). simpl.
    apply IH; [lia | exact H1 | | lia].
    intros i s0 Hi. apply Hstep. lia.
Qed.

(** A loop over two arrays that fills each on its own. *)
Lemma for_pair {I A B} (l : list I) (f : I -> A -> res A) (g : I -> B -> res B)
    (body : I -> A * B -> res (A * B)) (a a' : A) (b b' : B) :
  (forall i a b, i ∈ l ->
     body i (a, b) = (a1 ← f i a; b1 ← g i b; mret (a1, b1))) ->
  for_ l f a = Ok a' -> for_ l g b = Ok b' ->
  for_ l body (a, b) = Ok (a', b').
Proof.
  revert a b. induction l as [| i l IH]; intros a b Hbody Hf Hg; simpl in *.
  - congruence.
  - rewrite Hbody by apply list_elem_of_here.
    apply bind_Ok_inv in Hf as (a1 & -> & Hf).
    apply bind_Ok_inv in Hg as (b1 & -> & Hg). simpl.
    apply IH; [| exact Hf | exact Hg].
    intros j a0 b0 Hj. apply Hbody, list_elem_of_further, Hj.
Qed.

(** ** Arrays as cells *)

(** An array type [S] with keys [K]: reading and writing a cell in bounds
    succeeds, a write is read back and leaves the other cells alone. *)
Record cells {S K V} (wf : S -> Prop) (inb : K -> Prop)
    (getS : S -> K -> res V) (setS : S -> K -> V -> res S) : Prop := {
  cells_get : forall s k, wf s -> inb k -> exists x, getS s k = Ok x;
  cells_set : forall s k x, wf s -> inb k ->
    exists s', setS s k x = Ok s' /\ wf s' /\ getS s' k = Ok x /\
               forall k', k' <> k -> getS s' k' = getS s k'
}.

Lemma cells_list {V} (n : nat) :
  cells (@shape1 V n) (fun i => (i < n)%nat) getitem setitem.
Proof.
  unfold shape1. split.
  - intros l i Hl Hi. destruct (lookup_lt_is_Some_2 l i) as [x Hx]; [lia |].
    exists x. apply getitem_Ok, Hx.
  - intros l i x Hl Hi. exists (<[i := x]> l).
    split; [apply setitem_Ok; lia |].
    split; [rewrite length_insert; exact Hl |].
    split; [apply getitem_Ok, list_lookup_insert_eq; lia |].
    intros j Hj. unfold getitem. rewrite list_lookup_insert_ne by congruence.
    reflexivity.
Qed.

Lemma cells_in {S K V} (wf : S -> Prop) (inb : K -> Prop)
    (getS : S -> K -> res V) (setS : S -> K -> V -> res S) (n : nat) :
  cells wf inb getS setS ->
  cells (fun M => length M = n /\ Forall wf M)
        (fun ik => (ik.1 < n)%nat /\ inb ik.2)
        (get_in getS) (set_in setS).
Proof.
  intros [Hget Hset]. split.
  - intros M [i k] [Hlen Hwf] [Hi Hk]. simpl in *.
    destruct (lookup_lt_is_Some_2 M i) as [r Hr]; [lia |].
    destruct (Hget r k) as [x Hx]; [eapply Forall_lookup_1; eauto | exact Hk |].
    exists x. unfold get_in. simpl.
    rewrite (proj2 (getitem_Ok M i r) Hr). exact Hx.
  - intros M [i k] x [Hlen Hwf] [Hi Hk]. simpl in *.
    destruct (lookup_lt_is_Some_2 M i) as [r Hr]; [lia |].
    destruct (Hset r k x) as (r' & Hr' & Hwf' & Hrd & Hother);
      [eapply Forall_lookup_1; eauto | exact Hk |].
    exists (<[i := r']> M). unfold set_in, get_in. simpl.
    rewrite (proj2 (getitem_Ok M i r) Hr). simpl. rewrite Hr'. simpl.
    split; [apply setitem_Ok; lia |].
    split; [split; [rewrite length_insert; exact Hlen
                   | apply Forall_insert; assumption] |].
    split.
    + rewrite (proj2 (getitem_Ok (<[i := r']> M) i r')); [exact Hrd |].
      apply list_lookup_insert_eq. lia.
    + intros [i' k'] Hne. simpl. unfold getitem.
      destruct (decide (i' = i)) as [-> | Hi'].
      * rewrite list_lookup_insert_eq by lia. rewrite Hr. simpl.
        apply Hother. congruence.
      * rewrite list_lookup_insert_ne by congruence. reflexivity.
Qed.

Lemma cells2 {V} (n m : nat) :
  cells (@shape2 V n m) (fun k => (k.1 < n)%nat /\ (k.2 < m)%nat) get2 set2.
Proof. apply (cells_in _ _ _ _ n (cells_list m)). Qed.

Lemma cells3 {V} (n m p : nat) :
  cells (@shape3 V n m p)
        (fun k => (k.1 < n)%nat /\ (k.2.1 < m)%nat /\ (k.2.2 < p)%nat)
        get3 set3.
Proof. apply (cells_in _ _ _ _ n (cells2 m p)). Qed.

Lemma cells4 {V} (n m p q : nat) :
  cells (@shape4 V n m p q)
        (fun k => (k.1 < n)%nat /\ (k.2.1 < m)%nat /\
                  (k.2.2.1 < p)%nat /\ (k.2.2.2 < q)%nat)
        get4 set4.
Proof. apply (cells_in _ _ _ _ n (cells3 m p q)). Qed.

(** A loop that writes one cell per item: afterwards every written cell
    holds its value and every other cell is as before. *)
Lemma for_fill {I S K V} `{!EqDecision K}
    (wf : S -> Prop) (inb : K -> Prop)
    (getS : S -> K -> res V) (setS : S -> K -> V -> res S)
    (key : I -> K) (val : I -> V) (body : I -> S -> res S)
    (l : list I) (s0 : S) :
  cells wf inb getS setS ->
  wf s0 ->
  (forall a, a ∈ l -> inb (key a)) ->
  (forall a s, a ∈ l -> body a s = setS s (key a) (val a)) ->
  (forall a b, a ∈ l -> b ∈ l -> key a = key b -> val a = val b) ->
  exists s', for_ l body s0 = Ok s' /\ wf s' /\
    (forall a, a ∈ l -> getS s' (key a) = Ok (val a)) /\
    (forall k, (forall a, a ∈ l -> key a <> k) -> getS s' k = getS s0 k).
Proof.
  intros Hcells. revert s0.
  induction l as [| a l IH]; intros s0 Hwf Hinb Hbody Hcons.
  - exists s0. split; [reflexivity |]. split; [exact Hwf |].
    split; [intros a Ha; inversion Ha | reflexivity].
  - simpl. rewrite Hbody by apply list_elem_of_here.
    destruct (cells_set _ _ _ _ Hcells s0 (key a) (val a) Hwf)
      as (s1 & -> & Hwf1 & Hrd1 & Hother1); [apply Hinb, list_elem_of_here |].
    simpl.
    destruct (IH s1 Hwf1) as (s' & Hfor & Hwf' & Hin & Hout).
    { intros b Hb. apply Hinb, list_elem_of_further, Hb. }
    { intros b s Hb. apply Hbody, list_elem_of_further, Hb. }
    { intros b c Hb Hc. apply Hcons; apply list_elem_of_further; assumption. }
    exists s'. split; [exact Hfor |]. split; [exact Hwf' |]. split.
    + intros b Hb. apply elem_of_cons in Hb as [-> | Hb]; [| apply Hin, Hb].
      destruct (decide (key a ∈ key <$> l)) as [Hmem | Hmem].
      * apply list_elem_of_fmap in Hmem as (c & Hkc & Hc).
        rewrite Hkc, (Hcons a c); [apply Hin, Hc | apply list_elem_of_here
                                   | apply list_elem_of_further, Hc | exact Hkc].
      * rewrite Hout; [exact Hrd1 |].
        intros c Hc Heq. apply Hmem. rewrite <- Heq.
        apply list_elem_of_fmap. exists c. split; [reflexivity | exact Hc].
    + intros k Hk. rewrite Hout.
      * apply Hother1. intros ->. apply (Hk a); [apply list_elem_of_here | reflexivity].
      * intros c Hc. apply Hk, list_elem_of_further, Hc.
Qed.

(** Reads in bounds, as total lookups. *)
Lemma shape2_row {V} (n m : nat) (M : list (list V)) (i : nat) (r : list V) :
  shape2 n m M -> M !! i = Some r -> length r = m.
Proof. intros [_ H] Hr. exact (Forall_lookup_1 _ _ _ _ H Hr). Qed.

Lemma shape3_row {V} (n m p : nat) (M : list (list (list V))) (i : nat) r :
  shape3 n m p M -> M !! i = Some r -> shape2 m p r.
Proof. intros [_ H] Hr. exact (Forall_lookup_1 _ _ _ _ H Hr). Qed.

Lemma shape4_row {V} (n m p q : nat) (M : list (list (list (list V)))) (i : nat) r :
  shape4 n m p q M -> M !! i = Some r -> shape3 m p q r.
Proof. intros [_ H] Hr. exact (Forall_lookup_1 _ _ _ _ H Hr). Qed.

Lemma shape2_total {V} `{!Inhabited V} (n m : nat) (M : list (list V)) (i : nat) :
  shape2 n m M -> (i < n)%nat -> length (M !!! i) = m.
Proof.
  intros HM Hi. apply (shape2_row n m M i); [exact HM |].
  apply list_lookup_lookup_total_lt. destruct HM as [-> _]. exact Hi.
Qed.

Lemma shape3_total {V} `{!Inhabited V} (n m p : nat) (M : list (list (list V))) i :
  shape3 n m p M -> (i < n)%nat -> shape2 m p (M !!! i).
Proof.
  intros HM Hi. apply (shape3_row n m p M i); [exact HM |].
  apply list_lookup_lookup_total_lt. destruct HM as [-> _]. exact Hi.
Qed.

Lemma shape4_total {V} `{!Inhabited V} (n m p q : nat)
    (M : list (list (list (list V)))) i :
  shape4 n m p q M -> (i < n)%nat -> shape3 m p q (M !!! i).
Proof.
  intros HM Hi. apply (shape4_row n m p q M i); [exact HM |].
  apply list_lookup_lookup_total_lt. destruct HM as [-> _]. exact Hi.
Qed.

Lemma get2_total {V} `{!Inhabited V} (n m : nat) (M : list (list V)) (i j : nat) :
  shape2 n m M -> (i < n)%nat -> (j < m)%nat ->
  get2 M (i, j) = Ok ((M !!! i) !!! j).
Proof.
  intros HM Hi Hj. unfold get2, get_in. simpl.
  rewrite getitem_total by (destruct HM as [-> _]; exact Hi). simpl.
  apply getitem_total. rewrite (shape2_total n m M i HM Hi). exact Hj.
Qed.

Lemma get3_total {V} `{!Inhabited V} (n m p : nat) (M : list (list (list V)))
    (i j k : nat) :
  shape3 n m p M -> (i < n)%nat -> (j < m)%nat -> (k < p)%nat ->
  get3 M (i, (j, k)) = Ok (((M !!! i) !!! j) !!! k).
Proof.
  intros HM Hi Hj Hk. unfold get3, get_in. simpl.
  rewrite getitem_total by (destruct HM as [-> _]; exact Hi). simpl.
  apply (get2_total m p); [apply (shape3_total n), Hi; exact HM | exact Hj | exact Hk].
Qed.

Lemma get4_total {V} `{!Inhabited V} (n m p q : nat)
    (M : list (list (list (list V)))) (i j k l : nat) :
  shape4 n m p q M -> (i < n)%nat -> (j < m)%nat -> (k < p)%nat -> (l < q)%nat ->
  get4 M (i, (j, (k, l))) = Ok ((((M !!! i) !!! j) !!! k) !!! l).
Proof.
  intros HM Hi Hj Hk Hl. unfold get4, get_in. simpl.
  rewrite getitem_total by (destruct HM as [-> _]; exact Hi). simpl.
  apply (get3_total m p q); [apply (shape4_total n), Hi; exact HM | assumption ..].
Qed.

Lemma get2_Ok_total {V} `{!Inhabited V} (n m : nat) (M : list (list V)) i j x :
  shape2 n m M -> (i < n)%nat -> (j < m)%nat ->
  get2 M (i, j) = Ok x -> (M !!! i) !!! j = x.
Proof.
  intros HM Hi Hj Hx. rewrite (get2_total n m) in Hx by assumption. congruence.
Qed.

Lemma get3_Ok_total {V} `{!Inhabited V} (n m p : nat) (M : list (list (list V)))
    i j k x :
  shape3 n m p M -> (i < n)%nat -> (j < m)%nat -> (k < p)%nat ->
  get3 M (i, (j, k)) = Ok x -> ((M !!! i) !!! j) !!! k = x.
Proof.
  intros HM Hi Hj Hk Hx. rewrite (get3_total n m p) in Hx by assumption.
  congruence.
Qed.

Lemma get4_Ok_total {V} `{!Inhabited V} (n m p q : nat)
    (M : list (list (list (list V)))) i j k l x :
  shape4 n m p q M ->
  (i < n)%nat -> (j < m)%nat -> (k < p)%nat -> (l < q)%nat ->
  get4 M (i, (j, (k, l))) = Ok x -> (((M !!! i) !!! j) !!! k) !!! l = x.
Proof.
  intros HM Hi Hj Hk Hl Hx. rewrite (get4_total n m p q) in Hx by assumption.
  congruence.
Qed.

(** Fresh arrays have their shape. *)
Section Empty.
Variable junk : nat -> num.

Lemma np_empty_shape (n : nat) : shape1 n (np_empty junk n).
Proof. unfold shape1, np_empty. rewrite length_map, length_seq. reflexivity. Qed.

Lemma np_empty2_shape (n m : nat) : shape2 n m (np_empty2 junk n m).
Proof.
  split; [apply length_replicate |].
  apply Forall_replicate, np_empty_shape.
Qed.

Lemma np_empty3_shape (n m p : nat) : shape3 n m p (np_empty3 junk n m p).
Proof.
  split; [apply length_replicate |].
  apply Forall_replicate, np_empty2_shape.
Qed.

Lemma np_empty4_shape (n m p q : nat) : shape4 n m p q (np_empty4 junk n m p q).
Proof.
  split; [apply length_replicate |].
  apply Forall_replicate, np_empty3_shape.
Qed.
End Empty.

Lemma py_div_260 (a : num) : py_div a (Fin 260) = Ok (a / Fin 260)%num.
Proof. unfold py_div. destruct (Req_dec_T 260 0); [lra | reflexivity]. Qed.

(** ** The hedge simulator *)

(** The daily excess return as the paper states it, on the series of one
    path: [C] the option prices, [h] the hedge ratios, [P] the prices of
    the asset, [r] the daily rate. *)
Definition er_formula (C h P : list num) (r : num) (t : nat) : num :=
  ((C !!! t - C !!! (t - 1)%nat)
   - h !!! (t - 1)%nat * (P !!! t - P !!! (t - 1)%nat)
   - r * (C !!! (t - 1)%nat - h !!! (t - 1)%nat * P !!! (t - 1)%nat))%num.

Lemma set_column0_spec (n m p : nat) (D : list (list (list num))) (x : num) :
  shape3 n m p D -> (0 < p)%nat ->
  exists D', set_column0 p D x = Ok D' /\ shape3 n m p D' /\
    forall i j, (i < n)%nat -> (j < m)%nat -> get3 D' (i, (j, 0%nat)) = Ok x.
Proof.
  intros HD Hp. unfold set_column0. rewrite decide_True by exact Hp.
  eexists. split; [reflexivity |].
  assert (Hshape : shape3 n m p (map (map (<[0%nat := x]>)) D)).
  { destruct HD as [Hn HD]. split; [rewrite length_map; exact Hn |].
    apply Forall_fmap. eapply Forall_impl; [exact HD |].
    intros r [Hm Hr]. split; [rewrite length_map; exact Hm |].
    apply Forall_fmap. eapply Forall_impl; [exact Hr |].
    intros l Hl. unfold shape1 in *. simpl. rewrite length_insert. exact Hl. }
  split; [exact Hshape |].
  intros i j Hi Hj.
  rewrite (get3_total n m p) by assumption. f_equal.
  destruct HD as [Hn HD].
  destruct (lookup_lt_is_Some_2 D i) as [r Hr]; [lia |].
  pose proof (Forall_lookup_1 _ _ _ _ HD Hr) as [Hm Hrows].
  destruct (lookup_lt_is_Some_2 r j) as [l Hl]; [lia |].
  pose proof (Forall_lookup_1 _ _ _ _ Hrows Hl) as Hlen. unfold shape1 in Hlen.
  erewrite (list_lookup_total_correct (map _ D) i);
    [| rewrite list_lookup_fmap, Hr; reflexivity].
  erewrite (list_lookup_total_correct (map _ r) j);
    [| rewrite list_lookup_fmap, Hl; reflexivity].
  apply list_lookup_total_correct, list_lookup_insert_eq. lia.
Qed.

Section Hedge.
Variable junk : nat -> num.
Variables n_strikes n_assets n_days : nat.
Variables option_prices call_deltas : list (list (list num)).
Variable assets : list (list num).
Variable rfr : num.
Hypothesis Hop : shape3 n_strikes n_assets n_days option_prices.
Hypothesis Hcd : shape3 n_strikes n_assets n_days call_deltas.
Hypothesis Has : shape2 n_assets n_days assets.

(** The value the innermost statement stores at [key]. *)
Definition excess_val (key : nat * (nat * nat)) : num :=
  er_formula ((option_prices !!! key.1) !!! key.2.1)
             ((call_deltas !!! key.1) !!! key.2.1)
             (assets !!! key.2.1) (rfr / Fin 260) key.2.2.

Definition excess_keys : list (nat * (nat * nat)) :=
  cprod (range 0 n_strikes) (cprod (range 0 n_assets) (range 1 n_days)).

Lemma elem_of_excess_keys (key : nat * (nat * nat)) :
  key ∈ excess_keys <->
  (key.1 < n_strikes)%nat /\ (key.2.1 < n_assets)%nat /\
  (1 <= key.2.2 < n_days)%nat.
Proof.
  unfold excess_keys. rewrite !list_elem_of_cprod, !elem_of_range. lia.
Qed.

Lemma excess_cell_write (key : nat * (nat * nat)) (D : list (list (list num))) :
  key ∈ excess_keys ->
  excess_cell option_prices call_deltas assets rfr key D
  = set3 D key (excess_val key).
Proof using Hop Hcd Has.
  destruct key as [i [j k]]. rewrite elem_of_excess_keys. simpl.
  intros (Hi & Hj & Hk). unfold excess_cell.
  rewrite !(get3_total n_strikes n_assets n_days) by (assumption || lia).
  simpl. rewrite !(get2_total n_assets n_days) by (assumption || lia).
  simpl. rewrite py_div_260. reflexivity.
Qed.

(** The array [d_excess_return] after the loops of [excess_return]. *)
Lemma d_excess_return_cells :
  (0 < n_days)%nat ->
  exists D,
    d_excess_return junk n_strikes n_assets n_days option_prices call_deltas
      assets rfr = Ok D /\
    shape3 n_strikes n_assets n_days D /\
    forall i j, (i < n_strikes)%nat -> (j < n_assets)%nat ->
      ((D !!! i) !!! j) !!! 0%nat = Fin 0 /\
      forall t, (1 <= t < n_days)%nat ->
        ((D !!! i) !!! j) !!! t = excess_val (i, (j, t)).
Proof using Hop Hcd Has.
  intros Hd. unfold d_excess_return.
  destruct (set_column0_spec n_strikes n_assets n_days
              (np_empty3 junk n_strikes n_assets n_days) (Fin 0)
              (np_empty3_shape junk _ _ _) Hd) as (D1 & -> & HD1 & Hcol).
  simpl.
  rewrite (for_ext _ _ (fun i D => for_ (cprod (range 0 n_assets) (range 1 n_days))
             (fun jk D => excess_cell option_prices call_deltas assets rfr
                            (i, jk) D) D)).
  2:{ intros i s _.
      apply (for_nest (range 0 n_assets) (range 1 n_days)
               (fun jk D => excess_cell option_prices call_deltas assets rfr
                              (i, jk) D)). }
  rewrite (for_nest (range 0 n_strikes) (cprod (range 0 n_assets) (range 1 n_days))
             (excess_cell option_prices call_deltas assets rfr)).
  fold excess_keys.
  destruct (for_fill _ _ _ _ (fun key => key) excess_val
              (excess_cell option_prices call_deltas assets rfr)
              excess_keys D1 (cells3 n_strikes n_assets n_days) HD1)
    as (D & HD & Hshape & Hin & Hout).
  { intros key Hkey. apply elem_of_excess_keys in Hkey. simpl. lia. }
  { intros key s Hkey. apply excess_cell_write, Hkey. }
  { intros a b _ _ ->. reflexivity. }
  exists D. split; [exact HD |]. split; [exact Hshape |].
  intros i j Hi Hj. split.
  - apply (get3_Ok_total n_strikes n_assets n_days); try assumption.
    rewrite Hout; [apply Hcol; assumption |].
    intros key Hkey ->. apply elem_of_excess_keys in Hkey. simpl in Hkey. lia.
  - intros t Ht.
    apply (get3_Ok_total n_strikes n_assets n_days); try assumption; [lia |].
    apply (Hin (i, (j, t))). apply elem_of_excess_keys. simpl. lia.
Qed.

(** The sums [excess_return] returns. *)
Lemma excess_return_sums :
  (0 < n_days)%nat ->
  exists D e_r,
    d_excess_return junk n_strikes n_assets n_days option_prices call_deltas
      assets rfr = Ok D /\
    excess_return junk n_strikes n_assets n_days option_prices call_deltas
      assets rfr = Ok e_r /\
    shape2 n_strikes n_assets e_r /\
    forall i j, (i < n_strikes)%nat -> (j < n_assets)%nat ->
      (e_r !!! i) !!! j = np_sum ((D !!! i) !!! j).
Proof using Hop Hcd Has.
  intros Hd. destruct (d_excess_return_cells Hd) as (D & HD & Hshape & _).
  exists D. unfold excess_return. rewrite HD. simpl.
  rewrite (for_nest (range 0 n_strikes) (range 0 n_assets)
             (fun ij e_r => row ← get2 D ij; set2 e_r ij (np_sum row))).
  destruct (for_fill _ _ _ _ (fun ij => ij)
              (fun ij : nat * nat => np_sum ((D !!! ij.1) !!! ij.2))
              (fun ij e_r => row ← get2 D ij; set2 e_r ij (np_sum row))
              (cprod (range 0 n_strikes) (range 0 n_assets))
              (np_empty2 junk n_strikes n_assets)
              (cells2 n_strikes n_assets) (np_empty2_shape junk _ _))
    as (e_r & He & Hes & Hin & _).
  { intros [i j]. rewrite list_elem_of_cprod, !elem_of_range. simpl. lia. }
  { intros [i j] s. rewrite list_elem_of_cprod, !elem_of_range. simpl.
    intros [Hi Hj]. destruct Hshape as [Hn Hrows].
    rewrite (get2_total n_strikes n_assets D i j); [reflexivity | | lia | lia].
    split; [exact Hn |]. eapply Forall_impl; [exact Hrows |].
    intros r [Hr _]. exact Hr. }
  { intros a b _ _ ->. reflexivity. }
  exists e_r. split; [reflexivity |]. split; [exact He |].
  split; [exact Hes |]. intros i j Hi Hj.
  apply (get2_Ok_total n_strikes n_assets); try assumption.
  apply (Hin (i, j)). rewrite list_elem_of_cprod, !elem_of_range. simpl. lia.
Qed.
End Hedge.

(** ** Arithmetic of finite numbers *)

Lemma fadd_Fin (x y : R) : (Fin x + Fin y)%num = Fin (x + y).
Proof. reflexivity. Qed.

Lemma fsub_Fin (x y : R) : (Fin x - Fin y)%num = Fin (x - y).
Proof. reflexivity. Qed.

Lemma fmul_Fin (x y : R) : (Fin x * Fin y)%num = Fin (x * y).
Proof. reflexivity. Qed.

Lemma fneg_Fin (x : R) : (- Fin x)%num = Fin (- x).
Proof. reflexivity. Qed.

Lemma fpow2_Fin (x : R) : fpow2 (Fin x) = Fin (x * x).
Proof. reflexivity. Qed.

Lemma fdiv_Fin (x y : R) : y <> 0 -> (Fin x / Fin y)%num = Fin (x / y).
Proof. intros Hy. unfold fdiv. destruct (Req_dec_T y 0); [contradiction | reflexivity]. Qed.

Lemma fdiv_zero (x y : R) : y = 0 -> (Fin x / Fin y)%num = inf_scaled true x.
Proof. intros Hy. unfold fdiv. destruct (Req_dec_T y 0); [reflexivity | contradiction]. Qed.

Lemma inf_scaled_pos (b : bool) (x : R) :
  0 < x -> inf_scaled b x = if b then PInf else NInf.
Proof. intros Hx. unfold inf_scaled. destruct (Rlt_dec 0 x); [reflexivity | contradiction]. Qed.

Lemma inf_scaled_neg (b : bool) (x : R) :
  x < 0 -> inf_scaled b x = if b then NInf else PInf.
Proof.
  intros Hx. unfold inf_scaled.
  destruct (Rlt_dec 0 x); [lra |]. destruct (Rlt_dec x 0); [reflexivity | contradiction].
Qed.

Lemma inf_scaled_zero (b : bool) (x : R) : x = 0 -> inf_scaled b x = NaN.
Proof.
  intros ->. unfold inf_scaled.
  destruct (Rlt_dec 0 0); [lra |]. destruct (Rlt_dec 0 0); [lra | reflexivity].
Qed.

Lemma np_log_Fin (x : R) : 0 < x -> np_log (Fin x) = Fin (ln x).
Proof. intros Hx. unfold np_log. destruct (Rlt_dec 0 x); [reflexivity | contradiction]. Qed.

Lemma np_sqrt_Fin (x : R) : 0 <= x -> np_sqrt (Fin x) = Fin (sqrt x).
Proof. intros Hx. unfold np_sqrt. destruct (Rlt_dec x 0); [lra | reflexivity]. Qed.

Lemma math_log_Fin (x : R) : 0 < x -> math_log (Fin x) = Ok (Fin (ln x)).
Proof. intros Hx. unfold math_log. destruct (Rlt_dec 0 x); [reflexivity | contradiction]. Qed.

Lemma math_sqrt_Fin (x : R) : 0 <= x -> math_sqrt (Fin x) = Ok (Fin (sqrt x)).
Proof. intros Hx. unfold math_sqrt. destruct (Rlt_dec x 0); [lra | reflexivity]. Qed.

Lemma py_div_Fin (x y : R) : y <> 0 -> py_div (Fin x) (Fin y) = Ok (Fin (x / y)).
Proof.
  intros Hy. unfold py_div. destruct (Req_dec_T y 0); [contradiction |].
  rewrite fdiv_Fin by exact Hy. reflexivity.
Qed.

Lemma fgtb_Fin (x y : R) : fgtb (Fin x) (Fin y) = true <-> y < x.
Proof. simpl. destruct (Rlt_dec y x); split; intros; (done || lra). Qed.

(** The special values behave as numpy's: [1/0 = inf], [-1/0 = -inf],
    [0/0 = nan], [0*inf = nan], [inf - inf = nan], [log(0) = -inf]. *)
Example fdiv_one_zero : (Fin 1 / Fin 0)%num = PInf.
Proof. rewrite fdiv_zero by reflexivity. apply inf_scaled_pos. lra. Qed.

Example fdiv_minus_one_zero : (Fin (-1) / Fin 0)%num = NInf.
Proof. rewrite fdiv_zero by reflexivity. apply inf_scaled_neg. lra. Qed.

Example fdiv_zero_zero : (Fin 0 / Fin 0)%num = NaN.
Proof. rewrite fdiv_zero by reflexivity. apply inf_scaled_zero. reflexivity. Qed.

Example fmul_zero_inf : (Fin 0 * PInf)%num = NaN.
Proof. unfold fmul. apply inf_scaled_zero. reflexivity. Qed.

Example fsub_inf_inf : (PInf - PInf)%num = NaN.
Proof. reflexivity. Qed.

Example np_log_zero : np_log (Fin 0) = NInf.
Proof.
  unfold np_log. destruct (Rlt_dec 0 0); [lra |].
  destruct (Rlt_dec 0 0); [lra | reflexivity].
Qed.

(** The order of the additions of [np.sum] does not matter. *)
Lemma fadd_comm (a b : num) : (a + b)%num = (b + a)%num.
Proof. destruct a, b; try reflexivity. unfold fadd. f_equal. ring. Qed.

Lemma fadd_assoc (a b c : num) : (a + (b + c))%num = (a + b + c)%num.
Proof. destruct a, b, c; try reflexivity. unfold fadd. f_equal. ring. Qed.

(** ** The standard normal distribution *)




Lemma norm_cdf_R_0 : norm_cdf_R 0 = 1 / 2.
Proof. unfold norm_cdf_R. rewrite RiemannInt_P9. lra. Qed.


(** ** The pricer *)

(** On finite arguments in the domain, [bscall] is the formula over the
    reals. *)
Lemma bscall_finite (S K r v q T : R) :
  0 < S -> 0 < K -> 0 < v -> 0 < T ->
  bscall (Fin S) (Fin K) (Fin r) (Fin v) (Fin q) (Fin T)
  = (Fin (bs_call S K r q T v), Fin (norm_cdf_R (bs_d1 S K r q T v))).
Proof.
  intros HS HK Hv HT.
  assert (Hs : 0 < sqrt T) by (apply sqrt_lt_R0; exact HT).
  unfold bscall, bs_call, bs_d2, bs_d1.
  rewrite (fdiv_Fin S K) by lra.
  rewrite np_log_Fin by (apply Rdiv_lt_0_compat; assumption).
  rewrite np_sqrt_Fin by lra.
  rewrite fpow2_Fin, (fdiv_Fin (v * v) 2) by lra.
  rewrite !fneg_Fin, !fsub_Fin, !fadd_Fin, !fmul_Fin, !fadd_Fin.
  rewrite fdiv_Fin by nra.
  reflexivity.
Qed.

(** At [T = 0] the divisor [vol*sqrt(T)] of [d1] is zero: [d1] is an
    infinity with the sign of [ln(S/K)], or [nan] at the money. *)
Lemma bscall_expiry_above (S K r v q : R) :
  0 < K -> K < S -> 0 < v ->
  bscall (Fin S) (Fin K) (Fin r) (Fin v) (Fin q) (Fin 0)
  = (Fin (S - K), Fin 1).
Proof.
  intros HK HS Hv. unfold bscall.
  rewrite (fdiv_Fin S K) by lra.
  rewrite np_log_Fin by (apply Rdiv_lt_0_compat; lra).
  rewrite np_sqrt_Fin, sqrt_0 by lra.
  rewrite fpow2_Fin, (fdiv_Fin (v * v) 2) by lra.
  rewrite !fneg_Fin, !fsub_Fin, !fadd_Fin, !fmul_Fin, !fadd_Fin.
  rewrite fdiv_zero by ring.
  rewrite inf_scaled_pos.
  2:{ rewrite Rmult_0_r, Rplus_0_r. rewrite <- ln_1. apply ln_increasing; [lra |].
      apply (Rmult_lt_reg_r K); [lra |]. unfold Rdiv.
      rewrite Rmult_assoc, Rinv_l by lra. lra. }
  unfold np_exp, norm_cdf, fsub, fneg, fadd, fmul. rewrite !Rmult_0_r, ?exp_0.
  do 2 f_equal. ring.
Qed.

Lemma bscall_expiry_below (S K r v q : R) :
  0 < S -> S < K -> 0 < v ->
  bscall (Fin S) (Fin K) (Fin r) (Fin v) (Fin q) (Fin 0)
  = (Fin 0, Fin 0).
Proof.
  intros HS HK Hv. unfold bscall.
  rewrite (fdiv_Fin S K) by lra.
  rewrite np_log_Fin by (apply Rdiv_lt_0_compat; lra).
  rewrite np_sqrt_Fin, sqrt_0 by lra.
  rewrite fpow2_Fin, (fdiv_Fin (v * v) 2) by lra.
  rewrite !fneg_Fin, !fsub_Fin, !fadd_Fin, !fmul_Fin, !fadd_Fin.
  rewrite fdiv_zero by ring.
  rewrite inf_scaled_neg.
  2:{ rewrite Rmult_0_r, Rplus_0_r. rewrite <- ln_1. apply ln_increasing.
      - apply Rdiv_lt_0_compat; lra.
      - apply (Rmult_lt_reg_r K); [lra |]. unfold Rdiv.
        rewrite Rmult_assoc, Rinv_l by lra. lra. }
  unfold np_exp, norm_cdf, fsub, fneg, fadd, fmul. rewrite !Rmult_0_r, ?exp_0.
  do 2 f_equal. ring.
Qed.

Lemma bscall_expiry_at (S r v q : R) :
  0 < S ->
  bscall (Fin S) (Fin S) (Fin r) (Fin v) (Fin q) (Fin 0) = (NaN, NaN).
Proof.
  intros HS. unfold bscall.
  rewrite (fdiv_Fin S S) by lra.
  rewrite np_log_Fin by (apply Rdiv_lt_0_compat; lra).
  rewrite np_sqrt_Fin, sqrt_0 by lra.
  rewrite fpow2_Fin, (fdiv_Fin (v * v) 2) by lra.
  rewrite !fneg_Fin, !fsub_Fin, !fadd_Fin, !fmul_Fin, !fadd_Fin.
  rewrite fdiv_zero by ring.
  rewrite inf_scaled_zero.
  2:{ unfold Rdiv. rewrite Rinv_r, ln_1 by lra. ring. }
  reflexivity.
Qed.

(** ** Vega *)

Section Derivatives.
Implicit Types f g : R -> R.








End Derivatives.






(** ** The pricer at the ends of binary64 *)






















(** ** The path generator *)

(** The daily drift and volatility as reals, for the annual figure [a]. *)
Definition R_real (a : R) : R := ln (1 + a) / 260.
Definition v_real (a : R) : R := a / sqrt 260.

Lemma R_daily_val (a : R) : -1 < a -> R_daily (Fin a) = Ok (Fin (R_real a)).
Proof.
  intros Ha. unfold R_daily. rewrite fadd_Fin, math_log_Fin by lra. simpl.
  apply py_div_Fin. lra.
Qed.

(** With [ar <= -1] the cell stops at [log(1+ar)]. *)
Lemma R_daily_raises (a : R) : a <= -1 -> R_daily (Fin a) = Raise ValueError.
Proof.
  intros Ha. unfold R_daily, math_log. rewrite fadd_Fin.
  destruct (Rlt_dec 0 (1 + a)); [lra | reflexivity].
Qed.

Lemma v_daily_val (a : R) : v_daily (Fin a) = Ok (Fin (v_real a)).
Proof.
  unfold v_daily. rewrite math_sqrt_Fin by lra. simpl.
  apply py_div_Fin. apply Rgt_not_eq, sqrt_lt_R0. lra.
Qed.

Lemma annualize_val : annualize = Ok (Fin (sqrt (260 / 24))).
Proof.
  unfold annualize. rewrite py_div_Fin by lra. simpl.
  apply math_sqrt_Fin. lra.
Qed.

(** A generated path of [n_days] prices whose first draw is number [off]
    of the stream [g]. *)
Definition path_ok (a : R) (n_days : nat) (g : rng) (off : nat)
    (price : list num) : Prop :=
  length price = n_days /\
  price !! 0%nat = Some (Fin 100) /\
  (forall t, (t < n_days)%nat -> exists x, price !! t = Some (Fin x) /\ 0 < x) /\
  (forall t, (1 <= t < n_days)%nat ->
     exists x, price !! (t - 1)%nat = Some (Fin x) /\
       price !! t
       = Some (Fin (x * exp (R_real a + v_real a * g (off + (t - 1))%nat)))).

(** The variable [dr] after the day loop: the scalar of the last day. *)
Definition dr_ok (n_days : nat) (price : list num) (dr : pyval) : Prop :=
  exists x y, price !! (n_days - 1)%nat = Some (Fin x) /\
              price !! (n_days - 2)%nat = Some (Fin y) /\
              dr = Scal (Fin (ln (x / y))).

Lemma day_loop (a : R) (n_days : nat) (price0 : list num) (dr0 : pyval)
    (g0 : rng) :
  (1 <= n_days)%nat -> length price0 = n_days ->
  price0 !! 0%nat = Some (Fin 100) ->
  exists price dr g,
    for_ (range 1 n_days) (day_step (Fin (R_real a)) (Fin (v_real a)))
      (price0, dr0, g0)
    = Ok (price, dr, g) /\
    path_ok a n_days g0 0 price /\
    (forall n, g n = g0 (n + (n_days - 1))%nat) /\
    (n_days = 1%nat -> dr = dr0) /\
    ((2 <= n_days)%nat -> dr_ok n_days price dr).
Proof.
  intros Hn Hlen H0.
  set (Inv := fun (t : nat) (s : list num * pyval * rng) =>
    let '(price, dr, g) := s in
    length price = n_days /\
    price !! 0%nat = Some (Fin 100) /\
    (forall k, (k < t)%nat -> exists x, price !! k = Some (Fin x) /\ 0 < x) /\
    (forall k, (1 <= k < t)%nat ->
       exists x, price !! (k - 1)%nat = Some (Fin x) /\
         price !! k
         = Some (Fin (x * exp (R_real a + v_real a * g0 (0 + (k - 1))%nat)))) /\
    (forall n, g n = g0 (n + (t - 1))%nat) /\
    (t = 1%nat -> dr = dr0) /\
    ((2 <= t)%nat -> dr_ok t price dr)).
  destruct (for_range_inv Inv (day_step (Fin (R_real a)) (Fin (v_real a)))
              1 n_days (price0, dr0, g0) Hn) as ([[price dr] g] & Hfor & HInv).
  - simpl. split; [exact Hlen |]. split; [exact H0 |].
    split; [intros k Hk; replace k with 0%nat by lia; exists 100; split; [exact H0 | lra] |].
    split; [intros k Hk; lia |].
    split; [intros n; f_equal; lia |].
    split; [reflexivity | intros; lia].
  - intros t [[price dr] g] Ht (Hl & Hp0 & Hpos & Hrec & Hg & _ & Hdr).
    destruct (Hpos (t - 1)%nat ltac:(lia)) as (x & Hx & Hxpos).
    set (e := exp (R_real a + v_real a * g 0%nat)).
    assert (He : 0 < e) by apply exp_pos.
    exists (<[t := Fin (x * e)]> price, Scal (Fin (ln (x * e / x))), fun n => g (S n)).
    assert (Hnew : <[t := Fin (x * e)]> price !! t = Some (Fin (x * e)))
      by (apply list_lookup_insert_eq; lia).
    assert (Hold : forall k, (k < t)%nat ->
                     <[t := Fin (x * e)]> price !! k = price !! k)
      by (intros k Hk; apply list_lookup_insert_ne; lia).
    split.
    + unfold day_step, np_random_normal.
      rewrite (proj2 (getitem_Ok price (t - 1) (Fin x)) Hx). simpl.
      rewrite fmul_Fin, setitem_Ok by lia. simpl. fold e.
      rewrite (proj2 (getitem_Ok _ t (Fin (x * e))) Hnew). simpl.
      rewrite (proj2 (getitem_Ok _ (t - 1) (Fin x)));
        [| rewrite Hold by lia; exact Hx]. simpl.
      rewrite fdiv_Fin by lra. rewrite math_log_Fin; [reflexivity |].
      apply Rdiv_lt_0_compat; nra.
    + simpl. split; [rewrite length_insert; exact Hl |].
      split; [rewrite Hold by lia; exact Hp0 |].
      split.
      { intros k Hk. destruct (decide (k = t)) as [-> | Hne].
        - exists (x * e). split; [exact Hnew | nra].
        - rewrite Hold by lia. apply Hpos. lia. }
      split.
      { intros k Hk. destruct (decide (k = t)) as [-> | Hne].
        - exists x. rewrite Hold by lia. split; [exact Hx |].
          rewrite Hnew. unfold e. rewrite Hg. reflexivity.
        - rewrite !Hold by lia. apply Hrec. lia. }
      split; [intros n; rewrite Hg; f_equal; lia |].
      split; [intros; lia |].
      intros _. exists (x * e), x.
      replace (S t - 1)%nat with t by lia. replace (S t - 2)%nat with (t - 1)%nat by lia.
      split; [exact Hnew |]. split; [rewrite Hold by lia; exact Hx | reflexivity].
  - exists price, dr, g. split; [exact Hfor |].
    destruct HInv as (Hl & Hp0 & Hpos & Hrec & Hg & Hdr1 & Hdr2).
    split; [| split; [exact Hg | split; [exact Hdr1 | exact Hdr2]]].
    split; [exact Hl |]. split; [exact Hp0 |]. split; [exact Hpos | exact Hrec].
Qed.

Lemma path_ok_shift (a : R) (n_days : nat) (g g0 : rng) (off : nat)
    (price : list num) :
  (forall n, g n = g0 (n + off)%nat) ->
  path_ok a n_days g 0 price -> path_ok a n_days g0 off price.
Proof.
  intros Hg (Hl & H0 & Hpos & Hrec).
  split; [exact Hl |]. split; [exact H0 |]. split; [exact Hpos |].
  intros t Ht. destruct (Hrec t Ht) as (x & Hx & Hxt).
  exists x. split; [exact Hx |]. rewrite Hxt, Hg.
  replace (0 + (t - 1) + off)%nat with (off + (t - 1))%nat by lia. reflexivity.
Qed.

Lemma shape2_insert {V} (n m : nat) (M : list (list V)) (i : nat) (r : list V) :
  shape2 n m M -> length r = m -> shape2 n m (<[i := r]> M).
Proof.
  intros [Hn HM] Hr. split; [rewrite length_insert; exact Hn |].
  apply Forall_insert; assumption.
Qed.

(** What the generator cell leaves in [assets] and [daily_returns]. *)
Lemma simulate_spec (junk : nat -> num) (a : R) (n_assets n_days : nat)
    (g0 : rng) :
  -1 < a -> (1 <= n_days)%nat ->
  exists assets daily_returns g,
    simulate junk (Fin a) n_assets n_days g0 = Ok (assets, daily_returns, g) /\
    shape2 n_assets n_days assets /\
    shape2 n_assets n_days daily_returns /\
    (forall n, g n = g0 (n + n_assets * (n_days - 1))%nat) /\
    forall i, (i < n_assets)%nat ->
      exists price, assets !! i = Some price /\
        path_ok a n_days g0 (i * (n_days - 1)) price /\
        ((2 <= n_days)%nat ->
           exists x y, price !! (n_days - 1)%nat = Some (Fin x) /\
                       price !! (n_days - 2)%nat = Some (Fin y) /\
                       daily_returns !! i
                       = Some (replicate n_days (Fin (ln (x / y))))).
Proof.
  intros Ha Hn. unfold simulate. rewrite R_daily_val, v_daily_val by exact Ha.
  simpl.
  set (Inv := fun (i : nat) (s : list (list num) * list (list num) * rng) =>
    let '(A, DR, g) := s in
    shape2 n_assets n_days A /\ shape2 n_assets n_days DR /\
    (forall n, g n = g0 (n + i * (n_days - 1))%nat) /\
    forall k, (k < i)%nat ->
      exists price, A !! k = Some price /\
        path_ok a n_days g0 (k * (n_days - 1)) price /\
        ((2 <= n_days)%nat ->
           exists x y, price !! (n_days - 1)%nat = Some (Fin x) /\
                       price !! (n_days - 2)%nat = Some (Fin y) /\
                       DR !! k = Some (replicate n_days (Fin (ln (x / y)))))).
  destruct (for_range_inv Inv (asset_step junk n_days (Fin (R_real a)) (Fin (v_real a)))
              0 n_assets
              (np_empty2 junk n_assets n_days, np_empty2 junk n_assets n_days, g0))
    as ([[A DR] g] & Hfor & HA & HDR & Hg & Hrows).
  - lia.
  - simpl. split; [apply np_empty2_shape |]. split; [apply np_empty2_shape |].
    split; [intros n; f_equal; lia | intros k Hk; lia].
  - intros i [[A DR] g] Hi (HA & HDR & Hg & Hrows).
    pose proof (np_empty_shape junk n_days) as Hlen. unfold shape1 in Hlen.
    destruct (day_loop a n_days (<[0%nat := Fin 100]> (np_empty junk n_days))
                (Arr (<[0%nat := Fin 0]> (np_empty junk n_days))) g Hn)
      as (price & dr & g' & Hloop & Hpath & Hg' & Hdr1 & Hdr2).
    { rewrite length_insert. exact Hlen. }
    { apply list_lookup_insert_eq. lia. }
    assert (Hprice : length price = n_days) by apply Hpath.
    assert (Hassign : exists row,
              assign_row DR i n_days dr = Ok (<[i := row]> DR) /\
              length row = n_days /\
              ((2 <= n_days)%nat ->
                 exists x y, price !! (n_days - 1)%nat = Some (Fin x) /\
                             price !! (n_days - 2)%nat = Some (Fin y) /\
                             row = replicate n_days (Fin (ln (x / y))))).
    { destruct (decide (n_days = 1%nat)) as [H1 | H1].
      - rewrite (Hdr1 H1). eexists. unfold assign_row.
        rewrite decide_True by (rewrite length_insert; exact Hlen).
        split; [apply setitem_Ok; destruct HDR as [-> _]; lia |].
        split; [rewrite length_insert; exact Hlen | intros; lia].
      - destruct (Hdr2 ltac:(lia)) as (x & y & Hx & Hy & ->).
        eexists. unfold assign_row.
        split; [apply setitem_Ok; destruct HDR as [-> _]; lia |].
        split; [apply length_replicate |]. intros _. exists x, y. done. }
    destruct Hassign as (row & Hassign & Hrow & Hrowval).
    exists (<[i := price]> A, <[i := row]> DR, g').
    split.
    + unfold asset_step. rewrite !setitem_Ok by (rewrite Hlen; lia). simpl.
      rewrite Hloop. simpl.
      rewrite setitem_Ok by (destruct HA as [-> _]; lia). simpl.
      rewrite Hassign. reflexivity.
    + simpl. split; [apply shape2_insert; assumption |].
      split; [apply shape2_insert; assumption |].
      split; [intros n; rewrite Hg', Hg; f_equal; lia |].
      intros k Hk. destruct (decide (k = i)) as [-> | Hne].
      * exists price. split; [apply list_lookup_insert_eq; destruct HA as [-> _]; lia |].
        split; [apply (path_ok_shift a n_days g); assumption |].
        intros H2. destruct (Hrowval H2) as (x & y & Hx & Hy & ->).
        exists x, y. split; [exact Hx |]. split; [exact Hy |].
        apply list_lookup_insert_eq. destruct HDR as [-> _]. lia.
      * rewrite !list_lookup_insert_ne by congruence. apply Hrows. lia.
  - exists A, DR, g. split; [exact Hfor |]. split; [exact HA |].
    split; [exact HDR |]. split; [exact Hg | exact Hrows].
Qed.

(** ** Reductions *)

Lemma np_sum_replicate (n : nat) (x : R) :
  np_sum (replicate n (Fin x)) = Fin (INR n * x).
Proof.
  induction n as [| n IH].
  - simpl. f_equal. ring.
  - change (np_sum (replicate (S n) (Fin x)))
      with (Fin x + np_sum (replicate n (Fin x)))%num.
    rewrite IH, fadd_Fin, S_INR. f_equal. ring.
Qed.

Lemma np_mean_replicate (n : nat) (x : R) :
  (1 <= n)%nat -> np_mean (replicate n (Fin x)) = Fin x.
Proof.
  intros Hn. unfold np_mean.
  assert (HR : 0 < INR n) by (apply lt_0_INR; lia).
  rewrite np_sum_replicate, length_replicate, fdiv_Fin by lra.
  f_equal. field. lra.
Qed.

(** The deviation of a constant row is zero. *)
Lemma np_std_replicate (n : nat) (x : R) :
  (1 <= n)%nat -> np_std (replicate n (Fin x)) = Fin 0.
Proof.
  intros Hn. unfold np_std. rewrite np_mean_replicate by exact Hn.
  change (map ?f (replicate n ?a)) with (f <$> replicate n a).
  rewrite fmap_replicate, fsub_Fin. unfold fabs. rewrite fpow2_Fin.
  replace (Rabs (x - x) * Rabs (x - x)) with 0.
  2:{ replace (x - x) with 0 by ring. rewrite Rabs_R0. ring. }
  rewrite np_mean_replicate by exact Hn.
  rewrite np_sqrt_Fin by lra. rewrite sqrt_0. reflexivity.
Qed.

Lemma np_mean_nil : np_mean [] = NaN.
Proof.
  unfold np_mean, np_sum. simpl. rewrite fdiv_zero by reflexivity.
  apply inf_scaled_zero. reflexivity.
Qed.

Lemma np_std_nil : np_std [] = NaN.
Proof. unfold np_std. simpl. rewrite np_mean_nil. reflexivity. Qed.

Lemma np_std_singleton (x : R) : np_std [Fin x] = Fin 0.
Proof. apply (np_std_replicate 1 x). lia. Qed.

(** [vol] when every row of [daily_returns] is constant. *)
Lemma realized_vol_constant (junk : nat -> num) (n_assets n_days : nat)
    (daily_returns : list (list num)) :
  (1 <= n_days)%nat ->
  (forall i, (i < n_assets)%nat ->
     exists x, daily_returns !! i = Some (replicate n_days (Fin x))) ->
  realized_vol junk n_assets daily_returns = Ok (replicate n_assets (Fin 0)).
Proof.
  intros Hn Hrows. unfold realized_vol.
  destruct (for_fill _ _ _ _ (fun i : nat => i) (fun _ : nat => Fin 0)
              (fun i vol => row ← getitem daily_returns i;
                            setitem vol i (np_std row))
              (range 0 n_assets) (np_empty junk n_assets)
              (cells_list n_assets) (np_empty_shape junk n_assets))
    as (vol & Hvol & Hshape & Hin & _).
  - intros i Hi. apply elem_of_range in Hi. lia.
  - intros i s Hi. apply elem_of_range in Hi.
    destruct (Hrows i ltac:(lia)) as (x & Hx).
    rewrite (proj2 (getitem_Ok _ _ _) Hx). simpl.
    rewrite np_std_replicate by exact Hn. reflexivity.
  - reflexivity.
  - rewrite Hvol. f_equal. unfold shape1 in Hshape.
    apply list_eq. intros i. destruct (decide (i < n_assets)%nat) as [Hi | Hi].
    + rewrite lookup_replicate_2 by exact Hi.
      apply getitem_Ok, Hin, elem_of_range. lia.
    + rewrite !lookup_ge_None_2; [reflexivity | rewrite length_replicate; lia | lia].
Qed.

Lemma volatility_summary_constant (junk : nat -> num) (n_assets n_days : nat)
    (daily_returns : list (list num)) :
  (1 <= n_days)%nat -> (1 <= n_assets)%nat ->
  (forall i, (i < n_assets)%nat ->
     exists x, daily_returns !! i = Some (replicate n_days (Fin x))) ->
  volatility_summary junk n_assets daily_returns
  = Ok (replicate n_assets (Fin 0), Fin 0, Fin 0).
Proof.
  intros Hn Ha Hrows. unfold volatility_summary.
  rewrite (realized_vol_constant junk n_assets n_days) by assumption. simpl.
  rewrite annualize_val. simpl.
  rewrite np_mean_replicate, np_std_replicate by exact Ha.
  rewrite fmul_Fin, Rmult_0_l. reflexivity.
Qed.

(** ** The option grid *)

Lemma for_nest3 {I J L S} (l1 : list I) (l2 : list J) (l3 : list L)
    (body : I * (J * L) -> S -> res S) (s : S) :
  for_ l1 (fun i s => for_ l2 (fun j s =>
    for_ l3 (fun k s => body (i, (j, k)) s) s) s) s
  = for_ (cprod l1 (cprod l2 l3)) body s.
Proof.
  rewrite <- (for_nest l1 (cprod l2 l3) body).
  apply for_ext. intros i s0 _.
  apply (for_nest l2 l3 (fun jk => body (i, jk))).
Qed.

Lemma for_nest4 {I J L M S} (l1 : list I) (l2 : list J) (l3 : list L)
    (l4 : list M) (body : I * (J * (L * M)) -> S -> res S) (s : S) :
  for_ l1 (fun i s => for_ l2 (fun j s => for_ l3 (fun k s =>
    for_ l4 (fun m s => body (i, (j, (k, m))) s) s) s) s) s
  = for_ (cprod l1 (cprod l2 (cprod l3 l4))) body s.
Proof.
  rewrite <- (for_nest l1 (cprod l2 (cprod l3 l4)) body).
  apply for_ext. intros i s0 _.
  apply (for_nest3 l2 l3 l4 (fun jkm => body (i, jkm))).
Qed.

(** The time to expiry on day [j], in years: [T/260] with [T=(25-j)]. *)
Definition tte (n_days j : nat) : num :=
  (Fin (IZR (Z.of_nat n_days - Z.of_nat j)) / Fin 260)%num.

(** The time to expiry is a positive real, [1/260] on the last day. *)
Lemma tte_pos (n_days j : nat) :
  (j < n_days)%nat ->
  tte n_days j = Fin (IZR (Z.of_nat n_days - Z.of_nat j) / 260) /\
  0 < IZR (Z.of_nat n_days - Z.of_nat j) / 260.
Proof.
  intros Hj. unfold tte. rewrite fdiv_Fin by lra. split; [reflexivity |].
  apply Rdiv_lt_0_compat; [| lra]. apply IZR_lt. lia.
Qed.

Lemma tte_last (n_days : nat) :
  (1 <= n_days)%nat -> tte n_days (n_days - 1) = Fin (1 / 260).
Proof.
  intros Hn. unfold tte. rewrite fdiv_Fin by lra. do 3 f_equal. lia.
Qed.

Section Grid.
Variable junk : nat -> num.
Variables n_vols n_strikes n_assets n_days : nat.
Variable assets : list (list num).
Variables strikes volatilities : list num.
Variables rfr div : num.
Hypothesis Has : shape2 n_assets n_days assets.
Hypothesis Hst : length strikes = n_strikes.
Hypothesis Hvo : length volatilities = n_vols.

(** The call of the pricer for the cell [key]. *)
Definition grid_val (key : nat * (nat * (nat * nat))) : num * num :=
  bscall ((assets !!! key.2.2.1) !!! key.2.2.2) (strikes !!! key.2.1) rfr
         (volatilities !!! key.1) div (tte n_days key.2.2.2).

Definition grid_keys : list (nat * (nat * (nat * nat))) :=
  cprod (range 0 n_vols)
    (cprod (range 0 n_strikes) (cprod (range 0 n_assets) (range 0 n_days))).

Lemma elem_of_grid_keys (key : nat * (nat * (nat * nat))) :
  key ∈ grid_keys <->
  (key.1 < n_vols)%nat /\ (key.2.1 < n_strikes)%nat /\
  (key.2.2.1 < n_assets)%nat /\ (key.2.2.2 < n_days)%nat.
Proof.
  unfold grid_keys. rewrite !list_elem_of_cprod, !elem_of_range. lia.
Qed.

Lemma grid_cell_write (key : nat * (nat * (nat * nat)))
    (op cd : list (list (list (list num)))) :
  key ∈ grid_keys ->
  grid_cell n_days assets strikes volatilities rfr div key (op, cd)
  = (op' ← set4 op key (grid_val key).1;
     cd' ← set4 cd key (grid_val key).2;
     mret (op', cd')).
Proof using Has Hst Hvo.
  destruct key as [v [k [i j]]]. rewrite elem_of_grid_keys. simpl.
  intros (Hv & Hk & Hi & Hj). unfold grid_cell.
  rewrite (get2_total n_assets n_days) by assumption. simpl.
  rewrite !getitem_total by lia. simpl.
  rewrite py_div_260. reflexivity.
Qed.

(** The two arrays the grid cell builds. *)
Lemma option_grid_cells :
  exists op cd,
    option_grid junk n_vols n_strikes n_assets n_days assets strikes
      volatilities rfr div = Ok (op, cd) /\
    shape4 n_vols n_strikes n_assets n_days op /\
    shape4 n_vols n_strikes n_assets n_days cd /\
    forall v k i j,
      (v < n_vols)%nat -> (k < n_strikes)%nat ->
      (i < n_assets)%nat -> (j < n_days)%nat ->
      ((((op !!! v) !!! k) !!! i) !!! j, (((cd !!! v) !!! k) !!! i) !!! j)
      = grid_val (v, (k, (i, j))).
Proof using Has Hst Hvo.
  unfold option_grid.
  rewrite (for_nest4 (range 0 n_vols) (range 0 n_strikes) (range 0 n_assets)
             (range 0 n_days)
             (grid_cell n_days assets strikes volatilities rfr div)).
  fold grid_keys.
  destruct (for_fill _ _ _ _ (fun key => key) (fun key => (grid_val key).1)
              (fun key op => set4 op key (grid_val key).1)
              grid_keys (np_empty4 junk n_vols n_strikes n_assets n_days)
              (cells4 n_vols n_strikes n_assets n_days)
              (np_empty4_shape junk _ _ _ _))
    as (op & Hop & Hops & Hopin & _).
  { intros key Hkey. apply elem_of_grid_keys in Hkey. simpl. lia. }
  { reflexivity. }
  { intros a b _ _ ->. reflexivity. }
  destruct (for_fill _ _ _ _ (fun key => key) (fun key => (grid_val key).2)
              (fun key cd => set4 cd key (grid_val key).2)
              grid_keys (np_empty4 junk n_vols n_strikes n_assets n_days)
              (cells4 n_vols n_strikes n_assets n_days)
              (np_empty4_shape junk _ _ _ _))
    as (cd & Hcd & Hcds & Hcdin & _).
  { intros key Hkey. apply elem_of_grid_keys in Hkey. simpl. lia. }
  { reflexivity. }
  { intros a b _ _ ->. reflexivity. }
  exists op, cd.
  split.
  { apply (for_pair grid_keys (fun key op => set4 op key (grid_val key).1)
             (fun key cd => set4 cd key (grid_val key).2));
      [| exact Hop | exact Hcd].
    intros key a b Hkey. apply grid_cell_write, Hkey. }
  split; [exact Hops |]. split; [exact Hcds |].
  intros v k i j Hv Hk Hi Hj.
  assert (Hkey : (v, (k, (i, j))) ∈ grid_keys)
    by (apply elem_of_grid_keys; simpl; lia).
  rewrite (get4_Ok_total n_vols n_strikes n_assets n_days op v k i j _
             Hops Hv Hk Hi Hj (Hopin _ Hkey)).
  rewrite (get4_Ok_total n_vols n_strikes n_assets n_days cd v k i j _
             Hcds Hv Hk Hi Hj (Hcdin _ Hkey)).
  symmetry. apply surjective_pairing.
Qed.

End Grid.

(** ** The in-the-money summary *)

(** A body of two statements runs over the list of its statements. *)
Lemma for_two {I S} (l : list I) (f g : I -> S -> res S) (s : S) :
  for_ l (fun a s => s1 ← f a s; g a s1) s
  = for_ (a ← l; [inl a; inr a])
      (fun x s => match x with inl a => f a s | inr a => g a s end) s.
Proof.
  revert s. induction l as [| a l IH]; intros s; [reflexivity |].
  simpl. destruct (f a s) as [s1 | e]; simpl; [| reflexivity].
  destruct (g a s1) as [s2 | e]; simpl; [apply IH | reflexivity].
Qed.

(** The indicator and the payoff of a final price [x] at the strike [s]. *)
Definition itm_ind (s x : R) : R := if Rlt_dec s x then 1 else 0.
Definition itm_pay (s x : R) : R := Rmax (x - s) 0.

Definition sum_R (l : list R) : R := foldr Rplus 0 l.

(** The number of final prices above the strike. *)
Definition count_ITM (s : R) (xs : list R) : nat :=
  length (List.filter (fun x => if Rlt_dec s x then true else false) xs).

(** The mean payoff of the paths that end in the money, as the summary is
    described: the payoffs of those paths over their number. *)
Definition cond_mean_ITM (s : R) (xs : list R) : R :=
  sum_R (map (itm_pay s)
           (List.filter (fun x => if Rlt_dec s x then true else false) xs))
  / INR (count_ITM s xs).

Lemma np_sum_Fin (l : list R) : np_sum (map Fin l) = Fin (sum_R l).
Proof.
  induction l as [| x l IH]; [reflexivity |].
  change (np_sum (map Fin (x :: l))) with (Fin x + np_sum (map Fin l))%num.
  rewrite IH. reflexivity.
Qed.

Lemma sum_R_ind (s : R) (xs : list R) :
  sum_R (map (itm_ind s) xs) = INR (count_ITM s xs).
Proof.
  unfold count_ITM. induction xs as [| x xs IH]; [reflexivity |].
  simpl. unfold itm_ind at 1. destruct (Rlt_dec s x).
  - change (length (x :: ?l)) with (S (length l)). rewrite S_INR, IH. ring.
  - rewrite IH. ring.
Qed.

Lemma itm_ind_pay (s x : R) : itm_pay s x * itm_ind s x = itm_pay s x.
Proof.
  unfold itm_ind, itm_pay. destruct (Rlt_dec s x).
  - ring.
  - rewrite Rmax_right by lra. ring.
Qed.

Lemma column_map {A V} (f : A -> list V) (c : nat) (g : A -> V) (l : list A) :
  (forall a, a ∈ l -> f a !! c = Some (g a)) ->
  column (map f l) c = Ok (map g l).
Proof.
  unfold column. induction l as [| a l IH]; intros H; [reflexivity |].
  simpl. rewrite (proj2 (getitem_Ok _ _ _) (H a (list_elem_of_here _ _))). simpl.
  unfold fmap in IH. simpl in IH.
  rewrite IH; [reflexivity |].
  intros b Hb. apply H, list_elem_of_further, Hb.
Qed.

#[global] Instance R_inhabited : Inhabited R := populate 0.

Lemma getitem_map_Fin (xs : list R) (p : nat) :
  (p < length xs)%nat -> getitem (map Fin xs) p = Ok (Fin (xs !!! p)).
Proof.
  intros Hp. apply getitem_Ok.
  change (map Fin xs) with (Fin <$> xs).
  rewrite list_lookup_fmap, (list_lookup_lookup_total_lt xs p Hp). reflexivity.
Qed.

Lemma list_of_length_2 {V} `{!Inhabited V} (l : list V) :
  length l = 2%nat -> l = [l !!! 0%nat; l !!! 1%nat].
Proof.
  destruct l as [| a [| b [| c l]]]; simpl; intros Hl; try discriminate.
  reflexivity.
Qed.

Section InTheMoney.
Variable junk : nat -> num.
Variables n_strikes n_assets : nat.
Variables xs ss : list R.
Hypothesis Hxs : length xs = n_assets.
Hypothesis Hss : length ss = n_strikes.

Definition itm_row (s x : R) : list num := [Fin (itm_ind s x); Fin (itm_pay s x)].

Definition itm_key (a : nat * nat + nat * nat) : nat * (nat * nat) :=
  match a with
  | inl (i, p) => (i, (p, 0%nat))
  | inr (i, p) => (i, (p, 1%nat))
  end.

Definition itm_val (a : nat * nat + nat * nat) : num :=
  match a with
  | inl (i, p) => Fin (itm_ind (ss !!! i) (xs !!! p))
  | inr (i, p) => Fin (itm_pay (ss !!! i) (xs !!! p))
  end.

Lemma itm_cell_writes (i p : nat) (M : list (list (list num))) :
  (i < n_strikes)%nat -> (p < n_assets)%nat ->
  itm_cell (map Fin xs) (map Fin ss) (i, p) M
  = (M1 ← set3 M (itm_key (inl (i, p))) (itm_val (inl (i, p)));
     set3 M1 (itm_key (inr (i, p))) (itm_val (inr (i, p)))).
Proof using Hxs Hss.
  intros Hi Hp. unfold itm_cell, itm_key, itm_val, itm_ind, itm_pay.
  rewrite !getitem_map_Fin by lia. simpl.
  destruct (Rlt_dec (ss !!! i) (xs !!! p)) as [Hlt | Hge].
  - rewrite Rmax_left by lra. reflexivity.
  - rewrite Rmax_right by lra. reflexivity.
Qed.

(** The array [inTheMoney]: one row [indicator, payoff] per strike and
    path. *)
Lemma inTheMoney_rows :
  exists M,
    inTheMoney junk n_strikes n_assets (map Fin xs) (map Fin ss) = Ok M /\
    forall i, (i < n_strikes)%nat ->
      M !!! i = map (itm_row (ss !!! i)) xs.
Proof using Hxs Hss.
  unfold inTheMoney.
  rewrite (for_nest (range 0 n_strikes) (range 0 n_assets)
             (itm_cell (map Fin xs) (map Fin ss))).
  set (items := cprod (range 0 n_strikes) (range 0 n_assets)).
  assert (Hitems : forall i p, (i, p) ∈ items <->
                     (i < n_strikes)%nat /\ (p < n_assets)%nat).
  { intros i p. unfold items. rewrite list_elem_of_cprod, !elem_of_range.
    simpl. lia. }
  rewrite (for_ext items _
             (fun a s => s1 ← set3 s (itm_key (inl a)) (itm_val (inl a));
                         set3 s1 (itm_key (inr a)) (itm_val (inr a)))).
  2:{ intros [i p] s Ha. apply Hitems in Ha. apply itm_cell_writes; lia. }
  rewrite (for_two items (fun a s => set3 s (itm_key (inl a)) (itm_val (inl a)))
             (fun a s => set3 s (itm_key (inr a)) (itm_val (inr a)))).
  set (writes := a ← items; [inl a; inr a]).
  assert (Hwrites : forall a, a ∈ writes ->
            exists i p, (a = inl (i, p) \/ a = inr (i, p)) /\
                        (i < n_strikes)%nat /\ (p < n_assets)%nat).
  { intros a Ha. unfold writes in Ha. apply list_elem_of_bind in Ha as ([i p] & Ha & Hip).
    apply Hitems in Hip. exists i, p. split; [| exact Hip].
    apply elem_of_cons in Ha as [-> | Ha]; [left; reflexivity |].
    apply elem_of_cons in Ha as [-> | Ha]; [right; reflexivity |].
    inversion Ha. }
  assert (Hmem : forall i p, (i < n_strikes)%nat -> (p < n_assets)%nat ->
            inl (i, p) ∈ writes /\ inr (i, p) ∈ writes).
  { intros i p Hi Hp. unfold writes.
    split; apply list_elem_of_bind; exists (i, p);
      (split; [| apply Hitems; lia]).
    - apply list_elem_of_here.
    - apply list_elem_of_further, list_elem_of_here. }
  destruct (for_fill _ _ _ _ itm_key itm_val
              (fun x s => match x with
                          | inl a => set3 s (itm_key (inl a)) (itm_val (inl a))
                          | inr a => set3 s (itm_key (inr a)) (itm_val (inr a))
                          end)
              writes (np_empty3 junk n_strikes n_assets 2)
              (cells3 n_strikes n_assets 2) (np_empty3_shape junk _ _ _))
    as (M & HM & Hshape & Hin & _).
  { intros a Ha. destruct (Hwrites a Ha) as (i & p & [-> | ->] & Hi & Hp);
      simpl; lia. }
  { intros [a | a] s _; reflexivity. }
  { intros [[i p] | [i p]] [[i' p'] | [i' p']] _ _ Heq; simpl in Heq;
      congruence. }
  exists M. split; [exact HM |].
  intros i Hi.
  pose proof (shape3_total n_strikes n_assets 2 M i Hshape Hi) as Hrows.
  apply list_eq. intros p.
  change (map (itm_row (ss !!! i)) xs) with (itm_row (ss !!! i) <$> xs).
  rewrite list_lookup_fmap.
  destruct (decide (p < n_assets)%nat) as [Hp | Hp].
  - rewrite (list_lookup_lookup_total_lt xs p) by lia.
    rewrite (list_lookup_lookup_total_lt (M !!! i) p)
      by (destruct Hrows as [-> _]; exact Hp).
    simpl. f_equal.
    rewrite (list_of_length_2 ((M !!! i) !!! p))
      by (apply (shape2_total n_assets 2); assumption).
    destruct (Hmem i p Hi Hp) as [Hl Hr]. unfold itm_row.
    rewrite (get3_Ok_total n_strikes n_assets 2 M i p 0 _ Hshape Hi Hp
               ltac:(lia) (Hin _ Hl)).
    rewrite (get3_Ok_total n_strikes n_assets 2 M i p 1 _ Hshape Hi Hp
               ltac:(lia) (Hin _ Hr)).
    reflexivity.
  - rewrite !lookup_ge_None_2; [reflexivity | lia |].
    destruct Hrows as [-> _]. lia.
Qed.
End InTheMoney.

Lemma arr_mul_map (f g : R -> R) (xs : list R) :
  arr_mul (map (fun x => Fin (f x)) xs) (map (fun x => Fin (g x)) xs)
  = map Fin (map (fun x => f x * g x) xs).
Proof.
  unfold arr_mul. induction xs as [| x xs IH]; [reflexivity |].
  simpl. rewrite IH. reflexivity.
Qed.

Lemma column_itm_0 (s : R) (xs : list R) :
  column (map (itm_row s) xs) 0 = Ok (map (fun x => Fin (itm_ind s x)) xs).
Proof. apply column_map. intros; reflexivity. Qed.

Lemma column_itm_1 (s : R) (xs : list R) :
  column (map (itm_row s) xs) 1 = Ok (map (fun x => Fin (itm_pay s x)) xs).
Proof. apply column_map. intros; reflexivity. Qed.

(** [num_ITM]: the sum of the indicators is the number of paths that end
    above the strike. *)
Lemma num_ITM_rows (s : R) (xs : list R) :
  num_ITM (map (itm_row s) xs) = Ok (Fin (INR (count_ITM s xs))).
Proof.
  unfold num_ITM. rewrite column_itm_0. simpl.
  rewrite <- sum_R_ind, <- np_sum_Fin, map_map. reflexivity.
Qed.

(** [avg_ITM]: the payoffs of all the paths (those out of the money count
    as zero) over the number of all the paths. *)
Lemma avg_ITM_rows (s : R) (xs : list R) :
  (1 <= length xs)%nat ->
  avg_ITM (map (itm_row s) xs)
  = Ok (Fin (sum_R (map (itm_pay s) xs) / INR (length xs))).
Proof.
  intros Hn. unfold avg_ITM. rewrite column_itm_1, column_itm_0. simpl.
  rewrite arr_mul_map. unfold np_mean.
  rewrite np_sum_Fin, !length_map.
  rewrite fdiv_Fin by (apply not_0_INR; lia).
  do 4 f_equal. apply map_ext. intros x. apply itm_ind_pay.
Qed.

(** [stdev_ITM]: the deviation of the indicator-weighted payoffs of all the
    paths. *)
Lemma stdev_ITM_rows (s : R) (xs : list R) :
  stdev_ITM (map (itm_row s) xs)
  = Ok (np_std (map (fun x => Fin (itm_ind s x * itm_pay s x)) xs)).
Proof.
  unfold stdev_ITM. rewrite column_itm_0, column_itm_1. simpl.
  rewrite arr_mul_map, map_map. reflexivity.
Qed.

(** ** Lot rounding *)

Lemma rint_near (x : R) : Rabs (IZR (rint x) - x) <= 1 / 2.
Proof.
  unfold rint. destruct (base_fp x) as [H0 H1].
  assert (Hx : x = IZR (Int_part x) + frac_part x) by (unfold frac_part; ring).
  set (f := Int_part x) in *. set (d := frac_part x) in *.
  destruct (Rlt_dec d (1 / 2)) as [Hlo | Hlo].
  - rewrite Hx. apply Rabs_le. lra.
  - destruct (Rlt_dec (1 / 2) d) as [Hhi | Hhi].
    + rewrite plus_IZR, Hx. apply Rabs_le. lra.
    + destruct (Z.even f).
      * rewrite Hx. apply Rabs_le. lra.
      * rewrite plus_IZR, Hx. apply Rabs_le. lra.
Qed.

(** The rounded hedge ratio over the reals. *)
Definition round_lot (lot d : R) : R := lot * IZR (rint (d / lot)).

Lemma lot_round_Fin (lot d : R) :
  lot <> 0 -> lot_round (Fin lot) (Fin d) = Fin (round_lot lot d).
Proof.
  intros Hlot. unfold lot_round. rewrite fdiv_Fin by exact Hlot. reflexivity.
Qed.

(** [rint] at [z + f] with [0 <= f < 1]. *)
Lemma rint_at (z : Z) (f : R) :
  0 <= f < 1 ->
  rint (IZR z + f)
  = if Rlt_dec f (1 / 2) then z
    else if Rlt_dec (1 / 2) f then (z + 1)%Z
    else if Z.even z then z else (z + 1)%Z.
Proof.
  intros Hf. unfold rint.
  destruct (Int_part_frac_part_spec (IZR z + f) z f Hf eq_refl) as [<- <-].
  reflexivity.
Qed.

(** Ties go to the even integer, as numpy rounds: [0.5 -> 0], [1.5 -> 2],
    [2.5 -> 2], [-0.5 -> 0]; [0.53/0.1 = 5.3 -> 5]. *)
Example rint_half : rint (1 / 2) = 0%Z.
Proof.
  replace (1 / 2) with (IZR 0 + 1 / 2) by lra. rewrite rint_at by lra.
  destruct (Rlt_dec (1 / 2) (1 / 2)); [lra | reflexivity].
Qed.

Example rint_three_halves : rint (3 / 2) = 2%Z.
Proof.
  replace (3 / 2) with (IZR 1 + 1 / 2) by lra. rewrite rint_at by lra.
  destruct (Rlt_dec (1 / 2) (1 / 2)); [lra | reflexivity].
Qed.

Example rint_five_halves : rint (5 / 2) = 2%Z.
Proof.
  replace (5 / 2) with (IZR 2 + 1 / 2) by lra. rewrite rint_at by lra.
  destruct (Rlt_dec (1 / 2) (1 / 2)); [lra | reflexivity].
Qed.

Example rint_minus_half : rint (- (1 / 2)) = 0%Z.
Proof.
  replace (- (1 / 2)) with (IZR (-1) + 1 / 2) by lra. rewrite rint_at by lra.
  destruct (Rlt_dec (1 / 2) (1 / 2)); [lra | reflexivity].
Qed.

Example lot_round_example :
  lot_round (Fin (1 / 10)) (Fin (53 / 100)) = Fin (5 / 10).
Proof.
  rewrite lot_round_Fin by lra. unfold round_lot. f_equal.
  replace (53 / 100 / (1 / 10)) with (IZR 5 + 3 / 10) by lra.
  rewrite rint_at by lra. destruct (Rlt_dec (3 / 10) (1 / 2)); lra.
Qed.

Lemma round_lot_near (lot d : R) :
  0 < lot -> Rabs (round_lot lot d - d) <= lot / 2.
Proof.
  intros Hlot. unfold round_lot.
  replace (lot * IZR (rint (d / lot)) - d)
    with (lot * (IZR (rint (d / lot)) - d / lot)) by (field; lra).
  rewrite Rabs_mult, (Rabs_right lot) by lra.
  pose proof (rint_near (d / lot)). nra.
Qed.

(** With a zero lot the expression divides by zero and ends in [nan]. *)
Lemma lot_round_zero (d : R) : lot_round (Fin 0) (Fin d) = NaN.
Proof.
  unfold lot_round. rewrite fdiv_zero by reflexivity.
  destruct (Rtotal_order d 0) as [Hd | [Hd | Hd]].
  - rewrite inf_scaled_neg by exact Hd. simpl. unfold fmul.
    apply inf_scaled_zero. reflexivity.
  - rewrite inf_scaled_zero by exact Hd. reflexivity.
  - rewrite inf_scaled_pos by exact Hd. simpl. unfold fmul.
    apply inf_scaled_zero. reflexivity.
Qed.

(** The daily excess return over the reals. *)
Definition er_real (C h P : list R) (r : R) (t : nat) : R :=
  (C !!! t - C !!! (t - 1)%nat)
  - h !!! (t - 1)%nat * (P !!! t - P !!! (t - 1)%nat)
  - r * (C !!! (t - 1)%nat - h !!! (t - 1)%nat * P !!! (t - 1)%nat).

Lemma lookup_total_map {A B} `{!Inhabited A, !Inhabited B} (f : A -> B)
    (l : list A) (i : nat) :
  (i < length l)%nat -> map f l !!! i = f (l !!! i).
Proof. intros Hi. apply (list_lookup_total_fmap f l i Hi). Qed.

Lemma er_formula_Fin (C h P : list R) (r : R) (n t : nat) :
  length C = n -> length h = n -> length P = n -> (1 <= t < n)%nat ->
  er_formula (map Fin C) (map Fin h) (map Fin P) (Fin r) t
  = Fin (er_real C h P r t).
Proof.
  intros HC Hh HP Ht. unfold er_formula, er_real.
  rewrite !lookup_total_map by lia. reflexivity.
Qed.

(** The two series differ by the rounding error of the hedge ratio times
    the financed price change. *)
Lemma er_real_diff (C h h' P : list R) (r : R) (t : nat) :
  er_real C h' P r t - er_real C h P r t
  = - (h' !!! (t - 1)%nat - h !!! (t - 1)%nat)
    * (P !!! t - P !!! (t - 1)%nat - r * P !!! (t - 1)%nat).
Proof. unfold er_real. ring. Qed.

Lemma sum_R_diff_bound (f g c : nat -> R) (e : R) (l : list nat) :
  (forall t, t ∈ l -> Rabs (f t - g t) <= e * c t) ->
  Rabs (sum_R (map f l) - sum_R (map g l)) <= e * sum_R (map c l).
Proof.
  induction l as [| t l IH]; intros H; simpl.
  - replace (0 - 0) with 0 by ring. rewrite Rabs_R0. lra.
  - replace (f t + sum_R (map f l) - (g t + sum_R (map g l)))
      with ((f t - g t) + (sum_R (map f l) - sum_R (map g l))) by ring.
    eapply Rle_trans; [apply Rabs_triang |].
    pose proof (H t (list_elem_of_here _ _)).
    assert (Rabs (sum_R (map f l) - sum_R (map g l)) <= e * sum_R (map c l))
      by (apply IH; intros u Hu; apply H, list_elem_of_further, Hu).
    lra.
Qed.

Lemma sum_R_nonneg (c : nat -> R) (l : list nat) :
  (forall t, 0 <= c t) -> 0 <= sum_R (map c l).
Proof.
  intros Hc. induction l as [| t l IH]; simpl; [lra |].
  pose proof (Hc t). lra.
Qed.

Lemma sum_R_elem_le (c : nat -> R) (l : list nat) (t : nat) :
  (forall t, 0 <= c t) -> t ∈ l -> c t <= sum_R (map c l).
Proof.
  intros Hc. induction l as [| u l IH]; intros Ht; [inversion Ht |].
  simpl. apply elem_of_cons in Ht as [-> | Ht].
  - pose proof (sum_R_nonneg c l Hc). lra.
  - pose proof (IH Ht). pose proof (Hc u). lra.
Qed.

(** Arrays of finite numbers. *)
Definition fin2 (M : list (list R)) : list (list num) := map (map Fin) M.
Definition fin3 (M : list (list (list R))) : list (list (list num)) :=
  map (map (map Fin)) M.

Lemma shape2_map {A B} (f : A -> B) (n m : nat) (M : list (list A)) :
  shape2 n m M -> shape2 n m (map (map f) M).
Proof.
  intros [Hn HM]. split; [rewrite length_map; exact Hn |].
  apply Forall_fmap. eapply Forall_impl; [exact HM |].
  intros l Hl. unfold shape1 in *. simpl. rewrite length_map. exact Hl.
Qed.

Lemma shape3_map {A B} (f : A -> B) (n m p : nat) (M : list (list (list A))) :
  shape3 n m p M -> shape3 n m p (map (map (map f)) M).
Proof.
  intros [Hn HM]. split; [rewrite length_map; exact Hn |].
  apply Forall_fmap. eapply Forall_impl; [exact HM |].
  intros l Hl. apply (shape2_map f), Hl.
Qed.

Lemma map2_row {A B} `{!Inhabited A, !Inhabited B} (f : A -> B) (n m : nat)
    (M : list (list A)) (i : nat) :
  shape2 n m M -> (i < n)%nat -> map (map f) M !!! i = map f (M !!! i).
Proof. intros [Hn _] Hi. apply lookup_total_map. lia. Qed.

Lemma map3_row {A B} `{!Inhabited A, !Inhabited B} (f : A -> B) (n m p : nat)
    (M : list (list (list A))) (i j : nat) :
  shape3 n m p M -> (i < n)%nat -> (j < m)%nat ->
  (map (map (map f)) M !!! i) !!! j = map f ((M !!! i) !!! j).
Proof.
  intros HM Hi Hj. rewrite lookup_total_map by (destruct HM as [-> _]; exact Hi).
  apply (map2_row f m p); [apply (shape3_total n), Hi; exact HM | exact Hj].
Qed.

Lemma r_deltas_fin3 (lot : R) (cdR : list (list (list R))) :
  lot <> 0 ->
  r_deltas (Fin lot) (fin3 cdR) = fin3 (map (map (map (round_lot lot))) cdR).
Proof.
  intros Hlot. unfold r_deltas, fin3.
  rewrite !map_map. apply map_ext. intros M.
  rewrite !map_map. apply map_ext. intros l.
  rewrite !map_map. apply map_ext. intros d.
  apply lot_round_Fin, Hlot.
Qed.

(** The daily series of one path over the reals: zero on day 0. *)
Definition er_row (C h P : list R) (r : R) (t : nat) : R :=
  if decide (t = 0%nat) then 0 else er_real C h P r t.

Section HedgeReal.
Variable junk : nat -> num.
Variables n_strikes n_assets n_days : nat.
Variables opR hR : list (list (list R)).
Variable asR : list (list R).
Variable rr : R.
Hypothesis Hop : shape3 n_strikes n_assets n_days opR.
Hypothesis Hh : shape3 n_strikes n_assets n_days hR.
Hypothesis Has : shape2 n_assets n_days asR.
Hypothesis Hd : (0 < n_days)%nat.

(** [excess_return] on arrays of finite numbers. *)
Lemma excess_return_real :
  exists D e_r,
    d_excess_return junk n_strikes n_assets n_days (fin3 opR) (fin3 hR)
      (fin2 asR) (Fin rr) = Ok D /\
    excess_return junk n_strikes n_assets n_days (fin3 opR) (fin3 hR)
      (fin2 asR) (Fin rr) = Ok e_r /\
    forall i j, (i < n_strikes)%nat -> (j < n_assets)%nat ->
      (forall t, (t < n_days)%nat ->
         ((D !!! i) !!! j) !!! t
         = Fin (er_row ((opR !!! i) !!! j) ((hR !!! i) !!! j) (asR !!! j)
                  (rr / 260) t)) /\
      (e_r !!! i) !!! j
      = Fin (sum_R (map (er_row ((opR !!! i) !!! j) ((hR !!! i) !!! j)
                           (asR !!! j) (rr / 260)) (seq 0 n_days))).
Proof using Hop Hh Has Hd.
  pose proof (shape3_map Fin _ _ _ _ Hop) as Hop'.
  pose proof (shape3_map Fin _ _ _ _ Hh) as Hh'.
  pose proof (shape2_map Fin _ _ _ Has) as Has'.
  destruct (d_excess_return_cells junk _ _ _ _ _ _ (Fin rr) Hop' Hh' Has' Hd)
    as (D & HD & Hshape & Hcells).
  destruct (excess_return_sums junk _ _ _ _ _ _ (Fin rr) Hop' Hh' Has' Hd)
    as (D0 & e_r & HD0 & He & _ & Hsums).
  fold (fin3 opR) (fin3 hR) (fin2 asR) in *.
  assert (D0 = D) as -> by congruence.
  exists D, e_r. split; [exact HD |]. split; [exact He |].
  intros i j Hi Hj.
  assert (Hcell : forall t, (t < n_days)%nat ->
            ((D !!! i) !!! j) !!! t
            = Fin (er_row ((opR !!! i) !!! j) ((hR !!! i) !!! j) (asR !!! j)
                     (rr / 260) t)).
  { intros t Ht. destruct (Hcells i j Hi Hj) as [H0 Hpos]. unfold er_row.
    destruct (decide (t = 0%nat)) as [-> | Hne]; [exact H0 |].
    rewrite Hpos by lia. unfold excess_val, fin3, fin2. simpl.
    rewrite !(map3_row Fin n_strikes n_assets n_days) by assumption.
    rewrite (map2_row Fin n_assets n_days) by assumption.
    rewrite fdiv_Fin by lra.
    apply (er_formula_Fin _ _ _ _ n_days); [| | | lia].
    - apply (shape2_total n_assets); [apply (shape3_total n_strikes) |]; assumption.
    - apply (shape2_total n_assets); [apply (shape3_total n_strikes) |]; assumption.
    - apply (shape2_total n_assets); assumption. }
  split; [exact Hcell |].
  rewrite Hsums by assumption. rewrite <- np_sum_Fin. f_equal.
  assert (Hlen : length ((D !!! i) !!! j) = n_days)
    by (apply (shape2_total n_assets); [apply (shape3_total n_strikes) |];
        assumption).
  apply list_eq. intros t.
  change (map Fin (map ?f (seq 0 n_days))) with (Fin <$> (f <$> seq 0 n_days)).
  rewrite !list_lookup_fmap.
  destruct (decide (t < n_days)%nat) as [Ht | Ht].
  - rewrite (list_lookup_lookup_total_lt _ t) by lia.
    rewrite lookup_seq_lt by exact Ht. simpl. f_equal. apply Hcell, Ht.
  - rewrite lookup_ge_None_2 by lia. rewrite lookup_seq_ge by lia. reflexivity.
Qed.
End HedgeReal.

(** * The claims *)

(** C1.  For all inputs of the right shape (option prices [C], deltas [h],
    price paths [P], rate), the hedge simulator returns; for every strike
    [i] and path [j] its daily series [ER] has [ER[0] = 0] and, for every
    day [t] from 1 to T-1,
    [ER[t] = (C[t]-C[t-1]) - h[t-1]*(P[t]-P[t-1]) - r*(C[t-1]-h[t-1]*P[t-1])]
    with the daily rate [r = rfr/260]; the value returned for the path is
    the sum of the T daily values. *)
Theorem excess_return_series (junk : nat -> num)
    (n_strikes n_assets n_days : nat)
    (option_prices call_deltas : list (list (list num)))
    (assets : list (list num)) (rfr : num) :
  shape3 n_strikes n_assets n_days option_prices ->
  shape3 n_strikes n_assets n_days call_deltas ->
  shape2 n_assets n_days assets ->
  (0 < n_days)%nat ->
  exists D e_r,
    d_excess_return junk n_strikes n_assets n_days option_prices call_deltas
      assets rfr = Ok D /\
    excess_return junk n_strikes n_assets n_days option_prices call_deltas
      assets rfr = Ok e_r /\
    forall i j, (i < n_strikes)%nat -> (j < n_assets)%nat ->
      let C := (option_prices !!! i) !!! j in
      let h := (call_deltas !!! i) !!! j in
      let P := assets !!! j in
      let r := (rfr / Fin 260)%num in
      let ER := (D !!! i) !!! j in
      length ER = n_days /\
      ER !!! 0%nat = Fin 0 /\
      (forall t, (1 <= t < n_days)%nat ->
         ER !!! t
         = ((C !!! t - C !!! (t - 1)%nat)
            - h !!! (t - 1)%nat * (P !!! t - P !!! (t - 1)%nat)
            - r * (C !!! (t - 1)%nat - h !!! (t - 1)%nat * P !!! (t - 1)%nat))%num) /\
      (e_r !!! i) !!! j = np_sum ER.
Proof.
  intros Hop Hcd Has Hd.
  destruct (d_excess_return_cells junk _ _ _ _ _ _ rfr Hop Hcd Has Hd)
    as (D & HD & Hshape & Hcells).
  destruct (excess_return_sums junk _ _ _ _ _ _ rfr Hop Hcd Has Hd)
    as (D0 & e_r & HD0 & He & _ & Hsums).
  assert (D0 = D) as -> by congruence.
  exists D, e_r. split; [exact HD |]. split; [exact He |].
  intros i j Hi Hj. simpl.
  destruct (Hcells i j Hi Hj) as [H0 Hpos].
  split; [apply (shape2_total n_assets);
          [apply (shape3_total n_strikes) |]; assumption |].
  split; [exact H0 |]. split; [| apply Hsums; assumption].
  intros t Ht. rewrite (Hpos t Ht). reflexivity.
Qed.

(** One strike, one path of two days: [C = [5; 7]], [h = [1/2; 1/2]],
    [P = [100; 102]], [rfr = 0]. *)
Lemma excess_return_series_witness :
  exists D e_r,
    d_excess_return (fun _ => NaN) 1 1 2 [[[Fin 5; Fin 7]]]
      [[[Fin (1 / 2); Fin (1 / 2)]]] [[Fin 100; Fin 102]] (Fin 0) = Ok D /\
    excess_return (fun _ => NaN) 1 1 2 [[[Fin 5; Fin 7]]]
      [[[Fin (1 / 2); Fin (1 / 2)]]] [[Fin 100; Fin 102]] (Fin 0) = Ok e_r /\
    ((D !!! 0%nat) !!! 0%nat) !!! 0%nat = Fin 0 /\
    ((D !!! 0%nat) !!! 0%nat) !!! 1%nat = Fin 1 /\
    (e_r !!! 0%nat) !!! 0%nat = np_sum ((D !!! 0%nat) !!! 0%nat).
Proof.
  destruct (excess_return_series (fun _ => NaN) 1 1 2 [[[Fin 5; Fin 7]]]
              [[[Fin (1 / 2); Fin (1 / 2)]]] [[Fin 100; Fin 102]] (Fin 0))
    as (D & e_r & HD & He & Hcells).
  - split; [reflexivity | repeat constructor].
  - split; [reflexivity | repeat constructor].
  - split; [reflexivity | repeat constructor].
  - lia.
  - exists D, e_r. split; [exact HD |]. split; [exact He |].
    destruct (Hcells 0%nat 0%nat ltac:(lia) ltac:(lia)) as (_ & H0 & Ht & Hsum).
    split; [exact H0 |]. split; [| exact Hsum].
    rewrite (Ht 1%nat ltac:(lia)). simpl.
    rewrite fdiv_Fin by lra.
    cbv [fsub fadd fmul fneg]. f_equal. lra.
Defined.

(** C2.  For every valid input (spot, strike, volatility and time to
    expiry positive) the pricer returns the pair (call price, delta) with
    [d1 = (ln(S/K) + (r - q + v^2/2)*T) / (v*sqrt(T))],
    [d2 = d1 - v*sqrt(T)],
    [call = S*exp(-q*T)*Phi(d1) - K*exp(-r*T)*Phi(d2)] and
    [delta = Phi(d1)], [Phi] the standard normal distribution function. *)
Theorem bscall_formula (S K r v q T : R) :
  0 < S -> 0 < K -> 0 < v -> 0 < T ->
  let d1 := (ln (S / K) + (r - q + v ^ 2 / 2) * T) / (v * sqrt T) in
  let d2 := d1 - v * sqrt T in
  bscall (Fin S) (Fin K) (Fin r) (Fin v) (Fin q) (Fin T)
  = (Fin (S * exp (- q * T) * norm_cdf_R d1 - K * exp (- r * T) * norm_cdf_R d2),
     Fin (norm_cdf_R d1)).
Proof.
  intros HS HK Hv HT. simpl.
  rewrite bscall_finite by assumption.
  unfold bs_call, bs_d2, bs_d1. rewrite Rmult_1_r. reflexivity.
Qed.

(** The at-the-money option of the notebook on day 0: spot and strike 100,
    rate 5%, volatility 15%, no dividend, 25 days of 260 to expiry. *)
Lemma bscall_formula_witness :
  exists d1,
    bscall (Fin 100) (Fin 100) (Fin (5 / 100)) (Fin (15 / 100)) (Fin 0)
      (Fin (25 / 260))
    = (Fin (100 * exp (- 0 * (25 / 260)) * norm_cdf_R d1
            - 100 * exp (- (5 / 100) * (25 / 260))
              * norm_cdf_R (d1 - 15 / 100 * sqrt (25 / 260))),
       Fin (norm_cdf_R d1)).
Proof.
  eexists.
  apply (bscall_formula 100 100 (5 / 100) (15 / 100) 0 (25 / 260)); lra.
Defined.

(** C3, as the code has it.  The pricer has no branch for a zero time to
    expiry: it evaluates the same formula, whose divisor [vol*sqrt(T)] is
    then zero.  Above the strike [d1 = +inf] and the result is the
    intrinsic value [S - K] with delta 1; below the strike [d1 = -inf] and
    the result is 0 with delta 0; at the strike [d1 = 0/0] and both
    results are [nan]. *)
Theorem bscall_at_expiry (S K r v q : R) :
  0 < S -> 0 < K -> 0 < v ->
  bscall (Fin S) (Fin K) (Fin r) (Fin v) (Fin q) (Fin 0)
  = if Rlt_dec K S then (Fin (Rmax (S - K) 0), Fin 1)
    else if Rlt_dec S K then (Fin (Rmax (S - K) 0), Fin 0)
    else (NaN, NaN).
Proof.
  intros HS HK Hv.
  destruct (Rlt_dec K S) as [Habove | Hnot].
  - rewrite Rmax_left by lra. apply bscall_expiry_above; assumption.
  - destruct (Rlt_dec S K) as [Hbelow | Hnot'].
    + rewrite Rmax_right by lra. apply bscall_expiry_below; assumption.
    + assert (S = K) as -> by lra. apply bscall_expiry_at. exact HK.
Qed.

Lemma bscall_at_expiry_witness :
  bscall (Fin 103) (Fin 100) (Fin (5 / 100)) (Fin (15 / 100)) (Fin 0) (Fin 0)
  = (Fin (Rmax (103 - 100) 0), Fin 1).
Proof.
  rewrite (bscall_at_expiry 103 100 (5 / 100) (15 / 100) 0) by lra.
  destruct (Rlt_dec 100 103); [reflexivity | lra].
Defined.

(** C3 as stated fails at the money: with spot = strike = 100 and a zero
    time to expiry the pricer returns [nan] for the price and the delta. *)
Lemma bscall_expiry_at_the_money_nan :
  bscall (Fin 100) (Fin 100) rfr (Fin (15 / 100)) div (Fin 0) = (NaN, NaN).
Proof. apply bscall_expiry_at. lra. Qed.

(** C4.  The generator cell returns for every annual figure [ar > -1]
    (0.15 in the notebooks), every number of assets, every horizon of at
    least one day and every stream of draws; every path starts at exactly
    100 and every price is positive, each price after the first being
    [price[t-1] * exp(R + v*z)] with [R = log(1+ar)/260],
    [v = ar/sqrt(260)] and [z] the next draw of the stream (draw number
    [i*(T-1) + t-1] for asset [i] and day [t]). *)
Theorem generated_paths_positive (junk : nat -> num) (a : R)
    (n_assets n_days : nat) (g : rng) :
  -1 < a -> (1 <= n_days)%nat ->
  exists assets daily_returns g',
    simulate junk (Fin a) n_assets n_days g = Ok (assets, daily_returns, g') /\
    forall i, (i < n_assets)%nat ->
      (assets !!! i) !!! 0%nat = Fin 100 /\
      forall t, (t < n_days)%nat ->
        exists x, (assets !!! i) !!! t = Fin x /\ 0 < x /\
          ((1 <= t)%nat ->
             exists y, (assets !!! i) !!! (t - 1)%nat = Fin y /\
               x = y * exp (R_real a
                            + v_real a * g (i * (n_days - 1) + (t - 1))%nat)).
Proof.
  intros Ha Hn.
  destruct (simulate_spec junk a n_assets n_days g Ha Hn)
    as (assets & daily_returns & g' & Hsim & _ & _ & _ & Hrows).
  exists assets, daily_returns, g'. split; [exact Hsim |].
  intros i Hi. destruct (Hrows i Hi) as (price & Hprice & Hpath & _).
  rewrite (list_lookup_total_correct _ _ _ Hprice).
  destruct Hpath as (_ & H0 & Hpos & Hrec).
  split; [apply list_lookup_total_correct, H0 |].
  intros t Ht. destruct (Hpos t Ht) as (x & Hx & Hxpos).
  exists x. split; [apply list_lookup_total_correct, Hx |].
  split; [exact Hxpos |]. intros H1.
  destruct (Hrec t ltac:(lia)) as (y & Hy & Hxy).
  exists y. split; [apply list_lookup_total_correct, Hy |]. congruence.
Qed.

(** The notebook's run, 250 assets over 25 days, when every draw is zero:
    the last asset starts at 100 and ends at a positive price. *)
Lemma generated_paths_positive_witness :
  exists assets daily_returns g',
    simulate (fun _ => NaN) ar N_ASSETS N_DAYS (fun _ => 0)
    = Ok (assets, daily_returns, g') /\
    (assets !!! 249%nat) !!! 0%nat = Fin 100 /\
    exists x, (assets !!! 249%nat) !!! 24%nat = Fin x /\ 0 < x.
Proof.
  destruct (generated_paths_positive (fun _ => NaN) (15 / 100) N_ASSETS N_DAYS
              (fun _ => 0))
    as (assets & daily_returns & g' & Hsim & Hrows); [lra | unfold N_DAYS; lia |].
  exists assets, daily_returns, g'. split; [exact Hsim |].
  destruct (Hrows 249%nat ltac:(unfold N_ASSETS; lia)) as [H0 Hpos].
  split; [exact H0 |].
  destruct (Hpos 24%nat ltac:(unfold N_DAYS; lia)) as (x & Hx & Hxpos & _).
  exists x. split; assumption.
Defined.

(** C5.  For every volatility [v], strike [k], asset [i] and day [j] the
    grid holds the pricer's result for the day's spot and the time to
    expiry [T = (horizon - j)/260]; [T] is positive for every day of the
    path and is exactly [1/260] on the last one, [j = horizon - 1]. *)
Theorem option_grid_time_to_expiry (junk : nat -> num)
    (n_vols n_strikes n_assets n_days : nat) (assets : list (list num))
    (strikes volatilities : list num) (rfr div : num) :
  shape2 n_assets n_days assets ->
  length strikes = n_strikes ->
  length volatilities = n_vols ->
  exists option_prices call_deltas,
    option_grid junk n_vols n_strikes n_assets n_days assets strikes
      volatilities rfr div = Ok (option_prices, call_deltas) /\
    forall v k i j,
      (v < n_vols)%nat -> (k < n_strikes)%nat ->
      (i < n_assets)%nat -> (j < n_days)%nat ->
      exists T : R,
        T = IZR (Z.of_nat n_days - Z.of_nat j) / 260 /\
        0 < T /\
        (j = (n_days - 1)%nat -> T = 1 / 260) /\
        ((((option_prices !!! v) !!! k) !!! i) !!! j,
         (((call_deltas !!! v) !!! k) !!! i) !!! j)
        = bscall ((assets !!! i) !!! j) (strikes !!! k) rfr
            (volatilities !!! v) div (Fin T).
Proof.
  intros Has Hst Hvo.
  destruct (option_grid_cells junk n_vols n_strikes n_assets n_days assets
              strikes volatilities rfr div Has Hst Hvo)
    as (op & cd & Hgrid & _ & _ & Hcells).
  exists op, cd. split; [exact Hgrid |].
  intros v k i j Hv Hk Hi Hj.
  destruct (tte_pos n_days j Hj) as [Htte Hpos].
  exists (IZR (Z.of_nat n_days - Z.of_nat j) / 260).
  split; [reflexivity |]. split; [exact Hpos |].
  split.
  - intros ->. replace (Z.of_nat n_days - Z.of_nat (n_days - 1))%Z with 1%Z by lia.
    reflexivity.
  - rewrite (Hcells v k i j Hv Hk Hi Hj). unfold grid_val. simpl.
    rewrite Htte. reflexivity.
Qed.

(** One volatility, one strike, one asset, two days: the last day is
    priced with [T = 1/260]. *)
Lemma option_grid_time_to_expiry_witness :
  exists option_prices call_deltas,
    option_grid (fun _ => NaN) 1 1 1 2 [[Fin 100; Fin 101]] [Fin 100]
      [Fin (15 / 100)] rfr div = Ok (option_prices, call_deltas) /\
    ((((option_prices !!! 0%nat) !!! 0%nat) !!! 0%nat) !!! 1%nat,
     (((call_deltas !!! 0%nat) !!! 0%nat) !!! 0%nat) !!! 1%nat)
    = bscall (Fin 101) (Fin 100) rfr (Fin (15 / 100)) div (Fin (1 / 260)).
Proof.
  destruct (option_grid_time_to_expiry (fun _ => NaN) 1 1 1 2
              [[Fin 100; Fin 101]] [Fin 100] [Fin (15 / 100)] rfr div)
    as (op & cd & Hgrid & Hcells).
  - split; [reflexivity | repeat constructor].
  - reflexivity.
  - reflexivity.
  - exists op, cd. split; [exact Hgrid |].
    destruct (Hcells 0%nat 0%nat 0%nat 1%nat ltac:(lia) ltac:(lia) ltac:(lia)
                ltac:(lia)) as (T & _ & _ & HT & Hcell).
    rewrite Hcell, (HT eq_refl). reflexivity.
Defined.

(** C10, as the code has it.  In the generator [dr] is rebound to the
    scalar log return of the day, so for a horizon of at least two days
    every entry of [daily_returns[i]] is the log return of the last day;
    [vol[i]] is then the deviation of a constant row: in exact arithmetic
    it is 0 for every asset, and so are the annualised mean and deviation
    of [vol], whatever the draws.  (In binary64 the deviation of a
    constant row is 0 or a rounding residue, see
    [np_std_b64_constant_row].) *)
Theorem daily_returns_constant (junk : nat -> num) (a : R)
    (n_assets n_days : nat) (g : rng) :
  -1 < a -> (2 <= n_days)%nat -> (1 <= n_assets)%nat ->
  exists assets daily_returns g',
    simulate junk (Fin a) n_assets n_days g = Ok (assets, daily_returns, g') /\
    (forall i, (i < n_assets)%nat ->
       exists x,
         math_log ((assets !!! i) !!! (n_days - 1)%nat
                   / (assets !!! i) !!! (n_days - 2)%nat) = Ok (Fin x) /\
         daily_returns !!! i = replicate n_days (Fin x)) /\
    volatility_summary junk n_assets daily_returns
    = Ok (replicate n_assets (Fin 0), Fin 0, Fin 0).
Proof.
  intros Ha0 Hn Ha.
  destruct (simulate_spec junk a n_assets n_days g Ha0 ltac:(lia))
    as (assets & daily_returns & g' & Hsim & _ & _ & _ & Hrows).
  exists assets, daily_returns, g'. split; [exact Hsim |]. split.
  - intros i Hi. destruct (Hrows i Hi) as (price & Hprice & Hpath & Hdr).
    destruct (Hdr Hn) as (x & y & Hx & Hy & Hrow).
    destruct Hpath as (_ & _ & Hpos & _).
    destruct (Hpos (n_days - 1)%nat ltac:(lia)) as (x' & Hx' & Hxpos).
    destruct (Hpos (n_days - 2)%nat ltac:(lia)) as (y' & Hy' & Hypos).
    assert (x' = x) as -> by congruence. assert (y' = y) as -> by congruence.
    exists (ln (x / y)).
    rewrite (list_lookup_total_correct _ _ _ Hprice).
    rewrite (list_lookup_total_correct _ _ _ Hx).
    rewrite (list_lookup_total_correct _ _ _ Hy).
    rewrite (list_lookup_total_correct _ _ _ Hrow).
    split; [| reflexivity].
    rewrite fdiv_Fin by lra. apply math_log_Fin.
    apply Rdiv_lt_0_compat; assumption.
  - apply (volatility_summary_constant junk n_assets n_days); [lia | exact Ha |].
    intros i Hi. destruct (Hrows i Hi) as (price & _ & _ & Hdr).
    destruct (Hdr Hn) as (x & y & _ & _ & Hrow). eauto.
Qed.

(** The notebook's run, 250 assets over 25 days, when every draw is
    zero. *)
Lemma daily_returns_constant_witness :
  exists assets daily_returns g',
    simulate (fun _ => NaN) ar N_ASSETS N_DAYS (fun _ => 0)
    = Ok (assets, daily_returns, g') /\
    volatility_summary (fun _ => NaN) N_ASSETS daily_returns
    = Ok (replicate N_ASSETS (Fin 0), Fin 0, Fin 0).
Proof.
  destruct (daily_returns_constant (fun _ => NaN) (15 / 100) N_ASSETS N_DAYS
              (fun _ => 0))
    as (assets & daily_returns & g' & Hsim & _ & Hvol);
    [lra | unfold N_DAYS; lia | unfold N_ASSETS; lia |].
  exists assets, daily_returns, g'. split; [exact Hsim | exact Hvol].
Defined.

Section ConstantRow.
Import PrimFloat.
#[local] Open Scope float_scope.

(** C10 as stated fails for the deviations.  When every draw is zero the
    last log return of the run is the binary64 number
    0x1.19d43197726f7p-11 (0.0005375459322120847), and the row of 25 such
    numbers has the deviation 2^-63 (1.08e-19), not 0: summed in numpy's
    order the 25 equal numbers give a mean one unit in the last place
    below them. *)
Lemma np_std_b64_constant_row :
  np_mean_b64 (replicate 25 0x1.19d43197726f7p-11) = 0x1.19d43197726f6p-11 /\
  np_std_b64 (replicate 25 0x1.19d43197726f7p-11) = 0x1p-63 /\
  PrimFloat.eqb (np_std_b64 (replicate 25 0x1.19d43197726f7p-11)) 0 = false.
Proof. vm_compute. repeat split; reflexivity. Qed.
End ConstantRow.

(** C6, as the code has it.  For every delta [d] and every lot [K > 0] the
    hedge ratio [K * round(d/K)] is a multiple of [K] within [K/2] of [d];
    and on finite inputs, as [K -> 0+], the daily excess returns and their
    sum computed with the rounded deltas converge to those computed with
    the deltas as they are (the hedge without a lot, rows 0..4 of
    [excess_returns]). *)
Theorem lot_rounding_converges (junk : nat -> num)
    (n_strikes n_assets n_days : nat) (opR cdR : list (list (list R)))
    (asR : list (list R)) (rr : R) :
  shape3 n_strikes n_assets n_days opR ->
  shape3 n_strikes n_assets n_days cdR ->
  shape2 n_assets n_days asR ->
  (0 < n_days)%nat ->
  (forall lot d, 0 < lot ->
     exists n : Z, lot_round (Fin lot) (Fin d) = Fin (lot * IZR n) /\
                   Rabs (lot * IZR n - d) <= lot / 2) /\
  forall i j, (i < n_strikes)%nat -> (j < n_assets)%nat ->
    forall eps, 0 < eps ->
      exists delta, 0 < delta /\
        forall lot, 0 < lot -> lot < delta ->
          exists D D' e e',
            d_excess_return junk n_strikes n_assets n_days (fin3 opR)
              (fin3 cdR) (fin2 asR) (Fin rr) = Ok D /\
            d_excess_return junk n_strikes n_assets n_days (fin3 opR)
              (r_deltas (Fin lot) (fin3 cdR)) (fin2 asR) (Fin rr) = Ok D' /\
            excess_return junk n_strikes n_assets n_days (fin3 opR)
              (fin3 cdR) (fin2 asR) (Fin rr) = Ok e /\
            excess_return junk n_strikes n_assets n_days (fin3 opR)
              (r_deltas (Fin lot) (fin3 cdR)) (fin2 asR) (Fin rr) = Ok e' /\
            (forall t, (t < n_days)%nat ->
               exists a b, ((D !!! i) !!! j) !!! t = Fin a /\
                           ((D' !!! i) !!! j) !!! t = Fin b /\
                           Rabs (b - a) < eps) /\
            exists a b, (e !!! i) !!! j = Fin a /\ (e' !!! i) !!! j = Fin b /\
                        Rabs (b - a) < eps.
Proof.
  intros Hop Hcd Has Hd. split.
  { intros lot d Hlot. exists (rint (d / lot)).
    split; [apply lot_round_Fin; lra | apply round_lot_near, Hlot]. }
  intros i j Hi Hj eps Heps.
  set (C := (opR !!! i) !!! j). set (h := (cdR !!! i) !!! j).
  set (P := asR !!! j). set (r := rr / 260).
  set (c := fun t : nat =>
              Rabs (P !!! t - P !!! (t - 1)%nat - r * P !!! (t - 1)%nat)).
  set (B := sum_R (map c (seq 0 n_days))).
  assert (Hc : forall t, 0 <= c t) by (intros t; apply Rabs_pos).
  assert (HB : 0 <= B) by (apply sum_R_nonneg, Hc).
  exists (eps / (B + 1)). split; [apply Rdiv_lt_0_compat; lra |].
  intros lot Hlot Hsmall.
  assert (HlotB : lot / 2 * B < eps).
  { assert (eps = eps / (B + 1) * (B + 1)) by (field; lra). nra. }
  pose proof (shape3_map (round_lot lot) _ _ _ _ Hcd) as Hcd'.
  destruct (excess_return_real junk _ _ _ opR cdR asR rr Hop Hcd Has Hd)
    as (D & e & HD & He & Hcells).
  destruct (excess_return_real junk _ _ _ opR _ asR rr Hop Hcd' Has Hd)
    as (D' & e' & HD' & He' & Hcells').
  rewrite <- (r_deltas_fin3 lot cdR) in HD', He' by lra.
  exists D, D', e, e'.
  split; [exact HD |]. split; [exact HD' |]. split; [exact He |].
  split; [exact He' |].
  destruct (Hcells i j Hi Hj) as [Hday Hsum].
  destruct (Hcells' i j Hi Hj) as [Hday' Hsum'].
  rewrite (map3_row (round_lot lot) n_strikes n_assets n_days) in Hday', Hsum'
    by assumption.
  fold C h P r in Hday, Hsum, Hday', Hsum'.
  assert (Hlen : length h = n_days)
    by (apply (shape2_total n_assets); [apply (shape3_total n_strikes) |];
        assumption).
  assert (Hbound : forall t, (t < n_days)%nat ->
            Rabs (er_row C (map (round_lot lot) h) P r t - er_row C h P r t)
            <= lot / 2 * c t).
  { intros t Ht. unfold er_row. destruct (decide (t = 0%nat)) as [-> | Hne].
    - replace (0 - 0) with 0 by ring. rewrite Rabs_R0.
      pose proof (Hc 0%nat). nra.
    - rewrite er_real_diff, Rabs_mult, Rabs_Ropp.
      rewrite lookup_total_map by lia. fold (c t).
      pose proof (round_lot_near lot (h !!! (t - 1)%nat) Hlot).
      pose proof (Hc t). nra. }
  split.
  - intros t Ht. eexists _, _. split; [apply Hday, Ht |].
    split; [apply Hday', Ht |].
    pose proof (Hbound t Ht).
    assert (c t <= B)
      by (apply (sum_R_elem_le c), elem_of_seq; [exact Hc | lia]).
    nra.
  - eexists _, _. split; [exact Hsum |]. split; [exact Hsum' |].
    eapply Rle_lt_trans; [| exact HlotB].
    apply (sum_R_diff_bound _ _ c). intros t Ht.
    apply Hbound. apply elem_of_seq in Ht. lia.
Qed.

(** One strike, one path of two days; the lot 1/10 rounds the delta 0.53
    to a multiple of 1/10 within 1/20, and below some lot the sums of the
    two hedges differ by less than 1. *)
Lemma lot_rounding_converges_witness :
  (exists n : Z,
     lot_round (Fin (1 / 10)) (Fin (53 / 100)) = Fin (1 / 10 * IZR n) /\
     Rabs (1 / 10 * IZR n - 53 / 100) <= 1 / 10 / 2) /\
  exists delta, 0 < delta /\
    forall lot, 0 < lot -> lot < delta ->
      exists e e',
        excess_return (fun _ => NaN) 1 1 2 (fin3 [[[5; 7]]])
          (fin3 [[[1 / 2; 1 / 2]]]) (fin2 [[100; 102]]) (Fin 0) = Ok e /\
        excess_return (fun _ => NaN) 1 1 2 (fin3 [[[5; 7]]])
          (r_deltas (Fin lot) (fin3 [[[1 / 2; 1 / 2]]])) (fin2 [[100; 102]])
          (Fin 0) = Ok e' /\
        exists a b, (e !!! 0%nat) !!! 0%nat = Fin a /\
                    (e' !!! 0%nat) !!! 0%nat = Fin b /\ Rabs (b - a) < 1.
Proof.
  destruct (lot_rounding_converges (fun _ => NaN) 1 1 2 [[[5; 7]]]
              [[[1 / 2; 1 / 2]]] [[100; 102]] 0) as [Hround Hconv].
  - split; [reflexivity | repeat constructor].
  - split; [reflexivity | repeat constructor].
  - split; [reflexivity | repeat constructor].
  - lia.
  - split; [apply Hround; lra |].
    destruct (Hconv 0%nat 0%nat ltac:(lia) ltac:(lia) 1 ltac:(lra))
      as (delta & Hdelta & Hlots).
    exists delta. split; [exact Hdelta |]. intros lot Hlot Hsmall.
    destruct (Hlots lot Hlot Hsmall) as (D & D' & e & e' & _ & _ & He & He' & _ & Hsum).
    exists e, e'. split; [exact He |]. split; [exact He' | exact Hsum].
Defined.

(** C6 as stated fails for a zero lot: [0 * round(d/0)] is [nan], not the
    delta [d]; here [d = 1/2]. *)
Lemma lot_round_zero_is_nan :
  lot_round (Fin 0) (Fin (1 / 2)) = NaN /\
  lot_round (Fin 0) (Fin (1 / 2)) <> Fin (1 / 2).
Proof.
  rewrite lot_round_zero. split; [reflexivity | discriminate].
Qed.

(** The in-the-money summary as the code computes it (the figures of
    C7).  For finite final prices and strikes the summary holds, per strike [s] and path with final price [x], the
    indicator (1 if [x > s], else 0) and the payoff [max(x - s, 0)];
    [num_ITM] is the sum of the indicators, the number of paths in the
    money; [avg_ITM] is the mean of the indicator-weighted payoff over all
    the paths, i.e. the sum of the payoffs over the number of all paths;
    [stdev_ITM] is the deviation of the indicator-weighted payoff over all
    the paths. *)
Theorem itm_summary (junk : nat -> num) (n_strikes n_assets : nat)
    (xs ss : list R) :
  length xs = n_assets -> length ss = n_strikes -> (1 <= n_assets)%nat ->
  exists M,
    inTheMoney junk n_strikes n_assets (map Fin xs) (map Fin ss) = Ok M /\
    forall i, (i < n_strikes)%nat ->
      let s := ss !!! i in
      (forall p, (p < n_assets)%nat ->
         (M !!! i) !!! p
         = [Fin (if Rlt_dec s (xs !!! p) then 1 else 0);
            Fin (Rmax (xs !!! p - s) 0)]) /\
      num_ITM (M !!! i) = Ok (Fin (INR (count_ITM s xs))) /\
      avg_ITM (M !!! i)
      = Ok (Fin (sum_R (map (fun x => Rmax (x - s) 0) xs) / INR n_assets)) /\
      stdev_ITM (M !!! i)
      = Ok (np_std (map (fun x => Fin ((if Rlt_dec s x then 1 else 0)
                                       * Rmax (x - s) 0)) xs)).
Proof.
  intros Hxs Hss Hn.
  destruct (inTheMoney_rows junk n_strikes n_assets xs ss Hxs Hss)
    as (M & HM & Hrows).
  exists M. split; [exact HM |]. intros i Hi. simpl.
  rewrite (Hrows i Hi). split.
  - intros p Hp. rewrite lookup_total_map by lia. reflexivity.
  - split; [apply num_ITM_rows |].
    split; [| apply stdev_ITM_rows].
    rewrite avg_ITM_rows by lia. rewrite Hxs. reflexivity.
Qed.

(** One strike at 100 and two paths ending at 101 and 99. *)
Lemma itm_summary_witness :
  exists M,
    inTheMoney (fun _ => NaN) 1 2 [Fin 101; Fin 99] [Fin 100] = Ok M /\
    num_ITM (M !!! 0%nat) = Ok (Fin (INR (count_ITM 100 [101; 99]))) /\
    avg_ITM (M !!! 0%nat)
    = Ok (Fin (sum_R (map (fun x => Rmax (x - 100) 0) [101; 99]) / INR 2)).
Proof.
  destruct (itm_summary (fun _ => NaN) 1 2 [101; 99] [100])
    as (M & HM & Hsum); [reflexivity | reflexivity | lia |].
  exists M. split; [exact HM |].
  destruct (Hsum 0%nat ltac:(lia)) as (_ & Hnum & Havg & _).
  split; [exact Hnum | exact Havg].
Defined.

(** C7: the average amount in the money misses its divisor.  With the
    strike 100 and two paths ending at 101 and 99, [avg_ITM] is 1/2 (the
    payoff 1 over both paths, the product with the indicator changing
    nothing), while the mean payoff of the paths in the money, which the
    table prints it as, is 1. *)
Lemma avg_ITM_is_not_conditional :
  exists M,
    inTheMoney (fun _ => NaN) 1 2 [Fin 101; Fin 99] [Fin 100] = Ok M /\
    avg_ITM (M !!! 0%nat) = Ok (Fin (1 / 2)) /\
    cond_mean_ITM 100 [101; 99] = 1 /\
    avg_ITM (M !!! 0%nat) <> Ok (Fin (cond_mean_ITM 100 [101; 99])).
Proof.
  destruct (inTheMoney_rows (fun _ => NaN) 1 2 [101; 99] [100] eq_refl eq_refl)
    as (M & HM & Hrows).
  exists M. split; [exact HM |].
  assert (Havg : avg_ITM (M !!! 0%nat) = Ok (Fin (1 / 2))).
  { rewrite (Hrows 0%nat ltac:(lia)), avg_ITM_rows by (simpl; lia).
    do 2 f_equal. simpl. unfold itm_pay.
    rewrite Rmax_left, Rmax_right by lra. lra. }
  assert (Hcond : cond_mean_ITM 100 [101; 99] = 1).
  { unfold cond_mean_ITM, count_ITM. simpl.
    destruct (Rlt_dec 100 101); [| lra]. destruct (Rlt_dec 100 99); [lra |].
    simpl. unfold itm_pay. rewrite Rmax_left by lra. lra. }
  split; [exact Havg |]. split; [exact Hcond |].
  rewrite Havg, Hcond. intros Heq. injection Heq as Heq. lra.
Qed.

(** C8, as the code has it.  The reductions raise nothing on an empty
    array: the mean and the deviation are [nan] and the sum (the count of
    the summary) is 0; the deviation of a single finite value is 0. *)
Theorem aggregation_empty_and_single :
  np_mean [] = NaN /\ np_std [] = NaN /\ np_sum [] = Fin 0 /\
  avg_ITM [] = Ok NaN /\ stdev_ITM [] = Ok NaN /\ num_ITM [] = Ok (Fin 0) /\
  forall x : R, np_std [Fin x] = Fin 0.
Proof.
  split; [apply np_mean_nil |]. split; [apply np_std_nil |].
  split; [reflexivity |].
  split; [unfold avg_ITM; simpl; rewrite np_mean_nil; reflexivity |].
  split; [unfold stdev_ITM; simpl; rewrite np_std_nil; reflexivity |].
  split; [reflexivity | apply np_std_singleton].
Qed.

(** C8 as stated fails: [er_std] on a row without values returns an array
    that holds [nan]; no exception is raised. *)
Lemma er_std_empty_row_is_nan :
  er_std (fun _ => Fin 0) 1 1 [[[]]] = Ok [[NaN]].
Proof.
  unfold er_std. simpl. rewrite np_std_nil. reflexivity.
Qed.




(** ** Further properties *)

(** X1.  The generator cell draws exactly once per asset and per day after
    the first, asset after asset: the price of asset [i] on day [t >= 1]
    is the price of the day before times [exp(R + v*z)] with [z] the draw
    number [i*(n_days-1) + (t-1)] of the stream, so the pairs (asset, day)
    use the draws [0 .. n_assets*(n_days-1) - 1] once each in the order of
    the loops, and the cell leaves the stream [n_assets * (n_days - 1)]
    draws further. *)
Theorem simulate_draws_consumed (junk : nat -> num) (a : R)
    (n_assets n_days : nat) (g : rng) :
  -1 < a -> (1 <= n_days)%nat ->
  exists assets daily_returns g',
    simulate junk (Fin a) n_assets n_days g = Ok (assets, daily_returns, g') /\
    (forall i t, (i < n_assets)%nat -> (1 <= t < n_days)%nat ->
       exists p,
         get2 assets (i, (t - 1)%nat) = Ok (Fin p) /\
         get2 assets (i, t)
         = Ok (Fin (p * exp (ln (1 + a) / 260
                             + a / sqrt 260
                               * g (i * (n_days - 1) + (t - 1))%nat)))) /\
    forall n, g' n = g (n + n_assets * (n_days - 1))%nat.
Proof.
  intros Ha Hn.
  destruct (simulate_spec junk a n_assets n_days g Ha Hn)
    as (assets & daily_returns & g' & Hsim & Hshape & _ & Hg & Hrows).
  exists assets, daily_returns, g'. split; [exact Hsim |].
  split; [| exact Hg].
  intros i t Hi Ht.
  destruct (Hrows i Hi) as (price & Hprice & (Hlen & _ & _ & Hstep) & _).
  destruct (Hstep t Ht) as (p & Hp & Hpt).
  exists p. unfold get2, get_in. simpl.
  rewrite (proj2 (getitem_Ok _ _ _) Hprice). simpl.
  split; apply getitem_Ok; assumption.
Qed.

(** The notebook's run on the stream 0, 1, 2, ...: the second asset starts
    at draw 24, and the run leaves the stream 250 * 24 draws further. *)
Lemma simulate_draws_consumed_witness :
  exists assets daily_returns g',
    simulate (fun _ => NaN) ar N_ASSETS N_DAYS INR
    = Ok (assets, daily_returns, g') /\
    (exists p,
       get2 assets (1%nat, 0%nat) = Ok (Fin p) /\
       get2 assets (1%nat, 1%nat)
       = Ok (Fin (p * exp (ln (1 + 15 / 100) / 260
                           + 15 / 100 / sqrt 260 * INR 24)))) /\
    g' 0%nat = INR (250 * 24).
Proof.
  destruct (simulate_draws_consumed (fun _ => NaN) (15 / 100) N_ASSETS N_DAYS INR)
    as (assets & daily_returns & g' & Hsim & Hdraw & Hg);
    [lra | unfold N_DAYS; lia |].
  exists assets, daily_returns, g'. split; [exact Hsim |]. split.
  - exact (Hdraw 1%nat 1%nat ltac:(unfold N_ASSETS; lia)
             ltac:(unfold N_DAYS; lia)).
  - rewrite Hg. reflexivity.
Defined.

(** The pricer of the draft notebook returns the call price of the
    pricer of [presentation.ipynb]. *)
Theorem bscall_draft_is_price (price strike rfr vol div T : num) :
  bscall_draft price strike rfr vol div T
  = (bscall price strike rfr vol div T).1.
Proof. reflexivity. Qed.

(** The day loop of the draft notebook's grid, for the asset [i] and the
    strike [k]: [T=(25-j)], [price=assets[i,j]] and
    [calls[j]=bscall(price,k,rfr,vol,div,T/260)]; the row is then stored
    at [option_prices[strikes.index(k)][i]]. *)
Definition calls_draft (junk : nat -> num) (n_days : nat)
    (assets : list (list num)) (i : nat) (k rfr vol div : num)
    : res (list num) :=
  for_ (range 0 n_days) (fun j calls =>
    let T := Fin (IZR (Z.of_nat n_days - Z.of_nat j)) in
    price ← get2 assets (i, j);
    tte ← py_div T (Fin 260);
    setitem calls j (bscall_draft price k rfr vol div tte))
    (np_empty junk n_days).

(** X2.  The draft notebook prices day [j] of a path with the same time to
    expiry [(horizon - j)/260], positive on every day of the path. *)
Theorem calls_draft_time_to_expiry (junk : nat -> num)
    (n_assets n_days : nat) (assets : list (list num)) (i : nat)
    (k rfr vol div : num) :
  shape2 n_assets n_days assets -> (i < n_assets)%nat ->
  exists calls,
    calls_draft junk n_days assets i k rfr vol div = Ok calls /\
    length calls = n_days /\
    forall j, (j < n_days)%nat ->
      0 < IZR (Z.of_nat n_days - Z.of_nat j) / 260 /\
      calls !!! j
      = bscall_draft ((assets !!! i) !!! j) k rfr vol div
          (Fin (IZR (Z.of_nat n_days - Z.of_nat j) / 260)).
Proof.
  intros Has Hi. unfold calls_draft.
  destruct (for_fill _ _ _ _ (fun j : nat => j)
              (fun j => bscall_draft ((assets !!! i) !!! j) k rfr vol div
                          (tte n_days j))
              (fun j calls =>
                 price ← get2 assets (i, j);
                 tte ← py_div (Fin (IZR (Z.of_nat n_days - Z.of_nat j))) (Fin 260);
                 setitem calls j (bscall_draft price k rfr vol div tte))
              (range 0 n_days) (np_empty junk n_days)
              (cells_list n_days) (np_empty_shape junk n_days))
    as (calls & Hcalls & Hlen & Hin & _).
  - intros j Hj. apply elem_of_range in Hj. lia.
  - intros j s Hj. apply elem_of_range in Hj.
    rewrite (get2_total n_assets n_days) by (assumption || lia). simpl.
    rewrite py_div_260. reflexivity.
  - intros a b _ _ ->. reflexivity.
  - exists calls. split; [exact Hcalls |]. split; [exact Hlen |].
    intros j Hj. destruct (tte_pos n_days j Hj) as [Htte Hpos].
    split; [exact Hpos |]. rewrite <- Htte.
    assert (Hget : getitem calls j = Ok (bscall_draft ((assets !!! i) !!! j) k
                                           rfr vol div (tte n_days j)))
      by (apply Hin, elem_of_range; lia).
    apply getitem_Ok in Hget. apply list_lookup_total_correct, Hget.
Qed.

(** One asset over two days, struck at 100. *)
Lemma calls_draft_time_to_expiry_witness :
  exists calls,
    calls_draft (fun _ => NaN) 2 [[Fin 100; Fin 101]] 0 (Fin 100) rfr
      (Fin (15 / 100)) div = Ok calls /\
    calls !!! 1%nat
    = bscall_draft (Fin 101) (Fin 100) rfr (Fin (15 / 100)) div (Fin (1 / 260)).
Proof.
  destruct (calls_draft_time_to_expiry (fun _ => NaN) 1 2 [[Fin 100; Fin 101]]
              0 (Fin 100) rfr (Fin (15 / 100)) div)
    as (calls & Hcalls & _ & Hcells).
  - split; [reflexivity | repeat constructor].
  - lia.
  - exists calls. split; [exact Hcalls |].
    destruct (Hcells 1%nat ltac:(lia)) as [_ Hcell]. exact Hcell.
Defined.

(** * The rest of the notebooks *)

(** ** The pricer outside its domain *)



Lemma fadd_nan_l (a : num) : (NaN + a)%num = NaN.
Proof. destruct a; reflexivity. Qed.

Lemma fadd_nan_r (a : num) : (a + NaN)%num = NaN.
Proof. destruct a; reflexivity. Qed.

Lemma fsub_nan_l (a : num) : (NaN - a)%num = NaN.
Proof. destruct a; reflexivity. Qed.

Lemma fsub_nan_r (a : num) : (a - NaN)%num = NaN.
Proof. destruct a; reflexivity. Qed.

Lemma fmul_nan_l (a : num) : (NaN * a)%num = NaN.
Proof. destruct a; reflexivity. Qed.

Lemma fmul_nan_r (a : num) : (a * NaN)%num = NaN.
Proof. destruct a; reflexivity. Qed.

Lemma fdiv_nan_l (a : num) : (NaN / a)%num = NaN.
Proof. destruct a; reflexivity. Qed.

Lemma fdiv_nan_r (a : num) : (a / NaN)%num = NaN.
Proof. destruct a; reflexivity. Qed.

Lemma fneg_nan : (- NaN)%num = NaN.
Proof. reflexivity. Qed.

Lemma fpow2_nan : fpow2 NaN = NaN.
Proof. reflexivity. Qed.

Lemma np_log_nan : np_log NaN = NaN.
Proof. reflexivity. Qed.

Lemma np_sqrt_nan : np_sqrt NaN = NaN.
Proof. reflexivity. Qed.

Lemma np_exp_nan : np_exp NaN = NaN.
Proof. reflexivity. Qed.

Lemma norm_cdf_nan : norm_cdf NaN = NaN.
Proof. reflexivity. Qed.

Create Rewrite HintDb nan.
#[global] Hint Rewrite fadd_nan_l fadd_nan_r fsub_nan_l fsub_nan_r fmul_nan_l
  fmul_nan_r fdiv_nan_l fdiv_nan_r fneg_nan fpow2_nan np_log_nan np_sqrt_nan
  np_exp_nan norm_cdf_nan : nan.





(** The sign of [ln(S/K) + (r-q)*T] is the sign of the discounted
    intrinsic value [S*exp(-q*T) - K*exp(-r*T)]. *)
Lemma forward_moneyness_pos (S K r q T : R) :
  0 < S -> 0 < K ->
  (0 < ln (S / K) + (r - q) * T <-> 0 < S * exp (- q * T) - K * exp (- r * T)).
Proof.
  intros HS HK.
  assert (HSK : 0 < S / K) by (apply Rdiv_lt_0_compat; assumption).
  assert (Hid : S * exp (- q * T)
                = K * exp (- r * T) * exp (ln (S / K) + (r - q) * T)).
  { rewrite Rmult_assoc, <- exp_plus.
    replace (- r * T + (ln (S / K) + (r - q) * T)) with (ln (S / K) + - q * T)
      by ring.
    rewrite exp_plus, exp_ln by exact HSK. field. lra. }
  pose proof (exp_pos (- r * T)) as He.
  assert (HKe : 0 < K * exp (- r * T)) by (apply Rmult_lt_0_compat; assumption).
  rewrite Hid. split; intros H.
  - assert (1 < exp (ln (S / K) + (r - q) * T))
      by (rewrite <- exp_0; apply exp_increasing, H).
    nra.
  - apply exp_lt_inv. rewrite exp_0.
    assert (0 < K * exp (- r * T) * (exp (ln (S / K) + (r - q) * T) - 1)) by lra.
    destruct (Rlt_dec 1 (exp (ln (S / K) + (r - q) * T))); [assumption | nra].
Qed.

Lemma forward_moneyness_neg (S K r q T : R) :
  0 < S -> 0 < K ->
  (ln (S / K) + (r - q) * T < 0 <-> S * exp (- q * T) - K * exp (- r * T) < 0).
Proof.
  intros HS HK.
  assert (HSK : 0 < S / K) by (apply Rdiv_lt_0_compat; assumption).
  assert (Hid : S * exp (- q * T)
                = K * exp (- r * T) * exp (ln (S / K) + (r - q) * T)).
  { rewrite Rmult_assoc, <- exp_plus.
    replace (- r * T + (ln (S / K) + (r - q) * T)) with (ln (S / K) + - q * T)
      by ring.
    rewrite exp_plus, exp_ln by exact HSK. field. lra. }
  pose proof (exp_pos (- r * T)) as He.
  assert (HKe : 0 < K * exp (- r * T)) by (apply Rmult_lt_0_compat; assumption).
  rewrite Hid. split; intros H.
  - assert (exp (ln (S / K) + (r - q) * T) < 1)
      by (rewrite <- exp_0; apply exp_increasing, H).
    nra.
  - apply exp_lt_inv. rewrite exp_0.
    destruct (Rlt_dec (exp (ln (S / K) + (r - q) * T)) 1); [assumption | nra].
Qed.

(** X4.  With a zero volatility and a positive time to expiry the divisor
    of [d1] is zero again: the pricer returns the discounted intrinsic
    value [max(S*exp(-q*T) - K*exp(-r*T), 0)] with delta 1 when that
    difference is positive and delta 0 when it is negative, and [nan] for
    both when it is zero. *)
Theorem bscall_zero_volatility (S K r q T : R) :
  0 < S -> 0 < K -> 0 < T ->
  let F := S * exp (- q * T) - K * exp (- r * T) in
  bscall (Fin S) (Fin K) (Fin r) (Fin 0) (Fin q) (Fin T)
  = if Rlt_dec 0 F then (Fin (Rmax F 0), Fin 1)
    else if Rlt_dec F 0 then (Fin (Rmax F 0), Fin 0)
    else (NaN, NaN).
Proof.
  intros HS HK HT F.
  assert (Hs : 0 < sqrt T) by (apply sqrt_lt_R0; exact HT).
  pose proof (forward_moneyness_pos S K r q T HS HK) as Hpos.
  pose proof (forward_moneyness_neg S K r q T HS HK) as Hneg.
  fold F in Hpos, Hneg.
  unfold bscall.
  rewrite (fdiv_Fin S K) by lra.
  rewrite np_log_Fin by (apply Rdiv_lt_0_compat; assumption).
  rewrite np_sqrt_Fin by lra.
  rewrite fpow2_Fin, (fdiv_Fin (0 * 0) 2) by lra.
  rewrite !fneg_Fin, !fsub_Fin, !fadd_Fin, !fmul_Fin, !fadd_Fin.
  rewrite fdiv_zero by ring.
  replace (ln (S / K) + (r - q + 0 * 0 / 2) * T)
    with (ln (S / K) + (r - q) * T) by field.
  destruct (Rlt_dec 0 F) as [HF | HF].
  - rewrite inf_scaled_pos by (apply Hpos, HF).
    rewrite Rmax_left by lra.
    unfold np_exp, norm_cdf, fsub, fneg, fadd, fmul. unfold F.
    do 2 f_equal. ring.
  - destruct (Rlt_dec F 0) as [HF' | HF'].
    + rewrite inf_scaled_neg by (apply Hneg, HF').
      rewrite Rmax_right by lra.
      unfold np_exp, norm_cdf, fsub, fneg, fadd, fmul.
      do 2 f_equal. ring.
    + rewrite inf_scaled_zero; [reflexivity |].
      destruct (Rtotal_order (ln (S / K) + (r - q) * T) 0) as [H | [H | H]];
        [apply Hneg in H; lra | exact H | apply Hpos in H; lra].
Qed.

(** Spot 100 against the strike 97 without dividend: the forward value
    [100 - 97*exp(-r*T)] is positive at the rate 5%. *)
Lemma bscall_zero_volatility_witness :
  (bscall (Fin 100) (Fin 97) (Fin (5 / 100)) (Fin 0) (Fin 0) (Fin (25 / 260))).2
  = Fin 1.
Proof.
  rewrite (bscall_zero_volatility 100 97 (5 / 100) 0 (25 / 260)) by lra.
  simpl.
  assert (exp (- (5 / 100) * (25 / 260)) < 1).
  { rewrite <- exp_0. apply exp_increasing. lra. }
  assert (exp (- 0 * (25 / 260)) = 1)
    by (replace (- 0 * (25 / 260)) with 0 by lra; apply exp_0).
  destruct (Rlt_dec 0 (100 * exp (- 0 * (25 / 260))
                       - 97 * exp (- (5 / 100) * (25 / 260))));
    [reflexivity | nra].
Defined.

(** X5.  A worthless asset: with the spot at zero (strike, volatility and
    time positive) the price and the delta are 0; a negative spot, which
    has no logarithm, gives [nan] for both. *)
Theorem bscall_nonpositive_spot (S K r v q T : R) :
  S <= 0 -> 0 < K -> 0 < v -> 0 < T ->
  bscall (Fin S) (Fin K) (Fin r) (Fin v) (Fin q) (Fin T)
  = if Rlt_dec S 0 then (NaN, NaN) else (Fin 0, Fin 0).
Proof.
  intros HS HK Hv HT.
  assert (Hs : 0 < sqrt T) by (apply sqrt_lt_R0; exact HT).
  unfold bscall. rewrite (fdiv_Fin S K) by lra.
  destruct (Rlt_dec S 0) as [Hneg | Hzero].
  - assert (HSK : S / K < 0).
    { unfold Rdiv. assert (0 < / K) by (apply Rinv_0_lt_compat; exact HK). nra. }
    unfold np_log. destruct (Rlt_dec 0 (S / K)); [lra |].
    destruct (Rlt_dec (S / K) 0); [| lra].
    autorewrite with nan. reflexivity.
  - assert (S = 0) as -> by lra.
    replace (0 / K) with 0 by (field; lra).
    unfold np_log. destruct (Rlt_dec 0 0); [lra |].
    rewrite np_sqrt_Fin by lra.
    rewrite fpow2_Fin, (fdiv_Fin (v * v) 2) by lra.
    rewrite !fneg_Fin, !fsub_Fin, !fadd_Fin, !fmul_Fin.
    assert (Hd : 0 < v * sqrt T) by nra.
    unfold fadd, fdiv. destruct (Rlt_dec (v * sqrt T) 0); [lra |].
    unfold np_exp, norm_cdf, fsub, fneg, fadd, fmul.
    do 2 f_equal. ring.
Qed.

Lemma bscall_nonpositive_spot_witness :
  bscall (Fin 0) (Fin 100) (Fin (5 / 100)) (Fin (15 / 100)) (Fin 0)
    (Fin (25 / 260)) = (Fin 0, Fin 0).
Proof.
  rewrite (bscall_nonpositive_spot 0 100 (5 / 100) (15 / 100) 0 (25 / 260))
    by lra.
  destruct (Rlt_dec 0 0); [lra | reflexivity].
Defined.

(** ** The trading-strategy table *)










Section Strategy.
Variable junk : nat -> num.
Variable N : num -> num.
Variable NR : R -> R.
Variables n_strikes n_vols : nat.
Variables ks vs : list R.
Variables r q : R.
Hypothesis HN : forall x, N (Fin x) = Fin (NR x).
Hypothesis Hks : length ks = n_strikes.
Hypothesis Hvs : length vs = n_vols.
Hypothesis Hkpos : Forall (fun K => 0 < K) ks.
Hypothesis Hvpos : Forall (fun v => 0 < v) vs.



End Strategy.










(** ** The path generator in closed form *)

(** The sum of the [t] draws from number [off] on. *)
Fixpoint draws_sum (g : rng) (off t : nat) : R :=
  match t with
  | O => 0
  | S t' => draws_sum g off t' + g (off + t')%nat
  end.

(** The price of day [t] on the path whose first draw is number [off]:
    [100 * exp(t*R + v*(z_0 + ... + z_(t-1)))]. *)
Definition path_real (a : R) (g : rng) (off t : nat) : R :=
  100 * exp (INR t * R_real a + v_real a * draws_sum g off t).

Definition paths_real (a : R) (n_assets n_days : nat) (g : rng)
    : list (list num) :=
  map (fun i => map (fun t => Fin (path_real a g (i * (n_days - 1)) t))
                 (seq 0 n_days))
    (seq 0 n_assets).

(** The last day's log return of every path, in every cell of its row. *)
Definition last_returns_real (a : R) (n_assets n_days : nat) (g : rng)
    : list (list num) :=
  map (fun i => replicate n_days
                  (Fin (R_real a
                        + v_real a * g (i * (n_days - 1) + (n_days - 2))%nat)))
    (seq 0 n_assets).

Lemma list_eq_map_seq {A} (l : list A) (n : nat) (f : nat -> A) :
  length l = n -> (forall i, (i < n)%nat -> l !! i = Some (f i)) ->
  l = map f (seq 0 n).
Proof.
  intros Hl H. apply list_eq. intros i.
  change (map f (seq 0 n)) with (f <$> seq 0 n). rewrite list_lookup_fmap.
  destruct (decide (i < n)%nat) as [Hi | Hi].
  - rewrite (H i Hi), lookup_seq_lt by exact Hi. reflexivity.
  - rewrite lookup_ge_None_2 by lia.
    rewrite lookup_seq_ge by lia. reflexivity.
Qed.

Lemma path_real_pos (a : R) (g : rng) (off t : nat) : 0 < path_real a g off t.
Proof. unfold path_real. pose proof (exp_pos (INR t * R_real a + v_real a * draws_sum g off t)). lra. Qed.

Lemma path_real_0 (a : R) (g : rng) (off : nat) : path_real a g off 0 = 100.
Proof.
  unfold path_real. simpl.
  replace (0 * R_real a + v_real a * 0) with 0 by ring.
  rewrite exp_0. ring.
Qed.

Lemma path_real_S (a : R) (g : rng) (off t : nat) :
  path_real a g off (S t)
  = path_real a g off t * exp (R_real a + v_real a * g (off + t)%nat).
Proof.
  unfold path_real. rewrite S_INR. simpl draws_sum.
  rewrite Rmult_assoc, <- exp_plus. do 2 f_equal. ring.
Qed.

Lemma path_ok_closed (a : R) (n_days : nat) (g : rng) (off : nat)
    (price : list num) :
  path_ok a n_days g off price ->
  price = map (fun t => Fin (path_real a g off t)) (seq 0 n_days).
Proof.
  intros (Hlen & H0 & _ & Hstep).
  apply list_eq_map_seq; [exact Hlen |].
  induction i as [| t IH]; intros Ht.
  - rewrite H0, path_real_0. reflexivity.
  - destruct (Hstep (S t) ltac:(lia)) as (x & Hx & Hxt).
    replace (S t - 1)%nat with t in * by lia.
    rewrite IH in Hx by lia. injection Hx as <-.
    rewrite Hxt, path_real_S. reflexivity.
Qed.

Lemma simulate_closed (junk : nat -> num) (a : R) (n_assets n_days : nat)
    (g0 : rng) :
  -1 < a -> (1 <= n_days)%nat ->
  exists daily_returns g,
    simulate junk (Fin a) n_assets n_days g0
    = Ok (paths_real a n_assets n_days g0, daily_returns, g) /\
    shape2 n_assets n_days daily_returns /\
    (forall n, g n = g0 (n + n_assets * (n_days - 1))%nat) /\
    ((2 <= n_days)%nat ->
       daily_returns = last_returns_real a n_assets n_days g0).
Proof.
  intros Ha Hn.
  destruct (simulate_spec junk a n_assets n_days g0 Ha Hn)
    as (assets & dr & g & Hsim & HA & HD & Hg & Hrows).
  exists dr, g. split; [| split; [exact HD | split; [exact Hg |]]].
  - rewrite Hsim. do 3 f_equal.
    apply list_eq_map_seq; [apply HA |].
    intros i Hi. destruct (Hrows i Hi) as (price & -> & Hp & _).
    rewrite (path_ok_closed _ _ _ _ _ Hp). reflexivity.
  - intros H2. apply list_eq_map_seq; [apply HD |].
    intros i Hi. destruct (Hrows i Hi) as (price & _ & Hp & Hlast).
    destruct (Hlast H2) as (x & y & Hx & Hy & ->).
    rewrite (path_ok_closed _ _ _ _ _ Hp) in Hx, Hy.
    change (map ?f ?l) with (f <$> l) in Hx, Hy.
    rewrite list_lookup_fmap, lookup_seq_lt in Hx, Hy by lia.
    simpl in Hx, Hy. injection Hy as <-.
    replace (n_days - 1)%nat with (S (n_days - 2)) in Hx at 2 by lia.
    rewrite path_real_S in Hx. injection Hx as <-.
    pose proof (path_real_pos a g0 (i * (n_days - 1)) (n_days - 2)) as Hpos.
    do 3 f_equal.
    replace (path_real a g0 (i * (n_days - 1)) (n_days - 2)
             * exp (R_real a
                    + v_real a * g0 (i * (n_days - 1) + (n_days - 2))%nat)
             / path_real a g0 (i * (n_days - 1)) (n_days - 2))
      with (exp (R_real a
                 + v_real a * g0 (i * (n_days - 1) + (n_days - 2))%nat))
      by (field; lra).
    apply ln_exp.
Qed.

(** X7.  Every generated path is a geometric random walk in closed form:
    the price of asset [i] on day [t] is
    [100 * exp(t*R + v*(z_0 + ... + z_(t-1)))], where [R = log(1+ar)/260],
    [v = ar/sqrt(260)] and the [z] are the path's own draws, which start
    at draw number [i * (n_days - 1)] of the stream. *)
Theorem simulate_random_walk (junk : nat -> num) (a : R)
    (n_assets n_days : nat) (g : rng) :
  -1 < a -> (1 <= n_days)%nat ->
  exists assets daily_returns g',
    simulate junk (Fin a) n_assets n_days g = Ok (assets, daily_returns, g') /\
    forall i t, (i < n_assets)%nat -> (t < n_days)%nat ->
      get2 assets (i, t)
      = Ok (Fin (100 * exp (INR t * (ln (1 + a) / 260)
                            + a / sqrt 260
                              * draws_sum g (i * (n_days - 1)) t))).
Proof.
  intros Ha Hn.
  destruct (simulate_closed junk a n_assets n_days g Ha Hn)
    as (dr & g' & Hsim & _).
  exists (paths_real a n_assets n_days g), dr, g'. split; [exact Hsim |].
  intros i t Hi Ht. unfold get2, get_in, paths_real. simpl.
  rewrite (proj2 (getitem_Ok _ _ _)
             (eq_trans (list_lookup_fmap _ _ _)
                (f_equal _ (lookup_seq_lt 0 n_assets i Hi)))).
  simpl. apply getitem_Ok.
  change (map ?f ?l) with (f <$> l).
  rewrite list_lookup_fmap, lookup_seq_lt by exact Ht. reflexivity.
Qed.

(** The second day of the second asset of a two-day run uses the second
    draw. *)
Lemma simulate_random_walk_witness :
  exists assets daily_returns g',
    simulate (fun _ => NaN) ar 2 2 INR = Ok (assets, daily_returns, g') /\
    get2 assets (1%nat, 1%nat)
    = Ok (Fin (100 * exp (INR 1 * (ln (1 + 15 / 100) / 260)
                          + 15 / 100 / sqrt 260 * draws_sum INR 1 1))).
Proof.
  destruct (simulate_random_walk (fun _ => NaN) (15 / 100) 2 2 INR)
    as (assets & daily_returns & g' & Hsim & Hget); [lra | lia |].
  exists assets, daily_returns, g'. split; [exact Hsim |].
  apply (Hget 1%nat 1%nat); lia.
Defined.

(** X8.  Nothing of what [np.empty] finds in memory reaches the results of
    the generator: with at least two days, two runs on the same stream
    give the same prices and the same returns whatever the arrays held
    before. *)
Theorem simulate_ignores_memory (junk junk' : nat -> num) (a : R)
    (n_assets n_days : nat) (g : rng) :
  -1 < a -> (2 <= n_days)%nat ->
  exists assets daily_returns g1 g2,
    simulate junk (Fin a) n_assets n_days g = Ok (assets, daily_returns, g1) /\
    simulate junk' (Fin a) n_assets n_days g = Ok (assets, daily_returns, g2) /\
    forall n, g1 n = g2 n.
Proof.
  intros Ha Hn.
  destruct (simulate_closed junk a n_assets n_days g Ha ltac:(lia))
    as (dr1 & g1 & Hsim1 & _ & Hg1 & Hdr1).
  destruct (simulate_closed junk' a n_assets n_days g Ha ltac:(lia))
    as (dr2 & g2 & Hsim2 & _ & Hg2 & Hdr2).
  exists (paths_real a n_assets n_days g), dr1, g1, g2.
  split; [exact Hsim1 |]. split.
  - rewrite Hsim2, (Hdr1 Hn), (Hdr2 Hn). reflexivity.
  - intros n. rewrite Hg1, Hg2. reflexivity.
Qed.

Lemma simulate_ignores_memory_witness :
  exists assets daily_returns g1 g2,
    simulate (fun _ => NaN) ar N_ASSETS N_DAYS INR
    = Ok (assets, daily_returns, g1) /\
    simulate (fun n => Fin (INR n)) ar N_ASSETS N_DAYS INR
    = Ok (assets, daily_returns, g2) /\
    forall n, g1 n = g2 n.
Proof.
  apply (simulate_ignores_memory (fun _ => NaN) (fun n => Fin (INR n))
           (15 / 100) N_ASSETS N_DAYS INR); [lra | unfold N_DAYS; lia].
Defined.

(** X9.  An annual figure [ar] of -1 or less stops the generator cell at
    [log(1+ar)] with a [ValueError], before any path is made. *)
Theorem simulate_drift_domain_error (junk : nat -> num) (a : R)
    (n_assets n_days : nat) (g : rng) :
  a <= -1 -> simulate junk (Fin a) n_assets n_days g = Raise ValueError.
Proof.
  intros Ha. unfold simulate. rewrite (R_daily_raises a Ha). reflexivity.
Qed.

Lemma simulate_drift_domain_error_witness :
  simulate (fun _ => NaN) (Fin (-1)) N_ASSETS N_DAYS INR = Raise ValueError.
Proof.
  apply (simulate_drift_domain_error (fun _ => NaN) (-1) N_ASSETS N_DAYS INR).
  lra.
Defined.

(** X10.  With a horizon of no days the first asset already fails: the
    write [price[0]=100] falls outside the empty array, an [IndexError]. *)
Theorem simulate_no_days_index_error (junk : nat -> num) (a : R)
    (n_assets : nat) (g : rng) :
  -1 < a -> (1 <= n_assets)%nat ->
  simulate junk (Fin a) n_assets 0 g = Raise IndexError.
Proof.
  intros Ha Hn. unfold simulate.
  rewrite R_daily_val, v_daily_val by exact Ha. simpl.
  destruct n_assets as [| n]; [lia |]. reflexivity.
Qed.

Lemma simulate_no_days_index_error_witness :
  simulate (fun _ => NaN) ar N_ASSETS 0 INR = Raise IndexError.
Proof.
  apply (simulate_no_days_index_error (fun _ => NaN) (15 / 100) N_ASSETS INR);
    [lra | unfold N_ASSETS; lia].
Defined.

(** ** The rates of return *)

(** [a / b] and [(a - 1) * 100] on arrays, elementwise. *)
Definition arr_div (a b : list num) : list num := zip_with fdiv a b.

(** [rates_of_return = ((final_prices/assets[:,0])-1)*100], for an array
    [assets] with at least one column. *)
Definition rates_of_return (assets : list (list num)) : res (list num) :=
  fp ← final_prices assets;
  first ← column assets 0;
  mret (map (fun x => ((x - Fin 1) * Fin 100)%num) (arr_div fp first)).

(** [mean_annualized_RoR] and [stdev_annualized_RoR] *)
Definition ror_summary (assets : list (list num)) : res (num * num) :=
  rates ← rates_of_return assets;
  f ← py_div (Fin 260) (Fin 24);
  let mean_annualized_RoR := (np_mean rates * f)%num in
  a ← annualize;
  let stdev_annualized_RoR := (np_std rates * a)%num in
  mret (mean_annualized_RoR, stdev_annualized_RoR).

Lemma last_column_map {A V} (f : A -> list V) (g : A -> V) (l : list A) :
  (forall a, a ∈ l -> last (f a) = Some (g a)) ->
  last_column (map f l) = Ok (map g l).
Proof.
  unfold last_column. induction l as [| a l IH]; intros H; [reflexivity |].
  simpl. rewrite (H a (list_elem_of_here _ _)). simpl.
  unfold fmap in IH. simpl in IH.
  rewrite IH; [reflexivity |].
  intros b Hb. apply H, list_elem_of_further, Hb.
Qed.

Lemma last_map_seq {V} (f : nat -> V) (n : nat) :
  (1 <= n)%nat -> last (map f (seq 0 n)) = Some (f (n - 1)%nat).
Proof.
  intros Hn. destruct n as [| n]; [lia |].
  rewrite seq_S, map_app. simpl. rewrite last_snoc.
  do 2 f_equal. lia.
Qed.

Lemma zip_with_map_same {A B C D} (h : B -> C -> D) (f : A -> B) (g : A -> C)
    (l : list A) :
  zip_with h (map f l) (map g l) = map (fun a => h (f a) (g a)) l.
Proof. induction l as [| a l IH]; simpl; [| rewrite IH]; reflexivity. Qed.

(** The rate of return of the path whose first draw is number [off]. *)
Definition ror_real (a : R) (n_days : nat) (g : rng) (off : nat) : R :=
  (exp (INR (n_days - 1) * R_real a
        + v_real a * draws_sum g off (n_days - 1)) - 1) * 100.

Lemma rates_of_return_closed (a : R) (n_assets n_days : nat) (g : rng) :
  (1 <= n_days)%nat ->
  rates_of_return (paths_real a n_assets n_days g)
  = Ok (map (fun i => Fin (ror_real a n_days g (i * (n_days - 1))))
          (seq 0 n_assets)).
Proof.
  intros Hn. unfold rates_of_return, final_prices, paths_real.
  rewrite (last_column_map _
             (fun i => Fin (path_real a g (i * (n_days - 1)) (n_days - 1))))
    by (intros i _;
        apply (last_map_seq (fun t => Fin (path_real a g (i * (n_days - 1)) t))
                 n_days Hn)).
  simpl.
  rewrite (column_map _ 0
             (fun i => Fin (path_real a g (i * (n_days - 1)) 0)))
    by (intros i _; change (map ?f ?l) with (f <$> l);
        rewrite list_lookup_fmap, lookup_seq_lt by lia; reflexivity).
  simpl. unfold arr_div. rewrite zip_with_map_same, map_map.
  f_equal. apply map_ext. intros i.
  rewrite path_real_0, fdiv_Fin, fsub_Fin, fmul_Fin by lra.
  f_equal. unfold ror_real, path_real. field.
Qed.

(** X11.  On the generated paths the rate of return of asset [i] is
    [(exp((n_days-1)*R + v*(z_0 + ... + z_(n_days-2))) - 1) * 100], the
    compounded daily returns of its own draws in percent: a number above
    -100 on every run, and 0 when the horizon is a single day. *)
Theorem rates_of_return_generated (junk : nat -> num) (a : R)
    (n_assets n_days : nat) (g : rng) :
  -1 < a -> (1 <= n_days)%nat ->
  exists assets daily_returns g' rates,
    simulate junk (Fin a) n_assets n_days g = Ok (assets, daily_returns, g') /\
    rates_of_return assets = Ok rates /\
    length rates = n_assets /\
    forall i, (i < n_assets)%nat ->
      exists x, rates !! i = Some (Fin x) /\ -100 < x /\
        x = (exp (INR (n_days - 1) * (ln (1 + a) / 260)
                  + a / sqrt 260
                    * draws_sum g (i * (n_days - 1)) (n_days - 1)) - 1) * 100 /\
        (n_days = 1%nat -> x = 0).
Proof.
  intros Ha Hn.
  destruct (simulate_closed junk a n_assets n_days g Ha Hn)
    as (dr & g' & Hsim & _).
  eexists _, dr, g', _. split; [exact Hsim |].
  split; [apply rates_of_return_closed; exact Hn |].
  split; [rewrite length_map, length_seq; reflexivity |].
  intros i Hi. exists (ror_real a n_days g (i * (n_days - 1))).
  split; [| split; [| split]].
  - change (map ?f ?l) with (f <$> l).
    rewrite list_lookup_fmap, lookup_seq_lt by exact Hi. reflexivity.
  - unfold ror_real.
    pose proof (exp_pos (INR (n_days - 1) * R_real a
                         + v_real a
                           * draws_sum g (i * (n_days - 1)) (n_days - 1))).
    lra.
  - reflexivity.
  - intros ->. unfold ror_real. simpl.
    replace (0 * R_real a + v_real a * 0) with 0 by ring.
    rewrite exp_0. ring.
Qed.

Lemma rates_of_return_generated_witness :
  exists assets daily_returns g' rates,
    simulate (fun _ => NaN) ar N_ASSETS N_DAYS INR
    = Ok (assets, daily_returns, g') /\
    rates_of_return assets = Ok rates /\
    length rates = N_ASSETS /\
    exists x, rates !! 0%nat = Some (Fin x) /\ -100 < x.
Proof.
  destruct (rates_of_return_generated (fun _ => NaN) (15 / 100)
              N_ASSETS N_DAYS INR)
    as (assets & daily_returns & g' & rates & Hsim & Hror & Hlen & Hrates);
    [lra | unfold N_DAYS; lia |].
  exists assets, daily_returns, g', rates.
  split; [exact Hsim |]. split; [exact Hror |]. split; [exact Hlen |].
  destruct (Hrates 0%nat ltac:(unfold N_ASSETS; lia)) as (x & Hx & Hpos & _).
  exists x. split; [exact Hx | exact Hpos].
Defined.

(** The mean and the deviation of real numbers. *)
Definition mean_R (xs : list R) : R := sum_R xs / INR (length xs).

Definition std_R (xs : list R) : R :=
  sqrt (mean_R (map (fun x => Rabs (x - mean_R xs) * Rabs (x - mean_R xs)) xs)).

Lemma np_mean_Fin (xs : list R) :
  xs <> [] -> np_mean (map Fin xs) = Fin (mean_R xs).
Proof.
  intros Hxs. unfold np_mean, mean_R. rewrite np_sum_Fin, length_map.
  apply fdiv_Fin. apply Rgt_not_eq, lt_0_INR.
  destruct xs; [contradiction | simpl; lia].
Qed.

Lemma mean_R_nonneg (xs : list R) :
  Forall (fun x => 0 <= x) xs -> 0 <= mean_R xs.
Proof.
  intros H. unfold mean_R.
  assert (Hs : 0 <= sum_R xs).
  { induction H as [| x xs Hx _ IH]; simpl; lra. }
  destruct xs as [| x xs].
  - simpl. unfold Rdiv. rewrite Rinv_0. lra.
  - apply Rmult_le_pos; [exact Hs |].
    apply Rlt_le, Rinv_0_lt_compat, lt_0_INR. simpl. lia.
Qed.

Lemma np_std_Fin (xs : list R) :
  xs <> [] -> np_std (map Fin xs) = Fin (std_R xs).
Proof.
  intros Hxs. unfold np_std. rewrite np_mean_Fin by exact Hxs.
  rewrite map_map.
  rewrite (map_ext _ (fun x => Fin (Rabs (x - mean_R xs) * Rabs (x - mean_R xs))))
    by (intros x; rewrite fsub_Fin; reflexivity).
  rewrite <- (map_map (fun x => Rabs (x - mean_R xs) * Rabs (x - mean_R xs)) Fin).
  rewrite np_mean_Fin by (destruct xs; [contradiction | discriminate]).
  apply np_sqrt_Fin, mean_R_nonneg.
  apply Forall_forall. intros y Hy.
  apply list_elem_of_In, in_map_iff in Hy as (x & <- & _).
  apply Rle_0_sqr.
Qed.

Lemma mean_R_above (c : R) (xs : list R) :
  xs <> [] -> Forall (fun x => c < x) xs -> c < mean_R xs.
Proof.
  intros Hxs H. unfold mean_R.
  assert (Hs : c * INR (length xs) < sum_R xs).
  { destruct xs as [| x xs]; [contradiction |]. clear Hxs.
    revert x H. induction xs as [| y xs IH]; intros x H.
    - apply Forall_cons in H as [Hx _]. simpl. lra.
    - apply Forall_cons in H as [Hx H]. specialize (IH y H).
      change (length (x :: y :: xs)) with (S (length (y :: xs))).
      rewrite S_INR. change (sum_R (x :: y :: xs)) with (x + sum_R (y :: xs)).
      lra. }
  assert (Hn : 0 < INR (length xs))
    by (apply lt_0_INR; destruct xs; [contradiction | simpl; lia]).
  apply (Rmult_lt_reg_r (INR (length xs))); [exact Hn |].
  replace (sum_R xs / INR (length xs) * INR (length xs)) with (sum_R xs)
    by (field; lra).
  exact Hs.
Qed.

Lemma std_R_nonneg (xs : list R) : 0 <= std_R xs.
Proof. apply sqrt_pos. Qed.

(** X12.  The annualised statistics of the rates of return: on the
    generated paths the cell reports the mean of the rates times 260/24
    and their deviation times sqrt(260/24), two real numbers, the first
    above -100*260/24 and the second not negative; with no asset it still
    returns, and both figures are [nan]. *)
Theorem ror_summary_generated (junk : nat -> num) (a : R)
    (n_assets n_days : nat) (g : rng) :
  -1 < a -> (1 <= n_days)%nat ->
  exists assets daily_returns g',
    simulate junk (Fin a) n_assets n_days g = Ok (assets, daily_returns, g') /\
    if decide (n_assets = 0%nat) then ror_summary assets = Ok (NaN, NaN)
    else
      exists rates,
        rates_of_return assets = Ok (map Fin rates) /\
        ror_summary assets
        = Ok (Fin (mean_R rates * (260 / 24)),
              Fin (std_R rates * sqrt (260 / 24))) /\
        -100 * (260 / 24) < mean_R rates * (260 / 24) /\
        0 <= std_R rates * sqrt (260 / 24).
Proof.
  intros Ha Hn.
  destruct (simulate_closed junk a n_assets n_days g Ha Hn)
    as (dr & g' & Hsim & _).
  eexists _, dr, g'. split; [exact Hsim |].
  unfold ror_summary. rewrite rates_of_return_closed by exact Hn.
  rewrite annualize_val, py_div_Fin by lra.
  destruct (decide (n_assets = 0%nat)) as [-> | Hne].
  { simpl. rewrite np_mean_nil, np_std_nil. reflexivity. }
  set (rates := map (fun i => ror_real a n_days g (i * (n_days - 1)))
                  (seq 0 n_assets)).
  assert (Hrates : map (fun i => Fin (ror_real a n_days g (i * (n_days - 1))))
                     (seq 0 n_assets) = map Fin rates)
    by (unfold rates; rewrite map_map; reflexivity).
  assert (Hnil : rates <> []).
  { unfold rates. destruct n_assets; [contradiction | discriminate]. }
  exists rates. rewrite Hrates. split; [reflexivity |].
  simpl. rewrite np_mean_Fin, np_std_Fin by exact Hnil.
  rewrite !fmul_Fin. split; [reflexivity |]. split.
  - assert (Hm : -100 < mean_R rates).
    { apply mean_R_above; [exact Hnil |].
      apply Forall_forall. intros x Hx.
      apply list_elem_of_In, in_map_iff in Hx as (i & <- & _).
      unfold ror_real.
      pose proof (exp_pos (INR (n_days - 1) * R_real a
                           + v_real a
                             * draws_sum g (i * (n_days - 1)) (n_days - 1))).
      lra. }
    lra.
  - apply Rmult_le_pos; [apply std_R_nonneg | apply sqrt_pos].
Qed.

Lemma ror_summary_generated_witness :
  exists assets daily_returns g',
    simulate (fun _ => NaN) ar 0 N_DAYS INR = Ok (assets, daily_returns, g') /\
    ror_summary assets = Ok (NaN, NaN).
Proof.
  apply (ror_summary_generated (fun _ => NaN) (15 / 100) 0 N_DAYS INR);
    [lra | unfold N_DAYS; lia].
Defined.

(** ** More on the pricer *)

Lemma bs_d1_scale (c S K r q T v : R) :
  0 < c -> 0 < K -> bs_d1 (c * S) (c * K) r q T v = bs_d1 S K r q T v.
Proof.
  intros Hc HK. unfold bs_d1.
  replace (c * S / (c * K)) with (S / K) by (field; lra). reflexivity.
Qed.

(** X13.  The pricer is homogeneous in spot and strike: quoting both in
    another unit ([c] times the amounts) multiplies the call price by [c]
    and leaves the delta as it is. *)
Theorem bscall_homogeneous (c S K r v q T : R) :
  0 < c -> 0 < S -> 0 < K -> 0 < v -> 0 < T ->
  bscall (Fin (c * S)) (Fin (c * K)) (Fin r) (Fin v) (Fin q) (Fin T)
  = ((Fin c * (bscall (Fin S) (Fin K) (Fin r) (Fin v) (Fin q) (Fin T)).1)%num,
     (bscall (Fin S) (Fin K) (Fin r) (Fin v) (Fin q) (Fin T)).2).
Proof.
  intros Hc HS HK Hv HT.
  rewrite !bscall_finite by nra. simpl. rewrite fmul_Fin.
  rewrite bs_d1_scale by assumption. f_equal. f_equal.
  unfold bs_call, bs_d2. rewrite bs_d1_scale by assumption. ring.
Qed.

Lemma bscall_homogeneous_witness :
  bscall (Fin (100 * 1)) (Fin (100 * (97 / 100))) (Fin (5 / 100))
    (Fin (15 / 100)) (Fin 0) (Fin (25 / 260))
  = ((Fin 100 * (bscall (Fin 1) (Fin (97 / 100)) (Fin (5 / 100))
                   (Fin (15 / 100)) (Fin 0) (Fin (25 / 260))).1)%num,
     (bscall (Fin 1) (Fin (97 / 100)) (Fin (5 / 100))
        (Fin (15 / 100)) (Fin 0) (Fin (25 / 260))).2).
Proof.
  apply (bscall_homogeneous 100 1 (97 / 100) (5 / 100) (15 / 100) 0 (25 / 260));
    lra.
Defined.

(** X14.  The pricer does not depend on the unit of time: with the time
    to expiry counted in periods [c] times shorter (days for years, with
    [c = 260]), the rate and the dividend yield per period and the
    volatility per square root of a period, the price and the delta are
    the same. *)
Theorem bscall_time_unit (c S K r v q T : R) :
  0 < c -> 0 < S -> 0 < K -> 0 < v -> 0 < T ->
  bscall (Fin S) (Fin K) (Fin (r / c)) (Fin (v / sqrt c)) (Fin (q / c))
    (Fin (c * T))
  = bscall (Fin S) (Fin K) (Fin r) (Fin v) (Fin q) (Fin T).
Proof.
  intros Hc HS HK Hv HT.
  assert (Hsc : 0 < sqrt c) by (apply sqrt_lt_R0; exact Hc).
  assert (Hst : 0 < sqrt T) by (apply sqrt_lt_R0; exact HT).
  assert (Hcc : sqrt c * sqrt c = c) by (apply sqrt_sqrt; lra).
  assert (Hv' : 0 < v / sqrt c) by (apply Rdiv_lt_0_compat; assumption).
  rewrite !bscall_finite by nra.
  assert (Hvol : v / sqrt c * sqrt (c * T) = v * sqrt T).
  { rewrite sqrt_mult by lra. field. lra. }
  assert (Hd1 : bs_d1 S K (r / c) (q / c) (c * T) (v / sqrt c)
                = bs_d1 S K r q T v).
  { unfold bs_d1. rewrite Hvol. f_equal. f_equal.
    replace (v / sqrt c * (v / sqrt c)) with (v * v / (sqrt c * sqrt c))
      by (field; lra).
    rewrite Hcc. field. lra. }
  unfold bs_call, bs_d2. rewrite Hd1, Hvol.
  replace (- (q / c) * (c * T)) with (- q * T) by (field; lra).
  replace (- (r / c) * (c * T)) with (- r * T) by (field; lra).
  reflexivity.
Qed.

Lemma bscall_time_unit_witness :
  bscall (Fin 100) (Fin 97) (Fin (5 / 100 / 260))
    (Fin (15 / 100 / sqrt 260)) (Fin (0 / 260)) (Fin (260 * (25 / 260)))
  = bscall (Fin 100) (Fin 97) (Fin (5 / 100)) (Fin (15 / 100)) (Fin 0)
      (Fin (25 / 260)).
Proof.
  apply (bscall_time_unit 260 100 97 (5 / 100) (15 / 100) 0 (25 / 260)); lra.
Defined.




(** ** More on the in-the-money summary *)

Lemma count_ITM_le (xs : list R) (s : R) : (count_ITM s xs <= length xs)%nat.
Proof. unfold count_ITM. apply List.filter_length_le. Qed.

Lemma count_ITM_antitone (s1 s2 : R) (xs : list R) :
  s1 <= s2 -> (count_ITM s2 xs <= count_ITM s1 xs)%nat.
Proof.
  intros Hs. unfold count_ITM.
  induction xs as [| x xs IH]; [reflexivity |]. simpl.
  destruct (Rlt_dec s2 x), (Rlt_dec s1 x); simpl; lia || lra.
Qed.

Lemma itm_pay_antitone (s1 s2 x : R) :
  s1 <= s2 -> 0 <= itm_pay s2 x <= itm_pay s1 x.
Proof.
  intros Hs. unfold itm_pay. split; [apply Rmax_r |].
  apply Rmax_case_strong; intros H.
  - apply Rle_trans with (x - s1); [lra | apply Rmax_l].
  - apply Rmax_r.
Qed.

Lemma sum_R_le (f g : R -> R) (xs : list R) :
  (forall x, f x <= g x) -> sum_R (map f xs) <= sum_R (map g xs).
Proof.
  intros H. induction xs as [| x xs IH]; simpl; [lra |].
  pose proof (H x). lra.
Qed.

(** The payoffs of the paths that end in the money add up to the payoffs
    of all the paths. *)
Lemma sum_R_pay_filter (s : R) (xs : list R) :
  sum_R (map (itm_pay s)
           (List.filter (fun x => if Rlt_dec s x then true else false) xs))
  = sum_R (map (itm_pay s) xs).
Proof.
  induction xs as [| x xs IH]; [reflexivity |]. simpl.
  destruct (Rlt_dec s x) as [H | H]; simpl; rewrite IH; [reflexivity |].
  unfold itm_pay at 2. rewrite Rmax_right by lra. ring.
Qed.

(** X16.  A higher strike never has more paths in the money, nor a larger
    average amount: for two strikes of the summary with
    [strikes[i] <= strikes[j]], [num_ITM[j] <= num_ITM[i]] and
    [avg_ITM[j] <= avg_ITM[i]]; the number lies between 0 and the number
    of paths and the average is not negative. *)
Theorem itm_summary_antitone (junk : nat -> num) (n_strikes n_assets : nat)
    (xs ss : list R) :
  length xs = n_assets -> length ss = n_strikes -> (1 <= n_assets)%nat ->
  exists M,
    inTheMoney junk n_strikes n_assets (map Fin xs) (map Fin ss) = Ok M /\
    forall i j, (i < n_strikes)%nat -> (j < n_strikes)%nat ->
      ss !!! i <= ss !!! j ->
      exists ni nj ai aj,
        num_ITM (M !!! i) = Ok (Fin ni) /\ num_ITM (M !!! j) = Ok (Fin nj) /\
        avg_ITM (M !!! i) = Ok (Fin ai) /\ avg_ITM (M !!! j) = Ok (Fin aj) /\
        0 <= nj <= ni /\ ni <= INR n_assets /\ 0 <= aj <= ai.
Proof.
  intros Hxs Hss Hn.
  destruct (inTheMoney_rows junk n_strikes n_assets xs ss Hxs Hss)
    as (M & HM & Hrows).
  exists M. split; [exact HM |]. intros i j Hi Hj Hle.
  rewrite (Hrows i Hi), (Hrows j Hj).
  rewrite !num_ITM_rows, !avg_ITM_rows by lia.
  eexists _, _, _, _. do 4 (split; [reflexivity |]).
  assert (HR : 0 < INR (length xs)) by (apply lt_0_INR; lia).
  split; [split |];
    [apply pos_INR | apply le_INR, count_ITM_antitone, Hle | split].
  - rewrite <- Hxs. apply le_INR, count_ITM_le.
  - split.
    + apply Rmult_le_pos; [| apply Rlt_le, Rinv_0_lt_compat, HR].
      induction xs as [| x l IH]; simpl; [lra |]. clear IH.
      pose proof (Rmax_r (x - ss !!! j) 0).
      assert (0 <= sum_R (map (itm_pay (ss !!! j)) l)).
      { clear. induction l as [| y l IH]; simpl; [lra |].
        pose proof (Rmax_r (y - ss !!! j) 0). unfold itm_pay at 1. lra. }
      unfold itm_pay at 1. lra.
    + apply Rmult_le_compat_r; [apply Rlt_le, Rinv_0_lt_compat, HR |].
      apply sum_R_le. intros x. apply itm_pay_antitone, Hle.
Qed.

(** Two paths ending at 101 and 99, struck at 98 and at 100. *)
Lemma itm_summary_antitone_witness :
  exists M,
    inTheMoney (fun _ => NaN) 2 2 [Fin 101; Fin 99] [Fin 98; Fin 100] = Ok M /\
    exists ni nj ai aj,
      num_ITM (M !!! 0%nat) = Ok (Fin ni) /\
      num_ITM (M !!! 1%nat) = Ok (Fin nj) /\
      avg_ITM (M !!! 0%nat) = Ok (Fin ai) /\
      avg_ITM (M !!! 1%nat) = Ok (Fin aj) /\
      0 <= nj <= ni /\ ni <= INR 2 /\ 0 <= aj <= ai.
Proof.
  destruct (itm_summary_antitone (fun _ => NaN) 2 2 [101; 99] [98; 100]
              eq_refl eq_refl ltac:(lia)) as (M & HM & H).
  exists M. split; [exact HM |].
  apply (H 0%nat 1%nat); [lia | lia |]. simpl. lra.
Defined.

(** X17.  The average amount the summary reports is the mean payoff of the
    paths in the money times the share of those paths: where some path
    ends above the strike,
    [avg_ITM * n_assets = (mean payoff given in the money) * num_ITM]. *)
Theorem avg_ITM_conditional_mean (junk : nat -> num)
    (n_strikes n_assets : nat) (xs ss : list R) :
  length xs = n_assets -> length ss = n_strikes -> (1 <= n_assets)%nat ->
  exists M,
    inTheMoney junk n_strikes n_assets (map Fin xs) (map Fin ss) = Ok M /\
    forall i, (i < n_strikes)%nat -> (1 <= count_ITM (ss !!! i) xs)%nat ->
      exists avg num,
        avg_ITM (M !!! i) = Ok (Fin avg) /\
        num_ITM (M !!! i) = Ok (Fin num) /\
        avg * INR n_assets = cond_mean_ITM (ss !!! i) xs * num.
Proof.
  intros Hxs Hss Hn.
  destruct (inTheMoney_rows junk n_strikes n_assets xs ss Hxs Hss)
    as (M & HM & Hrows).
  exists M. split; [exact HM |]. intros i Hi Hc.
  rewrite (Hrows i Hi), num_ITM_rows, avg_ITM_rows by lia.
  eexists _, _. do 2 (split; [reflexivity |]).
  unfold cond_mean_ITM. rewrite sum_R_pay_filter, Hxs.
  assert (HR : 0 < INR n_assets) by (apply lt_0_INR; lia).
  assert (HC : 0 < INR (count_ITM (ss !!! i) xs)) by (apply lt_0_INR; lia).
  field. lra.
Qed.

(** Two paths ending at 101 and 99, struck at 100: the average 0.5 on two
    paths is the mean 1 of the one path in the money. *)
Lemma avg_ITM_conditional_mean_witness :
  exists M,
    inTheMoney (fun _ => NaN) 1 2 [Fin 101; Fin 99] [Fin 100] = Ok M /\
    exists avg num,
      avg_ITM (M !!! 0%nat) = Ok (Fin avg) /\
      num_ITM (M !!! 0%nat) = Ok (Fin num) /\
      avg * INR 2 = cond_mean_ITM 100 [101; 99] * num.
Proof.
  destruct (avg_ITM_conditional_mean (fun _ => NaN) 1 2 [101; 99] [100]
              eq_refl eq_refl ltac:(lia)) as (M & HM & H).
  exists M. split; [exact HM |].
  apply (H 0%nat); [lia |].
  unfold count_ITM. simpl.
  destruct (Rlt_dec 100 101); [| lra].
  destruct (Rlt_dec 100 99); simpl; lia.
Defined.

(** ** More on lot rounding *)

Lemma rint_IZR (z : Z) : rint (IZR z) = z.
Proof.
  replace (IZR z) with (IZR z + 0) by ring. rewrite rint_at by lra.
  destruct (Rlt_dec 0 (1 / 2)); [reflexivity | lra].
Qed.

(** X18.  Rounding to a lot is idempotent: a hedge ratio that was rounded
    to the lot [K] is a multiple of [K], and rounding it again to the same
    lot leaves it as it is. *)
Theorem lot_round_idempotent (lot d : R) :
  lot <> 0 ->
  lot_round (Fin lot) (lot_round (Fin lot) (Fin d))
  = lot_round (Fin lot) (Fin d).
Proof.
  intros Hlot. rewrite !lot_round_Fin by exact Hlot. f_equal.
  unfold round_lot at 1 3. f_equal. f_equal. unfold round_lot.
  replace (lot * IZR (rint (d / lot)) / lot) with (IZR (rint (d / lot)))
    by (field; exact Hlot).
  apply rint_IZR.
Qed.

Lemma lot_round_idempotent_witness :
  lot_round (Fin (1 / 10)) (lot_round (Fin (1 / 10)) (Fin (53 / 100)))
  = lot_round (Fin (1 / 10)) (Fin (53 / 100)).
Proof. apply (lot_round_idempotent (1 / 10) (53 / 100)). lra. Defined.

(** X19.  With the lot 1, the last of the notebook's list [K], the hedge
    is all or nothing: a delta between 0 and 1 is rounded to one share
    when it is above 1/2 and to none otherwise, a delta of exactly 1/2
    included, since numpy rounds a tie to the even integer. *)
Theorem lot_round_unit (d : R) :
  0 <= d <= 1 ->
  lot_round (Fin 1) (Fin d) = Fin (if Rlt_dec (1 / 2) d then 1 else 0).
Proof.
  intros Hd. rewrite lot_round_Fin by lra. unfold round_lot. f_equal.
  replace (d / 1) with d by field. rewrite Rmult_1_l.
  destruct (Req_dec_T d 1) as [-> | Hne].
  - rewrite (rint_IZR 1). destruct (Rlt_dec (1 / 2) 1); [reflexivity | lra].
  - replace d with (IZR 0 + d) at 1 by (simpl; ring).
    rewrite rint_at by lra.
    destruct (Rlt_dec d (1 / 2)), (Rlt_dec (1 / 2) d); simpl; try lra;
      reflexivity.
Qed.

Lemma lot_round_unit_witness :
  lot_round (Fin 1) (Fin (1 / 2)) = Fin 0.
Proof.
  rewrite (lot_round_unit (1 / 2)) by lra.
  destruct (Rlt_dec (1 / 2) (1 / 2)); [lra | reflexivity].
Defined.

(** ** More on the hedge simulator *)

(** Arrays of the same shape with the same cells are equal. *)
Lemma ext1 {V} `{!Inhabited V} (n : nat) (a b : list V) :
  length a = n -> length b = n ->
  (forall i, (i < n)%nat -> a !!! i = b !!! i) -> a = b.
Proof.
  intros Ha Hb H. apply list_eq. intros i.
  destruct (decide (i < n)%nat) as [Hi | Hi].
  - rewrite !list_lookup_lookup_total_lt by lia. f_equal. apply H, Hi.
  - rewrite !lookup_ge_None_2 by lia. reflexivity.
Qed.

Lemma ext2 {V} `{!Inhabited V} (n m : nat) (A B : list (list V)) :
  shape2 n m A -> shape2 n m B ->
  (forall i j, (i < n)%nat -> (j < m)%nat -> (A !!! i) !!! j = (B !!! i) !!! j) ->
  A = B.
Proof.
  intros HA HB H. apply (ext1 n); [apply HA | apply HB |].
  intros i Hi. apply (ext1 m).
  - apply (shape2_total n); assumption.
  - apply (shape2_total n); assumption.
  - intros j Hj. apply H; assumption.
Qed.

Lemma ext3 {V} `{!Inhabited V} (n m p : nat) (A B : list (list (list V))) :
  shape3 n m p A -> shape3 n m p B ->
  (forall i j k, (i < n)%nat -> (j < m)%nat -> (k < p)%nat ->
     ((A !!! i) !!! j) !!! k = ((B !!! i) !!! j) !!! k) ->
  A = B.
Proof.
  intros HA HB H. apply (ext1 n); [apply HA | apply HB |].
  intros i Hi. apply (ext2 m p).
  - apply (shape3_total n); assumption.
  - apply (shape3_total n); assumption.
  - intros j k Hj Hk. apply H; assumption.
Qed.

(** X20.  Nothing of what [np.empty] finds in memory reaches the result of
    [excess_return]: on arrays of the expected shapes two calls return the
    same sums whatever [d_excess_return] and [e_r] held before. *)
Theorem excess_return_ignores_memory (junk junk' : nat -> num)
    (n_strikes n_assets n_days : nat)
    (option_prices call_deltas : list (list (list num)))
    (assets : list (list num)) (rfr : num) :
  shape3 n_strikes n_assets n_days option_prices ->
  shape3 n_strikes n_assets n_days call_deltas ->
  shape2 n_assets n_days assets -> (0 < n_days)%nat ->
  exists e_r,
    excess_return junk n_strikes n_assets n_days option_prices call_deltas
      assets rfr = Ok e_r /\
    excess_return junk' n_strikes n_assets n_days option_prices call_deltas
      assets rfr = Ok e_r.
Proof.
  intros Hop Hcd Has Hd.
  destruct (d_excess_return_cells junk _ _ _ _ _ _ rfr Hop Hcd Has Hd)
    as (D1 & HD1 & Hs1 & Hc1).
  destruct (d_excess_return_cells junk' _ _ _ _ _ _ rfr Hop Hcd Has Hd)
    as (D2 & HD2 & Hs2 & Hc2).
  destruct (excess_return_sums junk _ _ _ _ _ _ rfr Hop Hcd Has Hd)
    as (D1' & e1 & HD1' & He1 & Hes1 & Hsum1).
  destruct (excess_return_sums junk' _ _ _ _ _ _ rfr Hop Hcd Has Hd)
    as (D2' & e2 & HD2' & He2 & Hes2 & Hsum2).
  assert (D1' = D1) as -> by congruence.
  assert (D2' = D2) as -> by congruence.
  assert (HD : D1 = D2).
  { apply (ext3 n_strikes n_assets n_days); [exact Hs1 | exact Hs2 |].
    intros i j t Hi Hj Ht.
    destruct (Hc1 i j Hi Hj) as [H10 H1t], (Hc2 i j Hi Hj) as [H20 H2t].
    destruct (decide (t = 0%nat)) as [-> | Hne]; [congruence |].
    rewrite H1t, H2t by lia. reflexivity. }
  exists e1. split; [exact He1 |]. rewrite He2. f_equal.
  apply (ext2 n_strikes n_assets); [exact Hes2 | exact Hes1 |].
  intros i j Hi Hj. rewrite Hsum1, Hsum2 by assumption. rewrite HD.
  reflexivity.
Qed.

Lemma excess_return_ignores_memory_witness :
  exists e_r,
    excess_return (fun _ => NaN) 1 1 2 [[[Fin 3; Fin 4]]]
      [[[Fin (1 / 2); Fin (1 / 2)]]] [[Fin 100; Fin 101]] rfr = Ok e_r /\
    excess_return (fun n => Fin (INR n)) 1 1 2 [[[Fin 3; Fin 4]]]
      [[[Fin (1 / 2); Fin (1 / 2)]]] [[Fin 100; Fin 101]] rfr = Ok e_r.
Proof.
  apply (excess_return_ignores_memory (fun _ => NaN) (fun n => Fin (INR n))
           1 1 2 [[[Fin 3; Fin 4]]] [[[Fin (1 / 2); Fin (1 / 2)]]]
           [[Fin 100; Fin 101]] rfr).
  - split; [reflexivity |]. repeat constructor.
  - split; [reflexivity |]. repeat constructor.
  - split; [reflexivity |]. repeat constructor.
  - lia.
Defined.

Lemma sum_R_map_minus {A} (f g : A -> R) (l : list A) :
  sum_R (map (fun t => f t - g t) l) = sum_R (map f l) - sum_R (map g l).
Proof. induction l as [| a l IH]; simpl; [| rewrite IH]; ring. Qed.

Lemma sum_R_map_scale {A} (r : R) (f : A -> R) (l : list A) :
  sum_R (map (fun t => r * f t) l) = r * sum_R (map f l).
Proof. induction l as [| a l IH]; simpl; [| rewrite IH]; ring. Qed.

Lemma sum_R_telescope (c : nat -> R) (m : nat) :
  sum_R (map (fun t => c t - c (t - 1)%nat) (seq 1 m)) = c m - c 0%nat.
Proof.
  induction m as [| m IH]; [simpl; ring |].
  rewrite seq_S, map_app. unfold sum_R in *. rewrite foldr_app. simpl.
  replace (m - 0)%nat with m by lia.
  assert (Hshift : forall (l : list R) (x : R),
            foldr Rplus x l = foldr Rplus 0 l + x).
  { induction l as [| y l IHl]; intros x; simpl; [ring |].
    rewrite IHl. ring. }
  rewrite Hshift, IH. ring.
Qed.

(** The option's gain, the gain of the hedge and the interest on the
    position over the days 1 to [n - 1] of one path. *)
Definition option_gain (C : list R) (n : nat) : R :=
  C !!! (n - 1)%nat - C !!! 0%nat.

Definition hedge_gain (h P : list R) (n : nat) : R :=
  sum_R (map (fun t => h !!! (t - 1)%nat * (P !!! t - P !!! (t - 1)%nat))
           (seq 1 (n - 1))).

Definition carry_cost (C h P : list R) (r : R) (n : nat) : R :=
  r * sum_R (map (fun t => C !!! (t - 1)%nat
                           - h !!! (t - 1)%nat * P !!! (t - 1)%nat)
               (seq 1 (n - 1))).

Lemma er_row_sum (C h P : list R) (r : R) (n : nat) :
  (1 <= n)%nat ->
  sum_R (map (er_row C h P r) (seq 0 n))
  = option_gain C n - hedge_gain h P n - carry_cost C h P r n.
Proof.
  intros Hn. destruct n as [| m]; [lia |].
  change (seq 0 (S m)) with (0%nat :: seq 1 m).
  replace (S m - 1)%nat with m in * by lia.
  unfold option_gain, hedge_gain, carry_cost.
  replace (S m - 1)%nat with m by lia.
  rewrite <- (sum_R_telescope (fun t => C !!! t) m).
  rewrite <- sum_R_map_scale, <- !sum_R_map_minus.
  simpl map at 1. simpl sum_R at 1.
  replace (er_row C h P r 0) with 0 by reflexivity.
  rewrite Rplus_0_l. f_equal. apply map_ext_in.
  intros t Ht. apply in_seq in Ht. unfold er_row.
  destruct (decide (t = 0%nat)); [lia | reflexivity].
Qed.

(** X21.  The sum [excess_return] returns for a strike and a path splits
    into three parts: the change of the option price from the first day to
    the last, less the gains of the hedge
    [h[t-1]*(P[t]-P[t-1])] of the days after the first, less the interest
    at the daily rate [rfr/260] on the position [C[t-1]-h[t-1]*P[t-1]] of
    those days. *)
Theorem excess_return_decomposition (junk : nat -> num)
    (n_strikes n_assets n_days : nat) (opR hR : list (list (list R)))
    (asR : list (list R)) (rr : R) :
  shape3 n_strikes n_assets n_days opR ->
  shape3 n_strikes n_assets n_days hR ->
  shape2 n_assets n_days asR -> (0 < n_days)%nat ->
  exists e_r,
    excess_return junk n_strikes n_assets n_days (fin3 opR) (fin3 hR)
      (fin2 asR) (Fin rr) = Ok e_r /\
    forall i j, (i < n_strikes)%nat -> (j < n_assets)%nat ->
      let C := (opR !!! i) !!! j in
      let h := (hR !!! i) !!! j in
      let P := asR !!! j in
      (e_r !!! i) !!! j
      = Fin ((C !!! (n_days - 1)%nat - C !!! 0%nat)
             - sum_R (map (fun t => h !!! (t - 1)%nat
                                    * (P !!! t - P !!! (t - 1)%nat))
                        (seq 1 (n_days - 1)))
             - rr / 260
               * sum_R (map (fun t => C !!! (t - 1)%nat
                                      - h !!! (t - 1)%nat * P !!! (t - 1)%nat)
                          (seq 1 (n_days - 1)))).
Proof.
  intros Hop Hh Has Hd.
  destruct (excess_return_real junk n_strikes n_assets n_days opR hR asR rr
              Hop Hh Has Hd) as (D & e_r & _ & He & Hcells).
  exists e_r. split; [exact He |]. intros i j Hi Hj. simpl.
  destruct (Hcells i j Hi Hj) as [_ ->].
  rewrite er_row_sum by lia. reflexivity.
Qed.

(** One path over three days: the option goes from 3 to 5, half a share
    gains 1, and nothing is paid at a zero rate. *)
Lemma excess_return_decomposition_witness :
  exists e_r,
    excess_return (fun _ => NaN) 1 1 3 (fin3 [[[3; 4; 5]]])
      (fin3 [[[1 / 2; 1 / 2; 1 / 2]]]) (fin2 [[100; 101; 102]]) (Fin 0)
    = Ok e_r /\
    (e_r !!! 0%nat) !!! 0%nat = Fin 1.
Proof.
  destruct (excess_return_decomposition (fun _ => NaN) 1 1 3 [[[3; 4; 5]]]
              [[[1 / 2; 1 / 2; 1 / 2]]] [[100; 101; 102]] 0)
    as (e_r & He & Hsum).
  - split; [reflexivity |]. repeat constructor.
  - split; [reflexivity |]. repeat constructor.
  - split; [reflexivity |]. repeat constructor.
  - lia.
  - exists e_r. split; [exact He |].
    rewrite (Hsum 0%nat 0%nat) by lia. simpl. f_equal. lra.
Defined.

(** ** The table of excess returns *)

Section ExcessReturns.
Variable junk : nat -> num.
Variables n_strikes n_assets n_days : nat.
Variables option_prices call_deltas : list (list (list (list num))).
Variable assets : list (list num).
Variable rfr : num.
Variable lots : list num.
Hypothesis Hop : shape4 5 n_strikes n_assets n_days option_prices.
Hypothesis Hcd : shape4 5 n_strikes n_assets n_days call_deltas.
Hypothesis Has : shape2 n_assets n_days assets.
Hypothesis Hlots : length lots = 5%nat.
Hypothesis Hd : (0 < n_days)%nat.

(** What [excess_return] returns, or the empty array where it raises. *)
Definition er_or_nil (op cd : list (list (list num))) : list (list num) :=
  match excess_return junk n_strikes n_assets n_days op cd assets rfr with
  | Ok e => e
  | Raise _ => []
  end.

Lemma er_or_nil_Ok (op cd : list (list (list num))) :
  shape3 n_strikes n_assets n_days op ->
  shape3 n_strikes n_assets n_days cd ->
  excess_return junk n_strikes n_assets n_days op cd assets rfr
  = Ok (er_or_nil op cd) /\
  shape2 n_strikes n_assets (er_or_nil op cd).
Proof using Has Hd.
  clear Hop Hcd Hlots.
  intros Hop' Hcd'. unfold er_or_nil.
  destruct (excess_return_sums junk _ _ _ _ _ _ rfr Hop' Hcd' Has Hd)
    as (D & e_r & _ & -> & Hes & _).
  split; [reflexivity | exact Hes].
Qed.

Lemma r_deltas_shape (lot : num) (cd : list (list (list num))) :
  shape3 n_strikes n_assets n_days cd ->
  shape3 n_strikes n_assets n_days (r_deltas lot cd).
Proof using Type. apply shape3_map. Qed.

Lemma excess_returns_cell_rows :
  exists E,
    excess_returns_cell junk n_strikes n_assets n_days option_prices
      call_deltas assets rfr lots = Ok E /\
    length E = 10%nat /\
    forall i, (i < 5)%nat ->
      E !!! i = er_or_nil (option_prices !!! i) (call_deltas !!! i) /\
      E !!! (i + 5)%nat
      = er_or_nil (option_prices !!! 2%nat)
          (r_deltas (lots !!! i) (call_deltas !!! 2%nat)).
Proof using Hop Hcd Has Hlots Hd.
  unfold excess_returns_cell.
  destruct (for_fill _ _ _ _ (fun i : nat => i)
              (fun i => er_or_nil (option_prices !!! i) (call_deltas !!! i))
              (fun i E =>
                 op ← getitem option_prices i;
                 cd ← getitem call_deltas i;
                 e ← excess_return junk n_strikes n_assets n_days op cd
                       assets rfr;
                 setitem E i e)
              (range 0 5) (np_empty3 junk 10 n_strikes n_assets)
              (cells_list 10)
              (proj1 (np_empty3_shape junk 10 n_strikes n_assets)))
    as (E1 & HE1 & Hs1 & Hin1 & _).
  { intros i Hi. apply elem_of_range in Hi. lia. }
  { intros i E Hi. apply elem_of_range in Hi.
    rewrite !getitem_total
      by (rewrite ?(proj1 Hop), ?(proj1 Hcd); lia).
    simpl.
    rewrite (proj1 (er_or_nil_Ok _ _
                      (shape4_total 5 _ _ _ option_prices i Hop ltac:(lia))
                      (shape4_total 5 _ _ _ call_deltas i Hcd ltac:(lia)))).
    reflexivity. }
  { intros a b _ _ ->. reflexivity. }
  rewrite HE1. simpl.
  assert (Hcd2 : shape3 n_strikes n_assets n_days (call_deltas !!! 2%nat))
    by (apply (shape4_total 5); [exact Hcd | lia]).
  assert (Hop2 : shape3 n_strikes n_assets n_days (option_prices !!! 2%nat))
    by (apply (shape4_total 5); [exact Hop | lia]).
  destruct (for_fill _ _ _ _ (fun i : nat => (i + 5)%nat)
              (fun i => er_or_nil (option_prices !!! 2%nat)
                          (r_deltas (lots !!! i) (call_deltas !!! 2%nat)))
              (fun i E =>
                 lot ← getitem lots i;
                 let rounded := map (r_deltas lot) call_deltas in
                 op ← getitem option_prices 2;
                 rd ← getitem rounded 2;
                 e ← excess_return junk n_strikes n_assets n_days op rd
                       assets rfr;
                 setitem E (i + 5) e)
              (range 0 5) E1 (cells_list 10) Hs1)
    as (E & HE & Hs & Hin & Hout).
  { intros i Hi. apply elem_of_range in Hi. lia. }
  { intros i E Hi. apply elem_of_range in Hi.
    rewrite (getitem_total lots i) by lia. simpl.
    rewrite !getitem_total
      by (rewrite ?(proj1 Hop), ?length_map, ?(proj1 Hcd); lia).
    simpl.
    rewrite (lookup_total_map (r_deltas (lots !!! i)) call_deltas 2)
      by (rewrite (proj1 Hcd); lia).
    rewrite (proj1 (er_or_nil_Ok _ _ Hop2
                      (r_deltas_shape (lots !!! i) _ Hcd2))).
    reflexivity. }
  { intros a b _ _ Hab. assert (a = b) as -> by lia. reflexivity. }
  exists E. split; [exact HE |]. split; [exact Hs |].
  intros i Hi. split.
  - assert (Hget : getitem E i = getitem E1 i).
    { apply Hout. intros a Ha. apply elem_of_range in Ha. lia. }
    rewrite (Hin1 i) in Hget by (apply elem_of_range; lia).
    apply getitem_Ok in Hget. apply list_lookup_total_correct, Hget.
  - assert (Hget := Hin i ltac:(apply elem_of_range; lia)).
    apply getitem_Ok in Hget. apply list_lookup_total_correct, Hget.
Qed.
End ExcessReturns.

(** X22.  The table of excess returns has ten blocks that do not disturb
    one another: the first five are [excess_return] on the prices and
    deltas of each volatility; the last five are [excess_return] on the
    prices of the third volatility of the list (0.15 in the notebook),
    hedged with its deltas rounded to the lots [K[0]] to [K[4]] - whatever
    the index of the block, the options are those of that one
    volatility. *)
Theorem excess_returns_cell_blocks (junk : nat -> num)
    (n_strikes n_assets n_days : nat)
    (option_prices call_deltas : list (list (list (list num))))
    (assets : list (list num)) (rfr : num) (lots : list num) :
  shape4 5 n_strikes n_assets n_days option_prices ->
  shape4 5 n_strikes n_assets n_days call_deltas ->
  shape2 n_assets n_days assets -> length lots = 5%nat -> (0 < n_days)%nat ->
  exists E,
    excess_returns_cell junk n_strikes n_assets n_days option_prices
      call_deltas assets rfr lots = Ok E /\
    length E = 10%nat /\
    forall i, (i < 5)%nat ->
      excess_return junk n_strikes n_assets n_days (option_prices !!! i)
        (call_deltas !!! i) assets rfr = Ok (E !!! i) /\
      excess_return junk n_strikes n_assets n_days (option_prices !!! 2%nat)
        (r_deltas (lots !!! i) (call_deltas !!! 2%nat)) assets rfr
      = Ok (E !!! (i + 5)%nat).
Proof.
  intros Hop Hcd Has Hlots Hd.
  destruct (excess_returns_cell_rows junk n_strikes n_assets n_days
              option_prices call_deltas assets rfr lots Hop Hcd Has Hlots Hd)
    as (E & HE & Hlen & Hrows).
  exists E. split; [exact HE |]. split; [exact Hlen |].
  intros i Hi. destruct (Hrows i Hi) as [-> ->]. split.
  - apply (er_or_nil_Ok junk n_strikes n_assets n_days assets rfr Has Hd);
      apply (shape4_total 5); assumption || lia.
  - apply (er_or_nil_Ok junk n_strikes n_assets n_days assets rfr Has Hd).
    + apply (shape4_total 5); assumption || lia.
    + apply shape3_map. apply (shape4_total 5); assumption || lia.
Qed.

(** One strike, one asset and two days, the same prices and deltas for the
    five volatilities, the notebook's lots. *)
Lemma excess_returns_cell_blocks_witness :
  exists E,
    excess_returns_cell (fun _ => NaN) 1 1 2
      (replicate 5 [[[Fin 3; Fin 4]]])
      (replicate 5 [[[Fin (1 / 2); Fin (1 / 2)]]])
      [[Fin 100; Fin 101]] rfr K = Ok E /\
    length E = 10%nat /\
    excess_return (fun _ => NaN) 1 1 2 [[[Fin 3; Fin 4]]]
      (r_deltas (Fin 1) [[[Fin (1 / 2); Fin (1 / 2)]]])
      [[Fin 100; Fin 101]] rfr = Ok (E !!! 9%nat).
Proof.
  destruct (excess_returns_cell_blocks (fun _ => NaN) 1 1 2
              (replicate 5 [[[Fin 3; Fin 4]]])
              (replicate 5 [[[Fin (1 / 2); Fin (1 / 2)]]])
              [[Fin 100; Fin 101]] rfr K)
    as (E & HE & Hlen & Hrows).
  - split; [reflexivity |]. repeat constructor.
  - split; [reflexivity |]. repeat constructor.
  - split; [reflexivity |]. repeat constructor.
  - reflexivity.
  - lia.
  - exists E. split; [exact HE |]. split; [exact Hlen |].
    exact (proj2 (Hrows 4%nat ltac:(lia))).
Defined.

(** ** The grid of one volatility *)

(** [presentation.ipynb], cell 9: the day loop of the asset [i] and the
    strike [strikes[k]] fills the rows [calls] and [deltas],
    [calls[j], deltas[j]=bscall(price,strikes[k],rfr,vol,div,T/260)] with
    [T=(25-j)] and [price=assets[i,j]]. *)
Definition calls_deltas (junk : nat -> num) (n_days : nat)
    (assets : list (list num)) (strikes : list num) (rfr vol div : num)
    (k i : nat) : res (list num * list num) :=
  for_ (range 0 n_days) (fun j s =>
    let '(calls, deltas) := s in
    let T := Fin (IZR (Z.of_nat n_days - Z.of_nat j)) in
    price ← get2 assets (i, j);
    strike ← getitem strikes k;
    tte ← py_div T (Fin 260);
    let '(c, d) := bscall price strike rfr vol div tte in
    calls ← setitem calls j c;
    deltas ← setitem deltas j d;
    mret (calls, deltas))
    (np_empty junk n_days, np_empty junk n_days).

(** [M[k][i] = row] on a 3-d array. *)
Definition assign_row3 (M : list (list (list num))) (k i m : nat)
    (row : list num) : res (list (list (list num))) :=
  r ← getitem M k; r' ← assign_row r i m (Arr row); setitem M k r'.

(** The whole cell: [option_prices[k][i]=calls] and
    [call_deltas[k][i]=deltas] for every strike and asset. *)
Definition option_grid3 (junk : nat -> num) (n_strikes n_assets n_days : nat)
    (assets : list (list num)) (strikes : list num) (rfr vol div : num)
    : res (list (list (list num)) * list (list (list num))) :=
  for_ (range 0 n_strikes) (fun k s =>
    for_ (range 0 n_assets) (fun i s =>
      let '(option_prices, call_deltas) := s in
      '(calls, deltas) ← calls_deltas junk n_days assets strikes rfr vol div k i;
      option_prices ← assign_row3 option_prices k i n_days calls;
      call_deltas ← assign_row3 call_deltas k i n_days deltas;
      mret (option_prices, call_deltas)) s)
    (np_empty3 junk n_strikes n_assets n_days,
     np_empty3 junk n_strikes n_assets n_days).

(** The prices and the deltas of one volatility, for every strike, asset
    and day. *)
Definition grid_block (n_strikes n_assets n_days : nat)
    (assets : list (list num)) (strikes : list num) (rfr vol div : num)
    (f : num * num -> num) : list (list (list num)) :=
  map (fun k => map (fun i => map (fun j =>
         f (bscall ((assets !!! i) !!! j) (strikes !!! k) rfr vol div
              (tte n_days j)))
       (seq 0 n_days)) (seq 0 n_assets)) (seq 0 n_strikes).

Lemma list_eq_map_seq_total {A} `{!Inhabited A} (l : list A) (n : nat)
    (f : nat -> A) :
  length l = n -> (forall i, (i < n)%nat -> l !!! i = f i) ->
  l = map f (seq 0 n).
Proof.
  intros Hl H. apply list_eq_map_seq; [exact Hl |].
  intros i Hi. rewrite list_lookup_lookup_total_lt by lia. f_equal.
  apply H, Hi.
Qed.

Section Grid3.
Variable junk : nat -> num.
Variables n_strikes n_assets n_days : nat.
Variable assets : list (list num).
Variable strikes : list num.
Variables rfr vol div : num.
Hypothesis Has : shape2 n_assets n_days assets.
Hypothesis Hst : length strikes = n_strikes.

Lemma calls_deltas_closed (k i : nat) :
  (k < n_strikes)%nat -> (i < n_assets)%nat ->
  calls_deltas junk n_days assets strikes rfr vol div k i
  = Ok (map (fun j => (bscall ((assets !!! i) !!! j) (strikes !!! k) rfr vol
                         div (tte n_days j)).1) (seq 0 n_days),
        map (fun j => (bscall ((assets !!! i) !!! j) (strikes !!! k) rfr vol
                         div (tte n_days j)).2) (seq 0 n_days)).
Proof using Has Hst.
  intros Hk Hi. unfold calls_deltas.
  set (val := fun j => bscall ((assets !!! i) !!! j) (strikes !!! k) rfr vol
                         div (tte n_days j)).
  destruct (for_fill _ _ _ _ (fun j : nat => j) (fun j => (val j).1)
              (fun j calls => setitem calls j (val j).1)
              (range 0 n_days) (np_empty junk n_days)
              (cells_list n_days) (np_empty_shape junk n_days))
    as (calls & Hcalls & Hclen & Hcin & _).
  { intros j Hj. apply elem_of_range in Hj. lia. }
  { reflexivity. }
  { intros a b _ _ ->. reflexivity. }
  destruct (for_fill _ _ _ _ (fun j : nat => j) (fun j => (val j).2)
              (fun j deltas => setitem deltas j (val j).2)
              (range 0 n_days) (np_empty junk n_days)
              (cells_list n_days) (np_empty_shape junk n_days))
    as (deltas & Hdeltas & Hdlen & Hdin & _).
  { intros j Hj. apply elem_of_range in Hj. lia. }
  { reflexivity. }
  { intros a b _ _ ->. reflexivity. }
  assert (Hc : calls = map (fun j => (val j).1) (seq 0 n_days)).
  { apply list_eq_map_seq; [exact Hclen |]. intros j Hj.
    apply getitem_Ok, Hcin, elem_of_range. lia. }
  assert (Hdl : deltas = map (fun j => (val j).2) (seq 0 n_days)).
  { apply list_eq_map_seq; [exact Hdlen |]. intros j Hj.
    apply getitem_Ok, Hdin, elem_of_range. lia. }
  subst calls deltas.
  eapply for_pair; [| exact Hcalls | exact Hdeltas].
  intros j a b Hj. apply elem_of_range in Hj.
  rewrite (get2_total n_assets n_days) by (assumption || lia). simpl.
  rewrite getitem_total by lia. simpl.
  rewrite py_div_260. simpl. fold (tte n_days j). fold (val j).
  destruct (val j) as [c d]. reflexivity.
Qed.

Lemma assign_row3_set2 (M : list (list (list num))) (k i : nat)
    (row : list num) :
  length row = n_days -> assign_row3 M k i n_days row = set2 M (k, i) row.
Proof using Type.
  intros Hrow. unfold assign_row3, assign_row, set2, set_in. simpl.
  destruct (getitem M k) as [r | e]; [simpl | reflexivity].
  rewrite decide_True by exact Hrow. reflexivity.
Qed.

Lemma option_grid3_closed :
  option_grid3 junk n_strikes n_assets n_days assets strikes rfr vol div
  = Ok (grid_block n_strikes n_assets n_days assets strikes rfr vol div fst,
        grid_block n_strikes n_assets n_days assets strikes rfr vol div snd).
Proof using Has Hst.
  unfold option_grid3.
  set (row := fun (f : num * num -> num) (ki : nat * nat) =>
                map (fun j => f (bscall ((assets !!! ki.2) !!! j)
                                   (strikes !!! ki.1) rfr vol div
                                   (tte n_days j))) (seq 0 n_days)).
  rewrite (for_nest (range 0 n_strikes) (range 0 n_assets)
             (fun ki s =>
                let '(option_prices, call_deltas) := s in
                '(calls, deltas) ← calls_deltas junk n_days assets strikes
                                     rfr vol div ki.1 ki.2;
                option_prices ← assign_row3 option_prices ki.1 ki.2 n_days calls;
                call_deltas ← assign_row3 call_deltas ki.1 ki.2 n_days deltas;
                mret (option_prices, call_deltas))).
  set (keys := cprod (range 0 n_strikes) (range 0 n_assets)).
  assert (Hkeys : forall ki, ki ∈ keys <->
                    (ki.1 < n_strikes)%nat /\ (ki.2 < n_assets)%nat).
  { intros ki. unfold keys. rewrite list_elem_of_cprod, !elem_of_range. lia. }
  assert (Hfill : forall f,
            exists M, for_ keys (fun ki M => set2 M ki (row f ki))
                        (np_empty3 junk n_strikes n_assets n_days) = Ok M /\
                      M = grid_block n_strikes n_assets n_days assets strikes
                            rfr vol div f).
  { intros f.
    destruct (for_fill _ _ _ _ (fun ki : nat * nat => ki) (row f)
                (fun ki M => set2 M ki (row f ki))
                keys (np_empty3 junk n_strikes n_assets n_days)
                (cells2 n_strikes n_assets))
      as (M & HM & Hs & Hin & _).
    { destruct (np_empty3_shape junk n_strikes n_assets n_days) as [Hn Hr].
      split; [exact Hn |]. eapply Forall_impl; [exact Hr |].
      intros r [Hlen _]. exact Hlen. }
    { intros ki Hki. apply Hkeys, Hki. }
    { reflexivity. }
    { intros a b _ _ ->. reflexivity. }
    exists M. split; [exact HM |].
    apply list_eq_map_seq_total; [apply Hs |]. intros k Hk.
    apply list_eq_map_seq_total; [apply (shape2_total n_strikes); assumption |].
    intros i Hi.
    apply (get2_Ok_total n_strikes n_assets); try assumption.
    apply (Hin (k, i)). apply Hkeys. simpl. lia. }
  destruct (Hfill fst) as (op & Hop & <-).
  destruct (Hfill snd) as (cd & Hcd & <-).
  eapply for_pair; [| exact Hop | exact Hcd].
  intros [k i] a b Hki. apply Hkeys in Hki. simpl in Hki.
  simpl. rewrite calls_deltas_closed by lia. simpl.
  rewrite !assign_row3_set2 by (rewrite length_map, length_seq; reflexivity).
  reflexivity.
Qed.
End Grid3.

Lemma lookup_total_map_seq {A} `{!Inhabited A} (f : nat -> A) (n i : nat) :
  (i < n)%nat -> map f (seq 0 n) !!! i = f i.
Proof.
  intros Hi. apply list_lookup_total_correct.
  change (map f (seq 0 n)) with (f <$> seq 0 n).
  rewrite list_lookup_fmap, lookup_seq_lt by exact Hi. reflexivity.
Qed.

(** The block of the volatility [v] in the grid of all volatilities. *)
Lemma option_grid_block (junk : nat -> num)
    (n_vols n_strikes n_assets n_days : nat) (assets : list (list num))
    (strikes volatilities : list num) (rfr div : num) :
  shape2 n_assets n_days assets -> length strikes = n_strikes ->
  length volatilities = n_vols ->
  exists op cd,
    option_grid junk n_vols n_strikes n_assets n_days assets strikes
      volatilities rfr div = Ok (op, cd) /\
    length op = n_vols /\ length cd = n_vols /\
    forall v, (v < n_vols)%nat ->
      op !!! v = grid_block n_strikes n_assets n_days assets strikes rfr
                   (volatilities !!! v) div fst /\
      cd !!! v = grid_block n_strikes n_assets n_days assets strikes rfr
                   (volatilities !!! v) div snd.
Proof.
  intros Has Hst Hvo.
  destruct (option_grid_cells junk n_vols n_strikes n_assets n_days assets
              strikes volatilities rfr div Has Hst Hvo)
    as (op & cd & Hgrid & Hops & Hcds & Hcells).
  exists op, cd. split; [exact Hgrid |].
  split; [apply Hops |]. split; [apply Hcds |].
  intros v Hv.
  pose proof (shape4_total n_vols _ _ _ op v Hops Hv) as Hop3.
  pose proof (shape4_total n_vols _ _ _ cd v Hcds Hv) as Hcd3.
  split.
  - apply list_eq_map_seq_total; [apply Hop3 |]. intros k Hk.
    pose proof (shape3_total n_strikes _ _ (op !!! v) k Hop3 Hk) as Hop2.
    apply list_eq_map_seq_total; [apply Hop2 |]. intros i Hi.
    apply list_eq_map_seq_total;
      [apply (shape2_total n_assets); assumption |].
    intros j Hj.
    exact (f_equal fst (Hcells v k i j Hv Hk Hi Hj)).
  - apply list_eq_map_seq_total; [apply Hcd3 |]. intros k Hk.
    pose proof (shape3_total n_strikes _ _ (cd !!! v) k Hcd3 Hk) as Hcd2.
    apply list_eq_map_seq_total; [apply Hcd2 |]. intros i Hi.
    apply list_eq_map_seq_total;
      [apply (shape2_total n_assets); assumption |].
    intros j Hj.
    exact (f_equal snd (Hcells v k i j Hv Hk Hi Hj)).
Qed.

(** X23.  The grid of the one volatility 0.15, which the summary table
    reads, is a block of the grid of all volatilities, which the hedge
    experiment reads: for the volatility number [v] of the list, the
    prices and the deltas of the first cell are the arrays
    [option_prices[v]] and [call_deltas[v]] of the second, whatever
    [np.empty] found in memory. *)
Theorem option_grid3_is_block (junk junk' : nat -> num)
    (n_assets n_days : nat) (assets : list (list num))
    (strikes volatilities : list num) (rfr div : num) (v : nat) :
  shape2 n_assets n_days assets -> (v < length volatilities)%nat ->
  exists op cd,
    option_grid junk (length volatilities) (length strikes) n_assets n_days
      assets strikes volatilities rfr div = Ok (op, cd) /\
    option_grid3 junk' (length strikes) n_assets n_days assets strikes rfr
      (volatilities !!! v) div = Ok (op !!! v, cd !!! v).
Proof.
  intros Has Hv.
  destruct (option_grid_block junk (length volatilities) (length strikes)
              n_assets n_days assets strikes volatilities rfr div Has
              eq_refl eq_refl) as (op & cd & Hgrid & _ & _ & Hblocks).
  exists op, cd. split; [exact Hgrid |].
  destruct (Hblocks v Hv) as [-> ->].
  apply (option_grid3_closed junk' (length strikes) n_assets n_days assets
           strikes rfr (volatilities !!! v) div Has eq_refl).
Qed.

(** One asset over two days, the notebook's strikes and volatilities; the
    third volatility is 0.15. *)
Lemma option_grid3_is_block_witness :
  exists op cd,
    option_grid (fun _ => NaN) 5 4 1 2 [[Fin 100; Fin 101]] strikes
      volatilities rfr div = Ok (op, cd) /\
    option_grid3 (fun n => Fin (INR n)) 4 1 2 [[Fin 100; Fin 101]] strikes rfr
      (Fin (15 / 100)) div = Ok (op !!! 2%nat, cd !!! 2%nat).
Proof.
  apply (option_grid3_is_block (fun _ => NaN) (fun n => Fin (INR n)) 1 2
           [[Fin 100; Fin 101]] strikes volatilities rfr div 2).
  - split; [reflexivity |]. repeat constructor.
  - simpl. lia.
Defined.

Lemma paths_real_shape (a : R) (n_assets n_days : nat) (g : rng) :
  shape2 n_assets n_days (paths_real a n_assets n_days g).
Proof.
  unfold paths_real. split; [rewrite length_map, length_seq; reflexivity |].
  apply Forall_forall. intros row Hrow.
  apply list_elem_of_In, in_map_iff in Hrow as (i & <- & _).
  unfold shape1. rewrite length_map, length_seq. reflexivity.
Qed.

Lemma paths_real_cell (a : R) (n_assets n_days : nat) (g : rng) (i j : nat) :
  (i < n_assets)%nat -> (j < n_days)%nat ->
  (paths_real a n_assets n_days g !!! i) !!! j
  = Fin (path_real a g (i * (n_days - 1)) j).
Proof.
  intros Hi Hj. unfold paths_real.
  rewrite lookup_total_map_seq by exact Hi.
  apply (lookup_total_map_seq
           (fun t => Fin (path_real a g (i * (n_days - 1)) t))), Hj.
Qed.

(** X24.  On the generated paths the grid holds real numbers only: for
    positive strikes and volatilities every price and every delta of
    every day is finite, never [nan] or an infinity, and the prices and
    deltas of day 0 are those of the spot 100 with all the days left, the
    same for every asset. *)
Theorem option_grid_on_generated_paths (junk : nat -> num) (a : R)
    (n_assets n_days : nat) (g : rng) (ks vs : list R) (r q : R) :
  -1 < a -> (1 <= n_days)%nat ->
  Forall (fun K => 0 < K) ks -> Forall (fun v => 0 < v) vs ->
  exists assets daily_returns g' op cd,
    simulate junk (Fin a) n_assets n_days g = Ok (assets, daily_returns, g') /\
    option_grid junk (length vs) (length ks) n_assets n_days assets
      (map Fin ks) (map Fin vs) (Fin r) (Fin q) = Ok (op, cd) /\
    forall v k i, (v < length vs)%nat -> (k < length ks)%nat ->
      (i < n_assets)%nat ->
      (forall j, (j < n_days)%nat ->
         exists c d, (((op !!! v) !!! k) !!! i) !!! j = Fin c /\
                     (((cd !!! v) !!! k) !!! i) !!! j = Fin d) /\
      ((((op !!! v) !!! k) !!! i) !!! 0%nat,
       (((cd !!! v) !!! k) !!! i) !!! 0%nat)
      = bscall (Fin 100) (Fin (ks !!! k)) (Fin r) (Fin (vs !!! v)) (Fin q)
          (Fin (INR n_days / 260)).
Proof.
  intros Ha Hn Hks Hvs.
  destruct (simulate_closed junk a n_assets n_days g Ha Hn)
    as (dr & g' & Hsim & _).
  destruct (option_grid_cells junk (length vs) (length ks) n_assets n_days
              (paths_real a n_assets n_days g) (map Fin ks) (map Fin vs)
              (Fin r) (Fin q) (paths_real_shape a n_assets n_days g)
              (length_map _ _) (length_map _ _))
    as (op & cd & Hgrid & _ & _ & Hcells).
  exists (paths_real a n_assets n_days g), dr, g', op, cd.
  split; [exact Hsim |]. split; [exact Hgrid |].
  intros v k i Hv Hk Hi.
  assert (Hcell : forall j, (j < n_days)%nat ->
            ((((op !!! v) !!! k) !!! i) !!! j,
             (((cd !!! v) !!! k) !!! i) !!! j)
            = bscall (Fin (path_real a g (i * (n_days - 1)) j))
                (Fin (ks !!! k)) (Fin r) (Fin (vs !!! v)) (Fin q)
                (tte n_days j)).
  { intros j Hj. rewrite (Hcells v k i j Hv Hk Hi Hj).
    unfold grid_val. simpl.
    rewrite paths_real_cell, !lookup_total_map by assumption. reflexivity. }
  split.
  - intros j Hj. specialize (Hcell j Hj).
    destruct (tte_pos n_days j Hj) as [Htte Hpos]. rewrite Htte in Hcell.
    rewrite bscall_finite in Hcell.
    + injection Hcell as -> ->. eexists _, _. split; reflexivity.
    + apply path_real_pos.
    + apply (Forall_lookup_total_1 _ ks); assumption.
    + apply (Forall_lookup_total_1 _ vs); assumption.
    + exact Hpos.
  - rewrite (Hcell 0%nat ltac:(lia)), path_real_0.
    unfold tte. rewrite fdiv_Fin by lra. do 3 f_equal.
    rewrite INR_IZR_INZ. f_equal. lia.
Qed.

Lemma option_grid_on_generated_paths_witness :
  exists assets daily_returns g' op cd,
    simulate (fun _ => NaN) ar 2 N_DAYS INR = Ok (assets, daily_returns, g') /\
    option_grid (fun _ => NaN) 5 4 2 N_DAYS assets strikes volatilities rfr div
    = Ok (op, cd) /\
    ((((op !!! 2%nat) !!! 1%nat) !!! 1%nat) !!! 0%nat,
     (((cd !!! 2%nat) !!! 1%nat) !!! 1%nat) !!! 0%nat)
    = bscall (Fin 100) (Fin 100) rfr (Fin (15 / 100)) div
        (Fin (INR N_DAYS / 260)).
Proof.
  destruct (option_grid_on_generated_paths (fun _ => NaN) (15 / 100) 2 N_DAYS
              INR [97; 100; 103; 105]
              [10 / 100; 13 / 100; 15 / 100; 17 / 100; 20 / 100] (5 / 100) 0)
    as (assets & daily_returns & g' & op & cd & Hsim & Hgrid & Hcells).
  - lra.
  - unfold N_DAYS. lia.
  - repeat constructor; lra.
  - repeat constructor; lra.
  - exists assets, daily_returns, g', op, cd.
    split; [exact Hsim |]. split; [exact Hgrid |].
    exact (proj2 (Hcells 2%nat 1%nat 1%nat ltac:(simpl; lia) ltac:(simpl; lia)
                    ltac:(lia))).
Defined.

(** ** The grid of the draft notebook *)

(** [l.index(k)] on a list of integers: the first position of [k], a
    [ValueError] when [k] is not in the list. *)
Fixpoint list_index (l : list Z) (k : Z) : res nat :=
  match l with
  | [] => Raise ValueError
  | x :: l' => if decide (x = k) then Ok 0%nat
               else i ← list_index l' k; mret (S i)
  end.

(** The draft's cell: [for k in strikes], the row [calls] of every asset
    is stored at [option_prices[strikes.index(k)][i]]; the array has
    [n_strikes] blocks (4 in the notebook). *)
Definition option_grid_draft (junk : nat -> num)
    (n_strikes n_assets n_days : nat) (assets : list (list num))
    (strikes : list Z) (rfr vol div : num) : res (list (list (list num))) :=
  for_ strikes (fun k option_prices =>
    for_ (range 0 n_assets) (fun i option_prices =>
      calls ← calls_draft junk n_days assets i (Fin (IZR k)) rfr vol div;
      idx ← list_index strikes k;
      assign_row3 option_prices idx i n_days calls) option_prices)
    (np_empty3 junk n_strikes n_assets n_days).

Lemma list_index_first (l : list Z) (k : Z) :
  k ∈ l ->
  exists idx, list_index l k = Ok idx /\ l !! idx = Some k /\
              k ∉ take idx l.
Proof.
  induction l as [| x l IH]; intros Hk; [inversion Hk |].
  simpl. destruct (decide (x = k)) as [-> | Hne].
  - exists 0%nat. split; [reflexivity |]. split; [reflexivity |].
    simpl. apply not_elem_of_nil.
  - apply elem_of_cons in Hk as [-> | Hk]; [contradiction |].
    destruct (IH Hk) as (idx & -> & Hidx & Hnot).
    exists (S idx). split; [reflexivity |]. split; [exact Hidx |].
    simpl. apply not_elem_of_cons. split; [congruence | exact Hnot].
Qed.

Lemma list_index_lookup (l : list Z) (k : Z) (idx : nat) :
  list_index l k = Ok idx -> l !! idx = Some k /\ k ∉ take idx l.
Proof.
  revert idx. induction l as [| x l IH]; intros idx H; [discriminate |].
  simpl in H. destruct (decide (x = k)) as [-> | Hne].
  - injection H as <-. split; [reflexivity | apply not_elem_of_nil].
  - destruct (list_index l k) as [i |] eqn:Hi; [| discriminate].
    simpl in H. injection H as <-.
    destruct (IH i eq_refl) as [Hl Hnot]. split; [exact Hl |].
    simpl. apply not_elem_of_cons. split; [congruence | exact Hnot].
Qed.

Lemma list_index_here (l : list Z) (i : nat) (k : Z) :
  l !! i = Some k -> k ∉ take i l -> list_index l k = Ok i.
Proof.
  revert i. induction l as [| x l IH]; intros i Hi Hnot; [discriminate |].
  simpl. destruct i as [| i]; simpl in *.
  - injection Hi as ->. rewrite decide_True by reflexivity. reflexivity.
  - apply not_elem_of_cons in Hnot as [Hne Hnot].
    rewrite decide_False by congruence.
    rewrite (IH i Hi Hnot). reflexivity.
Qed.

Section Draft.
Variable junk : nat -> num.
Variables n_strikes n_assets n_days : nat.
Variable assets : list (list num).
Variable strikes : list Z.
Variables rfr vol div : num.
Hypothesis Has : shape2 n_assets n_days assets.
Hypothesis Hst : length strikes = n_strikes.

(** The row of the asset [i] at the strike [k]. *)
Definition draft_row (k : Z) (i : nat) : list num :=
  map (fun j => bscall_draft ((assets !!! i) !!! j) (Fin (IZR k)) rfr vol div
                  (tte n_days j)) (seq 0 n_days).

Definition index_or_0 (k : Z) : nat :=
  match list_index strikes k with
  | Ok idx => idx
  | Raise _ => 0%nat
  end.

Lemma calls_draft_closed (k : Z) (i : nat) :
  (i < n_assets)%nat ->
  calls_draft junk n_days assets i (Fin (IZR k)) rfr vol div
  = Ok (draft_row k i).
Proof using Has.
  clear Hst.
  intros Hi. unfold calls_draft.
  destruct (for_fill _ _ _ _ (fun j : nat => j)
              (fun j => bscall_draft ((assets !!! i) !!! j) (Fin (IZR k)) rfr
                          vol div (tte n_days j))
              (fun j calls =>
                 price ← get2 assets (i, j);
                 tte ← py_div (Fin (IZR (Z.of_nat n_days - Z.of_nat j)))
                         (Fin 260);
                 setitem calls j (bscall_draft price (Fin (IZR k)) rfr vol div
                                    tte))
              (range 0 n_days) (np_empty junk n_days)
              (cells_list n_days) (np_empty_shape junk n_days))
    as (calls & Hcalls & Hlen & Hin & _).
  - intros j Hj. apply elem_of_range in Hj. lia.
  - intros j s Hj. apply elem_of_range in Hj.
    rewrite (get2_total n_assets n_days) by (assumption || lia). simpl.
    rewrite py_div_260. reflexivity.
  - intros a b _ _ ->. reflexivity.
  - rewrite Hcalls. f_equal. apply list_eq_map_seq; [exact Hlen |].
    intros j Hj. apply getitem_Ok, Hin, elem_of_range. lia.
Qed.

Lemma option_grid_draft_rows :
  exists option_prices,
    option_grid_draft junk n_strikes n_assets n_days assets strikes rfr vol
      div = Ok option_prices /\
    forall k, (k < n_strikes)%nat ->
      (strikes !!! k ∉ take k strikes ->
       option_prices !!! k
       = map (draft_row (strikes !!! k)) (seq 0 n_assets)) /\
      (strikes !!! k ∈ take k strikes ->
       option_prices !!! k = np_empty2 junk n_assets n_days).
Proof using Has Hst.
  unfold option_grid_draft.
  rewrite (for_nest strikes (range 0 n_assets)
             (fun ki option_prices =>
                calls ← calls_draft junk n_days assets ki.2 (Fin (IZR ki.1))
                          rfr vol div;
                idx ← list_index strikes ki.1;
                assign_row3 option_prices idx ki.2 n_days calls)).
  set (keys := cprod strikes (range 0 n_assets)).
  assert (Hkeys : forall ki, ki ∈ keys <->
                    ki.1 ∈ strikes /\ (ki.2 < n_assets)%nat).
  { intros ki. unfold keys. rewrite list_elem_of_cprod, elem_of_range.
    intuition lia. }
  assert (Hidx : forall k, k ∈ strikes ->
            list_index strikes k = Ok (index_or_0 k) /\
            strikes !! index_or_0 k = Some k /\
            k ∉ take (index_or_0 k) strikes).
  { intros k Hk. unfold index_or_0.
    destruct (list_index_first strikes k Hk) as (idx & -> & H1 & H2).
    split; [reflexivity |]. split; assumption. }
  destruct (for_fill _ _ _ _
              (fun ki : Z * nat => (index_or_0 ki.1, ki.2))
              (fun ki : Z * nat => draft_row ki.1 ki.2)
              (fun ki option_prices =>
                 calls ← calls_draft junk n_days assets ki.2 (Fin (IZR ki.1))
                           rfr vol div;
                 idx ← list_index strikes ki.1;
                 assign_row3 option_prices idx ki.2 n_days calls)
              keys (np_empty3 junk n_strikes n_assets n_days)
              (cells2 n_strikes n_assets))
    as (M & HM & Hs & Hin & Hout).
  { destruct (np_empty3_shape junk n_strikes n_assets n_days) as [Hn Hr].
    split; [exact Hn |]. eapply Forall_impl; [exact Hr |].
    intros r [Hlen _]. exact Hlen. }
  { intros ki Hki. apply Hkeys in Hki as [Hk Hi]. simpl.
    destruct (Hidx _ Hk) as (_ & Hl & _).
    apply lookup_lt_Some in Hl. lia. }
  { intros ki s Hki. apply Hkeys in Hki as [Hk Hi].
    rewrite calls_draft_closed by exact Hi. simpl.
    rewrite (proj1 (Hidx _ Hk)). simpl.
    apply assign_row3_set2. unfold draft_row.
    rewrite length_map, length_seq. reflexivity. }
  { intros [k1 i1] [k2 i2] H1 H2 Heq. simpl in Heq.
    apply Hkeys in H1 as [H1 _], H2 as [H2 _]. simpl in *.
    injection Heq as Hk <-.
    destruct (Hidx _ H1) as (_ & Hl1 & _), (Hidx _ H2) as (_ & Hl2 & _).
    rewrite Hk in Hl1. assert (k1 = k2) as -> by congruence. reflexivity. }
  exists M. split; [exact HM |].
  intros k Hk.
  assert (Hlk : strikes !! k = Some (strikes !!! k))
    by (apply list_lookup_lookup_total_lt; lia).
  assert (Hmem : strikes !!! k ∈ strikes)
    by (apply list_elem_of_lookup; exists k; exact Hlk).
  pose proof (shape2_total n_strikes n_assets M k Hs Hk) as Hrow.
  split.
  - intros Hfirst.
    assert (Hik : index_or_0 (strikes !!! k) = k).
    { unfold index_or_0.
      rewrite (list_index_here strikes k _ Hlk Hfirst). reflexivity. }
    apply list_eq_map_seq_total; [exact Hrow |]. intros i Hi.
    apply (get2_Ok_total n_strikes n_assets); try assumption.
    rewrite <- Hik at 1.
    apply (Hin (strikes !!! k, i)). apply Hkeys. simpl. split; assumption.
  - intros Hlater.
    apply (ext1 n_assets); [exact Hrow | apply length_replicate |].
    intros i Hi.
    unfold np_empty2. rewrite lookup_total_replicate_2 by exact Hi.
    apply (get2_Ok_total n_strikes n_assets); try assumption.
    rewrite Hout.
    + rewrite (get2_total n_strikes n_assets); [| | exact Hk | exact Hi].
      * unfold np_empty3, np_empty2.
        rewrite !lookup_total_replicate_2 by assumption. reflexivity.
      * destruct (np_empty3_shape junk n_strikes n_assets n_days) as [Hn Hr].
        split; [exact Hn |]. eapply Forall_impl; [exact Hr |].
        intros r [Hlen _]. exact Hlen.
    + intros [k' i'] Hki Heq. apply Hkeys in Hki as [Hk' _]. simpl in *.
      injection Heq as Hi' _.
      destruct (Hidx _ Hk') as (_ & Hl & Hnot).
      rewrite Hi' in Hl, Hnot.
      assert (k' = strikes !!! k) as -> by congruence.
      contradiction.
Qed.
End Draft.

(** X25.  The draft's grid stores the rows of a strike at the first
    position of that strike in the list: the block of a strike that occurs
    for the first time holds its prices,
    [bscall(assets[i,j], strikes[k], rfr, vol, div, (n_days-j)/260)]; the
    block of a strike that occurred earlier in the list is never written
    and keeps what [np.empty] found in memory. *)
Theorem option_grid_draft_blocks (junk : nat -> num)
    (n_assets n_days : nat) (assets : list (list num)) (strikes : list Z)
    (rfr vol div : num) :
  shape2 n_assets n_days assets ->
  exists option_prices,
    option_grid_draft junk (length strikes) n_assets n_days assets strikes
      rfr vol div = Ok option_prices /\
    forall k, (k < length strikes)%nat ->
      (strikes !!! k ∉ take k strikes ->
       forall i j, (i < n_assets)%nat -> (j < n_days)%nat ->
         ((option_prices !!! k) !!! i) !!! j
         = bscall_draft ((assets !!! i) !!! j) (Fin (IZR (strikes !!! k)))
             rfr vol div (Fin (IZR (Z.of_nat n_days - Z.of_nat j) / 260))) /\
      (strikes !!! k ∈ take k strikes ->
       option_prices !!! k = np_empty2 junk n_assets n_days).
Proof.
  intros Has.
  destruct (option_grid_draft_rows junk (length strikes) n_assets n_days
              assets strikes rfr vol div Has eq_refl) as (op & Hop & Hrows).
  exists op. split; [exact Hop |]. intros k Hk.
  destruct (Hrows k Hk) as [Hfirst Hlater]. split; [| exact Hlater].
  intros Hnew i j Hi Hj. rewrite (Hfirst Hnew).
  rewrite lookup_total_map_seq by exact Hi. unfold draft_row.
  rewrite (lookup_total_map_seq
             (fun j => bscall_draft ((assets !!! i) !!! j)
                         (Fin (IZR (strikes !!! k))) rfr vol div
                         (tte n_days j))) by exact Hj.
  rewrite (proj1 (tte_pos n_days j Hj)). reflexivity.
Qed.

(** With the strike 100 twice in the list, the second block is left as
    [np.empty] made it. *)
Lemma option_grid_draft_blocks_witness :
  exists option_prices,
    option_grid_draft (fun _ => NaN) 2 1 2 [[Fin 100; Fin 101]]
      [100%Z; 100%Z] rfr (Fin (15 / 100)) div = Ok option_prices /\
    ((option_prices !!! 0%nat) !!! 0%nat) !!! 1%nat
    = bscall_draft (Fin 101) (Fin 100) rfr (Fin (15 / 100)) div
        (Fin (1 / 260)) /\
    option_prices !!! 1%nat = [[NaN; NaN]].
Proof.
  destruct (option_grid_draft_blocks (fun _ => NaN) 1 2 [[Fin 100; Fin 101]]
              [100%Z; 100%Z] rfr (Fin (15 / 100)) div)
    as (op & Hop & Hblocks).
  - split; [reflexivity |]. repeat constructor.
  - exists op. split; [exact Hop |]. split.
    + destruct (Hblocks 0%nat ltac:(simpl; lia)) as [Hfirst _].
      rewrite (Hfirst ltac:(apply not_elem_of_nil) 0%nat 1%nat) by lia.
      reflexivity.
    + destruct (Hblocks 1%nat ltac:(simpl; lia)) as [_ Hlater].
      apply Hlater. simpl. apply list_elem_of_here.
Defined.

(** ** The summary table *)

(** [np.mean(option_prices[i,:,0])], the column of the initial price in
    the summary table, for blocks with at least one day. *)
Definition initial_price_mean (option_prices : list (list (list num)))
    (i : nat) : res num :=
  block ← getitem option_prices i;
  first ← column block 0;
  mret (np_mean first).

Lemma map_const_seq {A} (x : A) (n : nat) :
  map (fun _ : nat => x) (seq 0 n) = replicate n x.
Proof.
  apply list_eq. intros i.
  change (map ?f ?l) with (f <$> l). rewrite list_lookup_fmap.
  destruct (decide (i < n)%nat) as [Hi | Hi].
  - rewrite lookup_seq_lt by exact Hi. simpl.
    symmetry. apply lookup_replicate_2, Hi.
  - rewrite lookup_seq_ge by lia. simpl.
    symmetry. apply lookup_replicate_None. lia.
Qed.

(** X26.  The initial price the summary table prints for a strike is
    not a statistic of the run: every path starts at 100, so on the
    generated paths the mean over the assets of the day-0 prices is the
    price of the pricer at the spot 100 with all the days of the horizon
    left, whatever the draws. *)
Theorem summary_initial_price (junk : nat -> num) (a : R)
    (n_assets n_days : nat) (g : rng) (ks : list R) (r vol q : R) :
  -1 < a -> (1 <= n_days)%nat -> (1 <= n_assets)%nat ->
  Forall (fun K => 0 < K) ks -> 0 < vol ->
  exists assets daily_returns g' option_prices call_deltas,
    simulate junk (Fin a) n_assets n_days g = Ok (assets, daily_returns, g') /\
    option_grid3 junk (length ks) n_assets n_days assets (map Fin ks) (Fin r)
      (Fin vol) (Fin q) = Ok (option_prices, call_deltas) /\
    forall k, (k < length ks)%nat ->
      initial_price_mean option_prices k
      = Ok (bscall (Fin 100) (Fin (ks !!! k)) (Fin r) (Fin vol) (Fin q)
              (Fin (INR n_days / 260))).1.
Proof.
  intros Ha Hn Hna Hks Hvol.
  destruct (simulate_closed junk a n_assets n_days g Ha Hn)
    as (dr & g' & Hsim & _).
  eexists _, dr, g', _, _. split; [exact Hsim |].
  split.
  { apply (option_grid3_closed junk (length ks) n_assets n_days
             (paths_real a n_assets n_days g) (map Fin ks) (Fin r) (Fin vol)
             (Fin q) (paths_real_shape a n_assets n_days g) (length_map _ _)). }
  intros k Hk.
  assert (HT : tte n_days 0 = Fin (INR n_days / 260)).
  { unfold tte. rewrite fdiv_Fin by lra. do 2 f_equal.
    rewrite INR_IZR_INZ. f_equal. lia. }
  assert (HT0 : 0 < INR n_days / 260).
  { apply Rdiv_lt_0_compat; [apply lt_0_INR; lia | lra]. }
  assert (HK : 0 < ks !!! k)
    by (apply (Forall_lookup_total_1 _ ks); assumption).
  rewrite bscall_finite by lra.
  unfold initial_price_mean, grid_block.
  rewrite getitem_total by (rewrite length_map, length_seq; exact Hk).
  rewrite lookup_total_map_seq by exact Hk.
  change (Ok ?x ≫= ?f) with (f x). cbv beta.
  rewrite (column_map _ 0
             (fun _ => Fin (bs_call 100 (ks !!! k) r q (INR n_days / 260) vol))).
  2:{ intros i Hi. apply list_elem_of_In, in_seq in Hi.
      change (map ?f ?l) with (f <$> l).
      rewrite list_lookup_fmap, lookup_seq_lt by lia.
      change (0 + 0)%nat with 0%nat.
      change (?f <$> Some ?x) with (Some (f x)). cbv beta.
      rewrite paths_real_cell, path_real_0, HT, lookup_total_map by lia.
      rewrite bscall_finite by lra. reflexivity. }
  rewrite map_const_seq. change (Ok ?x ≫= ?f) with (f x). cbv beta.
  rewrite np_mean_replicate by exact Hna. reflexivity.
Qed.

Lemma summary_initial_price_witness :
  exists assets daily_returns g' option_prices call_deltas,
    simulate (fun _ => NaN) ar N_ASSETS N_DAYS INR
    = Ok (assets, daily_returns, g') /\
    option_grid3 (fun _ => NaN) 4 N_ASSETS N_DAYS assets strikes rfr
      (Fin (15 / 100)) div = Ok (option_prices, call_deltas) /\
    initial_price_mean option_prices 1
    = Ok (bscall (Fin 100) (Fin 100) rfr (Fin (15 / 100)) div
            (Fin (INR N_DAYS / 260))).1.
Proof.
  destruct (summary_initial_price (fun _ => NaN) (15 / 100) N_ASSETS N_DAYS
              INR [97; 100; 103; 105] (5 / 100) (15 / 100) 0)
    as (assets & daily_returns & g' & op & cd & Hsim & Hgrid & Hinit).
  - lra.
  - unfold N_DAYS. lia.
  - unfold N_ASSETS. lia.
  - repeat constructor; lra.
  - lra.
  - exists assets, daily_returns, g', op, cd.
    split; [exact Hsim |]. split; [exact Hgrid |].
    exact (Hinit 1%nat ltac:(simpl; lia)).
Defined.
